(** * Disco handshake engine (package [disco], file [disco.go])

    A shallow embedding of [Initialize], [WriteMessage] and [ReadMessage]
    and the properties of the handshake state machine.

    The Strobe duplex object, the key-pair type, [GenerateKeypair], [dh]
    and [dhLen] live outside [disco.go]; they are taken as an interface
    ([Primitives]) and every general theorem holds for all of its
    instances.  A small executable instance ([Toy]) is used to run the
    engine on concrete inputs. *)

From Stdlib Require Import Strings.Byte Strings.Ascii Strings.String.
From stdpp Require Import base gmap strings list vector.

Local Open Scope string_scope.
Local Open Scope nat_scope.
Local Open Scope list_scope.
Local Open Scope stdpp_scope.

(** ** Go strings *)

Module strings.

(** [strings.Contains(s, substr)]. *)
Fixpoint Contains (s substr : string) : bool :=
  String.prefix substr s
  || match s with
     | EmptyString => false
     | String _ s' => Contains s' substr
     end.

(** [strings.Split(s, sep)] for a one-byte separator, the only use the
    engine makes of it ([sep = ","]).  The result is never empty. *)
Fixpoint Split (s : string) (sep : ascii) : list string :=
  match s with
  | EmptyString => [EmptyString]
  | String c s' =>
      if Ascii.eqb c sep then EmptyString :: Split s' sep
      else match Split s' sep with
           | [] => [String c EmptyString]
           | x :: xs => String c x :: xs
           end
  end.

Fixpoint TrimLeft (s : string) (c : ascii) : string :=
  match s with
  | EmptyString => EmptyString
  | String a s' => if Ascii.eqb a c then TrimLeft s' c else s
  end.

Fixpoint TrimRight (s : string) (c : ascii) : string :=
  match s with
  | EmptyString => EmptyString
  | String a s' =>
      match TrimRight s' c with
      | EmptyString => if Ascii.eqb a c then EmptyString else String a EmptyString
      | r => String a r
      end
  end.

(** [strings.Trim(s, cutset)] for a one-byte cutset ([" "] in the engine). *)
Definition Trim (s : string) (c : ascii) : string :=
  TrimRight (TrimLeft s c) c.

End strings.

(** ** Go byte slices and arrays *)

(** A [[]byte] argument as the callee sees it: the [len] bytes in view and
    the bytes of the backing array that lie between [len] and [cap]. *)
Record slice : Type := { visible : list byte; spare : list byte }.

Definition len (m : slice) : nat := length (visible m).
Definition cap (m : slice) : nat := length (visible m) + length (spare m).

(** A slice whose capacity equals its length, e.g. the result of
    [make([]byte, n)] or of a conversion [[]byte(str)]. *)
Definition full (l : list byte) : slice := {| visible := l; spare := [] |}.

(** [m[lo:hi]].  For a slice operand Go checks [0 <= lo <= hi <= cap(m)]:
    the upper bound is the capacity, not the length. *)
Definition slice_lo_hi (m : slice) (lo hi : nat) : option (list byte) :=
  if (lo <=? hi) && (hi <=? cap m)
  then Some (take (hi - lo) (drop lo (visible m ++ spare m)))
  else None.

(** [m[lo:]].  The upper bound defaults to [len(m)], so Go checks
    [lo <= len(m)]. *)
Definition slice_from (m : slice) (lo : nat) : option (list byte) :=
  if lo <=? len m then Some (drop lo (visible m)) else None.

(** [copy(dst[:], src)] into an array of [n] bytes: the first
    [min n (len src)] bytes are overwritten, the others are kept. *)
Fixpoint copy {n : nat} (dst : vec byte n) (src : list byte) : vec byte n :=
  match dst with
  | vnil => vnil
  | vcons d dst' =>
      match src with
      | [] => vcons d dst'
      | x :: src' => vcons x (copy dst' src')
      end
  end.

(** [[]byte(str)]. *)
Definition bytes (str : string) : list byte := list_byte_of_string str.

(** ** Panics

    The engine reports every failure by panicking: either an explicit
    [panic("...")] or a run-time error raised by a slice expression or a
    nil dereference. *)
Inductive panic : Type :=
| PanicMsg (msg : string)
| NilDereference
| SliceBoundsOutOfRange.

Inductive result (A : Type) : Type :=
| Ok (a : A)
| Panic (p : panic).
Arguments Ok {A} a.
Arguments Panic {A} p.

(** Code that mutates an object in place and may panic: the state is
    threaded through, and a panic leaves the state as it was when the
    panic was raised. *)
Definition M (S A : Type) : Type := S -> result A * S.

Definition ret {S A} (a : A) : M S A := fun st => (Ok a, st).
Definition bind {S A B} (m : M S A) (k : A -> M S B) : M S B :=
  fun st => match m st with
            | (Ok a, st') => k a st'
            | (Panic p, st') => (Panic p, st')
            end.
Definition throw {S A} (p : panic) : M S A := fun st => (Panic p, st).
Definition get {S} : M S S := fun st => (Ok st, st).
Definition modify {S} (f : S -> S) : M S unit := fun st => (Ok tt, f st).

#[global] Instance M_ret {S} : MRet (M S) := @ret S.
#[global] Instance M_bind {S} : MBind (M S) := fun A B k m => bind m k.

(** [for _, x := range l { body x }]. *)
Fixpoint forEach {S A} (l : list A) (body : A -> M S unit) : M S unit :=
  match l with
  | [] => ret tt
  | x :: l' => bind (body x) (fun _ => forEach l' body)
  end.

(** ** Key pairs *)

(** [keyPair]: two byte arrays of [n = dhLen] bytes.  The zero value (all
    bytes zero) is what the engine calls "Empty". *)
Record keyPair (n : nat) : Type :=
  { privateKey : vec byte n; publicKey : vec byte n }.
Arguments privateKey {n} k.
Arguments publicKey {n} k.

Definition emptyKeyPair (n : nat) : keyPair n :=
  {| privateKey := vreplicate n x00; publicKey := vreplicate n x00 |}.

Definition with_publicKey {n} (k : keyPair n) (pk : vec byte n) : keyPair n :=
  {| privateKey := privateKey k; publicKey := pk |}.

(** ** The interface of the code outside [disco.go] *)

Class Primitives : Type := {
  (** constant [dhLen] *)
  dhLen : nat;
  (** [strobe.Strobe], as a value *)
  Strobe : Type;
  (** [strobe.Strobe_R] *)
  Strobe_R : nat;
  InitStrobe : string -> Strobe;
  SetMacLen : nat -> Strobe -> Strobe;
  AD : bool -> list byte -> Strobe -> Strobe;
  Send_CLR : bool -> list byte -> Strobe -> Strobe;
  Recv_CLR : bool -> list byte -> Strobe -> Strobe;
  KEY : list byte -> Strobe -> Strobe;
  (** [Send_AEAD(plaintext, ad)] returns the ciphertext *)
  Send_AEAD : list byte -> list byte -> Strobe -> list byte * Strobe;
  (** [Recv_AEAD(ciphertext, ad)] returns the plaintext and [ok] *)
  Recv_AEAD : list byte -> list byte -> Strobe -> (list byte * bool) * Strobe;
  Clone : Strobe -> Strobe;
  RATCHET : nat -> Strobe -> Strobe;
  (** [c = st] is a plain assignment: it copies the fields of the struct
      and not the buffers they point to, so the method calls on [c] that
      follow may write through to [st].  [Leftover st c] is what the
      variable that held [st] holds once its copy has become [c]. *)
  Leftover : Strobe -> Strobe -> Strobe;
  (** the randomness [GenerateKeypair()] draws from *)
  Entropy : Type;
  GenerateKeypair : Entropy -> keyPair dhLen * Entropy;
  dh : keyPair dhLen -> vec byte dhLen -> list byte
}.

(** ** Handshake patterns *)

Record handshakePattern : Type := {
  initiatorPreMessagePattern : string;
  responderPreMessagePattern : string;
  messagePattern : list string
}.

(** The package-level table [patterns]. *)
Definition patterns : gmap string handshakePattern :=
  {[ "XX" := {| initiatorPreMessagePattern := "";
                responderPreMessagePattern := "";
                messagePattern := ["->e"; "<-e, ee, s, es"; "->s, se"] |} ]}.

#[global] Instance result_ret : MRet result := @Ok.
#[global] Instance result_bind : MBind result :=
  fun A B k r => match r with Ok a => k a | Panic p => Panic p end.

(** [*p] for a pointer argument that may be nil. *)
Definition deref {A} (p : option A) : result A :=
  match p with
  | Some a => Ok a
  | None => Panic NilDereference
  end.

(** Whether a call returned, and the session states it returned. *)
Definition isOk {A} (x : result A) : bool :=
  match x with
  | Ok _ => true
  | Panic _ => false
  end.

Definition returned {A} (x : result (option A)) : option A :=
  match x with
  | Ok c => c
  | Panic _ => None
  end.

(** ** The handshake state *)

Section Engine.

Context {P : Primitives}.

(** [handshakeState]; field [x] of the receiver [h] is [h_x]. *)
Record handshakeState : Type := {
  h_strobeState : Strobe;
  h_s : keyPair dhLen;
  h_e : keyPair dhLen;
  h_rs : keyPair dhLen;
  h_re : keyPair dhLen;
  h_initiator : bool;
  h_messagePattern : list string
}.

Definition set_strobeState (st : Strobe) (h : handshakeState) : handshakeState :=
  {| h_strobeState := st; h_s := h_s h; h_e := h_e h; h_rs := h_rs h;
     h_re := h_re h; h_initiator := h_initiator h;
     h_messagePattern := h_messagePattern h |}.

Definition set_e (k : keyPair dhLen) (h : handshakeState) : handshakeState :=
  {| h_strobeState := h_strobeState h; h_s := h_s h; h_e := k; h_rs := h_rs h;
     h_re := h_re h; h_initiator := h_initiator h;
     h_messagePattern := h_messagePattern h |}.

Definition set_rs (k : keyPair dhLen) (h : handshakeState) : handshakeState :=
  {| h_strobeState := h_strobeState h; h_s := h_s h; h_e := h_e h; h_rs := k;
     h_re := h_re h; h_initiator := h_initiator h;
     h_messagePattern := h_messagePattern h |}.

Definition set_re (k : keyPair dhLen) (h : handshakeState) : handshakeState :=
  {| h_strobeState := h_strobeState h; h_s := h_s h; h_e := h_e h; h_rs := h_rs h;
     h_re := k; h_initiator := h_initiator h;
     h_messagePattern := h_messagePattern h |}.

Definition set_messagePattern (mp : list string) (h : handshakeState) : handshakeState :=
  {| h_strobeState := h_strobeState h; h_s := h_s h; h_e := h_e h; h_rs := h_rs h;
     h_re := h_re h; h_initiator := h_initiator h;
     h_messagePattern := mp |}.

(** [h.strobeState.KEY(secret)] *)
Definition mixKey (secret : list byte) (h : handshakeState) : handshakeState :=
  set_strobeState (KEY secret (h_strobeState h)) h.

(** *** Initialize

    [pats] is the value of the package variable [patterns] at the time
    of the call; the pointer arguments [s], [e], [rs], [re] are [None]
    when nil.  A key pair that is not supplied keeps its zero value. *)
Definition Initialize (pats : gmap string handshakePattern)
    (name : string) (initiator : bool) (prologue : list byte)
    (s e rs re : option (keyPair dhLen)) : result handshakeState :=
  match pats !! name with
  | None => Panic (PanicMsg "the supplied handshakePattern does not exist")
  | Some p =>
      let st := InitStrobe ("DISCOv0.1.0_" +:+ name) in
      let st := SetMacLen 16 st in
      let st := AD false prologue st in
      st ← (if strings.Contains (initiatorPreMessagePattern p) "s" then
               if initiator
               then k ← deref s; Ok (AD false (publicKey k) st)
               else k ← deref rs; Ok (AD false (publicKey k) st)
             else Ok st);
      st ← (if strings.Contains (responderPreMessagePattern p) "s" then
               if initiator
               then k ← deref rs; Ok (AD false (publicKey k) st)
               else k ← deref s; Ok (AD false (publicKey k) st)
             else Ok st);
      Ok {| h_strobeState := st;
            h_s := default (emptyKeyPair dhLen) s;
            h_e := default (emptyKeyPair dhLen) e;
            h_rs := default (emptyKeyPair dhLen) rs;
            h_re := default (emptyKeyPair dhLen) re;
            h_initiator := initiator;
            h_messagePattern := messagePattern p |}
  end.

(** [h.messagePattern[0][2:]] followed by [strings.Split(_, ",")]: the
    string slice panics when the step has fewer than two bytes. *)
Definition stepTokens {S} (step : string) : M S (list string) :=
  match step with
  | String _ (String _ body) => ret (strings.Split body ",")
  | _ => throw SliceBoundsOutOfRange
  end.

(** The two session states built when the last step has been processed,
    from the transcript [st] that [h.strobeState] then holds: [c1] from
    a clone of it, [c2] from a plain copy of it. *)
Definition sessionStates (st : Strobe) : Strobe * Strobe :=
  let c1 := Clone st in
  let c1 := AD true (bytes "initiator") c1 in
  let c1 := RATCHET Strobe_R c1 in
  let c2 := st in
  let c2 := AD true (bytes "responder") c2 in
  let c2 := RATCHET Strobe_R c2 in
  (c1, c2).

(** What building them leaves in [h.strobeState]: [c2 = h.strobeState] is
    a plain copy, and [c2.AD], [c2.RATCHET] work on that copy.  What the
    variable then holds depends on the fields of [strobe.Strobe]; the
    engine does not use it again, since every later call panics on the
    empty list of steps. *)
Definition afterSplit (h : handshakeState) : handshakeState :=
  let st := h_strobeState h in
  set_strobeState (Leftover st (sessionStates st).2) h.

(** *** WriteMessage *)

(** What a call works on: the receiver [*h], the caller's
    [*messageBuffer] (both pointers are taken to be non-nil) and the
    randomness left.  The message buffer is the bytes it has in view and
    the payload a byte string of its own; the capacity of the buffer and
    a payload cut from the same array are the subject of [sharedWriter]
    below. *)
Record writer : Type := {
  wr_h : handshakeState;
  messageBuffer : list byte;
  entropy : Entropy
}.

Definition wr_set_h (h : handshakeState) (w : writer) : writer :=
  {| wr_h := h; messageBuffer := messageBuffer w; entropy := entropy w |}.

(** Append [h.strobeState.Send_AEAD(plaintext, []byte{})] to the caller's
    message buffer. *)
Definition sendAEAD (plaintext : list byte) (w : writer) : writer :=
  let '(ct, st) := Send_AEAD plaintext [] (h_strobeState (wr_h w)) in
  {| wr_h := set_strobeState st (wr_h w);
     messageBuffer := messageBuffer w ++ ct;
     entropy := entropy w |}.

(** The body of the loop over the tokens of the step. *)
Definition writeToken (pattern : string) : M writer unit :=
  fun w =>
    let h := wr_h w in
    if String.eqb pattern "e" then
      let '(k, rng) := GenerateKeypair (entropy w) in
      let h := set_e k h in
      let buf := messageBuffer w ++ publicKey (h_e h) in
      let h := set_strobeState (Send_CLR false (publicKey (h_e h)) (h_strobeState h)) h in
      (Ok tt, {| wr_h := h; messageBuffer := buf; entropy := rng |})
    else if String.eqb pattern "s" then
      (Ok tt, sendAEAD (publicKey (h_s h)) w)
    else if String.eqb pattern "ee" then
      (Ok tt, wr_set_h (mixKey (dh (h_e h) (publicKey (h_re h))) h) w)
    else if String.eqb pattern "es" then
      if h_initiator h
      then (Ok tt, wr_set_h (mixKey (dh (h_e h) (publicKey (h_rs h))) h) w)
      else (Ok tt, wr_set_h (mixKey (dh (h_s h) (publicKey (h_re h))) h) w)
    else if String.eqb pattern "se" then
      if h_initiator h
      then (Ok tt, wr_set_h (mixKey (dh (h_s h) (publicKey (h_re h))) h) w)
      else (Ok tt, wr_set_h (mixKey (dh (h_e h) (publicKey (h_rs h))) h) w)
    else if String.eqb pattern "ss" then
      (Ok tt, wr_set_h (mixKey (dh (h_s h) (publicKey (h_rs h))) h) w)
    else
      (Panic (PanicMsg "pattern not allowed"), w).

(** The results [c1], [c2] are [None] when the call leaves them at their
    zero value, that is on every step but the last. *)
Definition WriteMessage (payload : list byte) : M writer (option (Strobe * Strobe)) :=
  w ← get;
  match h_messagePattern (wr_h w) with
  | [] => throw (PanicMsg "no more message pattern to write")
  | step :: rest =>
      tokens ← stepTokens step;
      forEach tokens (fun pattern => writeToken (strings.Trim pattern " "));;
      modify (sendAEAD payload);;
      match rest with
      | [] =>
          modify (fun w => wr_set_h (set_messagePattern [] (wr_h w)) w);;
          w ← get;
          modify (fun w => wr_set_h (afterSplit (wr_h w)) w);;
          mret (Some (sessionStates (h_strobeState (wr_h w))))
      | _ :: _ =>
          modify (fun w => wr_set_h (set_messagePattern rest (wr_h w)) w);;
          mret None
      end
  end.

(** *** ReadMessage *)

(** What a call works on: the receiver [*h] and the caller's
    [*payloadBuffer] (both pointers are taken to be non-nil). *)
Record reader : Type := {
  rd_h : handshakeState;
  payloadBuffer : list byte
}.

Definition rd_set_h (h : handshakeState) (r : reader) : reader :=
  {| rd_h := h; payloadBuffer := payloadBuffer r |}.

(** A slice expression on the incoming message. *)
Definition sliceOrPanic {S} (o : option (list byte)) : M S (list byte) :=
  match o with
  | Some l => ret l
  | None => throw SliceBoundsOutOfRange
  end.

(** The body of the loop; the local variable [offset] goes in and its
    new value comes out. *)
Definition readToken (message : slice) (pattern : string) (offset : nat) : M reader nat :=
  if String.eqb pattern "e" then
    src ← sliceOrPanic (slice_lo_hi message offset (offset + dhLen));
    modify (fun r => let h := rd_h r in
                     rd_set_h (set_re (with_publicKey (h_re h) (copy (publicKey (h_re h)) src)) h) r);;
    let offset := offset + dhLen in
    modify (fun r => let h := rd_h r in
                     rd_set_h (set_strobeState (Recv_CLR false (publicKey (h_re h)) (h_strobeState h)) h) r);;
    mret offset
  else if String.eqb pattern "s" then
    ct ← sliceOrPanic (slice_lo_hi message offset (offset + dhLen + 16));
    r ← get;
    let '(pubKey, ok, st) := Recv_AEAD ct [] (h_strobeState (rd_h r)) in
    modify (fun r => rd_set_h (set_strobeState st (rd_h r)) r);;
    if negb ok then throw (PanicMsg "bad MAC")
    else
      let offset := offset + dhLen + 16 in
      modify (fun r => let h := rd_h r in
                       rd_set_h (set_rs (with_publicKey (h_rs h) (copy (publicKey (h_rs h)) pubKey)) h) r);;
      mret offset
  else
    r ← get;
    let h := rd_h r in
    if String.eqb pattern "ee" then
      modify (rd_set_h (mixKey (dh (h_e h) (publicKey (h_re h))) h));; mret offset
    else if String.eqb pattern "es" then
      if h_initiator h
      then modify (rd_set_h (mixKey (dh (h_e h) (publicKey (h_rs h))) h));; mret offset
      else modify (rd_set_h (mixKey (dh (h_s h) (publicKey (h_re h))) h));; mret offset
    else if String.eqb pattern "se" then
      if h_initiator h
      then modify (rd_set_h (mixKey (dh (h_s h) (publicKey (h_re h))) h));; mret offset
      else modify (rd_set_h (mixKey (dh (h_e h) (publicKey (h_rs h))) h));; mret offset
    else if String.eqb pattern "ss" then
      modify (rd_set_h (mixKey (dh (h_s h) (publicKey (h_rs h))) h));; mret offset
    else
      throw (PanicMsg "pattern not allowed").

(** [for _, pattern := range patterns { ... }] with [offset] carried
    from one iteration to the next. *)
Fixpoint readTokens (message : slice) (tokens : list string) (offset : nat) : M reader nat :=
  match tokens with
  | [] => mret offset
  | pattern :: tokens' =>
      offset ← readToken message (strings.Trim pattern " ") offset;
      readTokens message tokens' offset
  end.

Definition ReadMessage (message : slice) : M reader (option (Strobe * Strobe)) :=
  r ← get;
  match h_messagePattern (rd_h r) with
  | [] => throw (PanicMsg "no more message pattern to read")
  | step :: rest =>
      tokens ← stepTokens step;
      offset ← readTokens message tokens 0;
      ct ← sliceOrPanic (slice_from message offset);
      r ← get;
      let '(plaintext, ok, st) := Recv_AEAD ct [] (h_strobeState (rd_h r)) in
      modify (fun r => rd_set_h (set_strobeState st (rd_h r)) r);;
      if negb ok then throw (PanicMsg "invalid MAC")
      else
        modify (fun r => {| rd_h := rd_h r; payloadBuffer := payloadBuffer r ++ plaintext |});;
        match rest with
        | [] =>
            modify (fun r => rd_set_h (set_messagePattern [] (rd_h r)) r);;
            r ← get;
            modify (fun r => rd_set_h (afterSplit (rd_h r)) r);;
            mret (Some (sessionStates (h_strobeState (rd_h r))))
        | _ :: _ =>
            modify (fun r => rd_set_h (set_messagePattern rest (rd_h r)) r);;
            mret None
        end
  end.

End Engine.

(** ** Transcripts configured by [SetMacLen(16)]

    [tag16 st]: the transcript [st] was configured with [SetMacLen(16)]
    and since then only went through the operations the engine uses. *)
Inductive tag16 {P : Primitives} : Strobe -> Prop :=
| tag16_SetMacLen st : tag16 (SetMacLen 16 st)
| tag16_AD meta data st : tag16 st -> tag16 (AD meta data st)
| tag16_Send_CLR meta data st : tag16 st -> tag16 (Send_CLR meta data st)
| tag16_Recv_CLR meta data st : tag16 st -> tag16 (Recv_CLR meta data st)
| tag16_KEY data st : tag16 st -> tag16 (KEY data st)
| tag16_Send_AEAD pt ad st : tag16 st -> tag16 (Send_AEAD pt ad st).2
| tag16_Recv_AEAD ct ad st : tag16 st -> tag16 (Recv_AEAD ct ad st).2
| tag16_Clone st : tag16 st -> tag16 (Clone st)
| tag16_RATCHET n st : tag16 st -> tag16 (RATCHET n st).

(** What the engine relies on from the transcript: a ciphertext is the
    plaintext length plus the configured tag length. *)
Class SealsWithTag (P : Primitives) : Prop :=
  Send_AEAD_length :
    forall st pt ad, tag16 st -> length (Send_AEAD pt ad st).1 = length pt + 16.

(** The wire size of a token: [dhLen] bytes for [e], [dhLen + 16] for [s],
    nothing for the Diffie-Hellman tokens. *)
Definition tokenLen {P : Primitives} (pattern : string) : nat :=
  if String.eqb pattern "e" then dhLen
  else if String.eqb pattern "s" then dhLen + 16
  else 0.

(** The tokens the loop accepts. *)
Definition validToken (pattern : string) : bool :=
  bool_decide (pattern ∈ ["e"; "s"; "ee"; "es"; "se"; "ss"]).

(** The tokens of a step as the loop sees them. *)
Definition tokensOf (body : string) : list string :=
  (fun pattern => strings.Trim pattern " ") <$> strings.Split body ",".

(** The state of a call with [h.messagePattern] replaced. *)
Definition wr_with_steps {P : Primitives} (steps : list string) (w : writer) : writer :=
  wr_set_h (set_messagePattern steps (wr_h w)) w.
Definition rd_with_steps {P : Primitives} (steps : list string) (r : reader) : reader :=
  rd_set_h (set_messagePattern steps (rd_h r)) r.

(** ** An executable instance of the interface

    A toy transcript (a running checksum with a keystream and a tag
    derived from it) and a toy key agreement (xor), enough to run both
    sides of a handshake. *)
Module Toy.

Definition xorb8 (a b : byte) : byte :=
  default x00 (Byte.of_N (N.lxor (Byte.to_N a) (Byte.to_N b))).

Definition byteOf (n : N) : byte :=
  default x00 (Byte.of_N (n mod 256)%N).

Record duplex : Type := { macLen : nat; acc : N }.

Definition absorb (op : N) (data : list byte) (d : duplex) : duplex :=
  {| macLen := macLen d;
     acc := fold_left (fun a b => ((a * 31 + Byte.to_N b + 1) mod 65521)%N) data
              ((acc d * 31 + op) mod 65521)%N |}.

Fixpoint keystream (a : N) (data : list byte) : list byte :=
  match data with
  | [] => []
  | b :: data' => xorb8 b (byteOf a) :: keystream (a + 7)%N data'
  end.

Definition tagOf (d : duplex) : list byte :=
  (fun i => byteOf (acc d + N.of_nat i)%N) <$> seq 0 (macLen d).

Fixpoint bytesEq (a b : list byte) : bool :=
  match a, b with
  | [], [] => true
  | x :: a', y :: b' => Byte.eqb x y && bytesEq a' b'
  | _, _ => false
  end.

Definition send_AEAD (pt ad : list byte) (d : duplex) : list byte * duplex :=
  let ct := keystream (acc d) pt in
  let d := absorb 5 ad (absorb 4 pt d) in
  (ct ++ tagOf d, d).

Definition recv_AEAD (ct ad : list byte) (d : duplex) : (list byte * bool) * duplex :=
  if length ct <? macLen d then (([], false), absorb 6 ct d)
  else
    let body := take (length ct - macLen d) ct in
    let tag := drop (length ct - macLen d) ct in
    let pt := keystream (acc d) body in
    let d := absorb 5 ad (absorb 4 pt d) in
    ((pt, bytesEq tag (tagOf d)), d).

Definition keyOf (seed : N) : keyPair 32 :=
  {| privateKey := vreplicate 32 (byteOf seed);
     publicKey := vreplicate 32 (xorb8 (byteOf seed) x5a) |}.

#[global] Instance prims : Primitives := {|
  dhLen := 32;
  Strobe := duplex;
  Strobe_R := 166;
  InitStrobe name := absorb 0 (bytes name) {| macLen := 0; acc := 1 |};
  SetMacLen n d := {| macLen := n; acc := acc d |};
  AD meta data := absorb (if meta then 1 else 2) data;
  Send_CLR meta data := absorb 3 data;
  Recv_CLR meta data := absorb 3 data;
  KEY data := absorb 7 data;
  Send_AEAD := send_AEAD;
  Recv_AEAD := recv_AEAD;
  Clone d := d;
  RATCHET n := absorb (8 + N.of_nat n) [];
  Leftover d c := {| macLen := macLen d; acc := acc c |};
  Entropy := list N;
  GenerateKeypair rng :=
    match rng with
    | [] => (keyOf 0, [])
    | seed :: rng' => (keyOf seed, rng')
    end;
  dh k pk := vec_to_list (vzip_with xorb8 (vmap (xorb8 x5a) (privateKey k)) pk)
|}.

Definition write (h : handshakeState) (payload : list byte) (rng : list N) :=
  WriteMessage payload {| wr_h := h; messageBuffer := []; entropy := rng |}.
Definition read (h : handshakeState) (message : slice) :=
  ReadMessage message {| rd_h := h; payloadBuffer := [] |}.

(** The state and the message an earlier call left, for chaining calls;
    a panic leaves [None]. *)
Definition written {A} (x : result A * writer) : option (handshakeState * list byte) :=
  match x with
  | (Ok _, w) => Some (wr_h w, messageBuffer w)
  | (Panic _, _) => None
  end.
Definition readBy {A} (x : result A * reader) : option handshakeState :=
  match x with
  | (Ok _, r) => Some (rd_h r)
  | (Panic _, _) => None
  end.
Definition started (x : result handshakeState) : option handshakeState :=
  match x with
  | Ok h => Some h
  | Panic _ => None
  end.

(** Steps one and two of an "XX" exchange between an initiator whose
    static key pair is [s] (nil when [None]) and a responder with a
    static key pair: the two states before the third message. *)
Definition afterTwoSteps (s : option (keyPair 32)) : option (handshakeState * handshakeState) :=
  i0 ← started (Initialize patterns "XX" true (bytes "prologue") s None None None);
  r0 ← started (Initialize patterns "XX" false (bytes "prologue") (Some (keyOf 77)) None None None);
  '(i1, m1) ← written (write i0 (bytes "hello") [11%N]);
  r1 ← readBy (read r0 (full m1));
  '(r2, m2) ← written (write r1 [] [22%N]);
  i2 ← readBy (read i1 (full m2));
  Some (i2, r2).

Definition blank : handshakeState :=
  {| h_strobeState := SetMacLen 16 (InitStrobe "");
     h_s := emptyKeyPair 32; h_e := emptyKeyPair 32;
     h_rs := emptyKeyPair 32; h_re := emptyKeyPair 32;
     h_initiator := true; h_messagePattern := [] |}.

(** The initiator and the responder before the third message. *)
Definition i2 : handshakeState := default blank (fst <$> afterTwoSteps (Some (keyOf 5))).
Definition r2 : handshakeState := default blank (snd <$> afterTwoSteps (Some (keyOf 5))).

(** The same initiator when it was given no static key pair. *)
Definition i2_no_static : handshakeState := default blank (fst <$> afterTwoSteps None).

(** The third message, written by the initiator and read by the
    responder. *)
Definition writer3 : writer := {| wr_h := i2; messageBuffer := []; entropy := [] |}.
Definition wrote3 := WriteMessage (bytes "bye") writer3.
Definition reader3 : reader := {| rd_h := r2; payloadBuffer := [] |}.
Definition message3 : slice := full (messageBuffer wrote3.2).
Definition got3 := ReadMessage message3 reader3.

(** The third message before its payload: the writer once the tokens
    "s", "se" have been written, the reader once they have been read. *)
Definition wroteTokens3 := forEach (tokensOf "s, se") writeToken writer3.
Definition readTokens3 := readTokens message3 (strings.Split "s, se" ",") 0 reader3.

(** The initiator without a static key pair writing the third message. *)
Definition writer3_no_static : writer :=
  {| wr_h := i2_no_static; messageBuffer := []; entropy := [] |}.

(** A receive buffer of 64 bytes of which only the first ten hold data:
    [buf := make([]byte, 64)] filled by a read that returned 10, then
    [buf[:10]]. *)
Definition tenOf64 : slice :=
  {| visible := repeat x2a 10; spare := repeat x00 54 |}.

(** A table with a pattern whose two pre-messages name a static key. *)
Definition patternKK : handshakePattern :=
  {| initiatorPreMessagePattern := "s";
     responderPreMessagePattern := "s";
     messagePattern := ["->e, es, ss"; "<-e, ee, se"] |}.
Definition patternsKK : gmap string handshakePattern :=
  <[ "KK" := patternKK ]> patterns.

(** A responder fresh out of [Initialize], used as a writer. *)
Definition responder_writer : writer :=
  {| wr_h := default blank
               (started (Initialize patterns "XX" false (bytes "prologue")
                           (Some (keyOf 77)) None None None));
     messageBuffer := []; entropy := [44%N] |}.

(** The responder after the first message, about to write the second
    ("<-e, ee, s, es"). *)
Definition r1 : handshakeState :=
  default blank
    (i0 ← started (Initialize patterns "XX" true (bytes "prologue") (Some (keyOf 5)) None None None);
     r0 ← started (Initialize patterns "XX" false (bytes "prologue") (Some (keyOf 77)) None None None);
     '(_, m1) ← written (write i0 (bytes "hello") [11%N]);
     readBy (read r0 (full m1))).
Definition writer2 : writer := {| wr_h := r1; messageBuffer := []; entropy := [22%N] |}.

(** A writer whose step carries a token outside the six. *)
Definition corrupt : writer :=
  {| wr_h := set_messagePattern ["->e, x"] i2; messageBuffer := []; entropy := [33%N] |}.

(** The remote static key pair as a peer holds it: the public key only. *)
Definition remoteOf (k : keyPair 32) : keyPair 32 :=
  with_publicKey (emptyKeyPair 32) (publicKey k).

End Toy.

(** ** Sequences of calls *)

(** One call on the receiver [h] that returns, leaving it as [h']:
    a [WriteMessage] or a [ReadMessage], with any arguments. *)
Inductive callStep {P : Primitives} (h h' : handshakeState) : Prop :=
| callStep_write payload buf rng c w' :
    WriteMessage payload {| wr_h := h; messageBuffer := buf; entropy := rng |} = (Ok c, w') ->
    wr_h w' = h' ->
    callStep h h'
| callStep_read message pbuf c r' :
    ReadMessage message {| rd_h := h; payloadBuffer := pbuf |} = (Ok c, r') ->
    rd_h r' = h' ->
    callStep h h'.

(** [n] calls in a row that all return. *)
Inductive callSteps {P : Primitives} : nat -> handshakeState -> handshakeState -> Prop :=
| callSteps_O h : callSteps 0 h h
| callSteps_S n h h1 h2 : callStep h h1 -> callSteps n h1 h2 -> callSteps (S n) h h2.

(** What [WriteMessage] never writes to: the role, the static key pair and
    the two remote key pairs. *)
Definition writeFrame {P : Primitives} (h h' : handshakeState) : Prop :=
  h_initiator h' = h_initiator h /\ h_s h' = h_s h
  /\ h_rs h' = h_rs h /\ h_re h' = h_re h.

(** What [ReadMessage] never writes to: the role, the two local key pairs
    and the private halves of the remote ones. *)
Definition readFrame {P : Primitives} (h h' : handshakeState) : Prop :=
  h_initiator h' = h_initiator h /\ h_s h' = h_s h /\ h_e h' = h_e h
  /\ privateKey (h_rs h') = privateKey (h_rs h)
  /\ privateKey (h_re h') = privateKey (h_re h).

(** Whether the byte [c] occurs in [s]. *)
Fixpoint hasByte (c : ascii) (s : string) : bool :=
  match s with
  | EmptyString => false
  | String a s' => Ascii.eqb a c || hasByte c s'
  end.

(** ** A payload that shares memory with the message buffer

    [payload] and [*messageBuffer] are both slices, and nothing keeps a
    caller from cutting them from one array, as in [buf := payload[:0]].
    An [append] that fits the spare capacity of the buffer then writes
    into the payload, which [WriteMessage] reads only afterwards, when it
    seals it.  The receiver [*h] and the transcript are taken to lie
    apart from both. *)

(** One byte of [payload].  [Own b]: a byte that no [append] to
    [*messageBuffer] can reach, because it lies in another array, or in
    the same array before the first byte of the buffer or beyond its
    capacity.  [At i]: byte [i] of the array behind [*messageBuffer],
    counted from the first byte of the buffer, with [i] below its
    capacity. *)
Inductive cell : Type :=
| Own (b : byte)
| At (i : nat).

(** The byte a cell holds when the buffer is [buf]. *)
Definition readCell (buf : slice) (c : cell) : byte :=
  match c with
  | Own b => b
  | At i => default x00 ((visible buf ++ spare buf) !! i)
  end.

(** A cell that does not lie in the spare capacity of [buf]. *)
Definition apart (buf : slice) (c : cell) : Prop :=
  match c with
  | Own _ => True
  | At i => i < len buf
  end.

(** [append(buf, x...)] and what it does to the cells of the payload.
    When [x] fits the spare capacity it is written there, and a cell
    that lies there changes with it.  Otherwise the bytes go to a new,
    zeroed array, and the payload keeps the old one, which nothing
    writes to any more.  The capacity of the new array is the run time's
    choice: [grow] is what it adds to the length needed, given the old
    capacity and that length. *)
Definition append (grow : nat -> nat -> nat) (buf : slice) (payload : list cell)
    (x : list byte) : slice * list cell :=
  if length x <=? length (spare buf)
  then ({| visible := visible buf ++ x; spare := drop (length x) (spare buf) |},
        payload)
  else ({| visible := visible buf ++ x;
           spare := replicate (grow (cap buf) (len buf + length x)) x00 |},
        (fun c => Own (readCell buf c)) <$> payload).

Section SharedMemory.

Context {P : Primitives}.

Variable grow : nat -> nat -> nat.

(** What a call works on when the two slices are placed in memory: the
    receiver [*h], [*messageBuffer] with its spare capacity, [payload]
    as cells, and the randomness left. *)
Record sharedWriter : Type := {
  sw_h : handshakeState;
  sw_buffer : slice;
  sw_payload : list cell;
  sw_entropy : Entropy
}.

Definition sw_set_h (h : handshakeState) (sw : sharedWriter) : sharedWriter :=
  {| sw_h := h; sw_buffer := sw_buffer sw; sw_payload := sw_payload sw;
     sw_entropy := sw_entropy sw |}.

(** [x] appended to [*messageBuffer] (lines 135, 138, 161). *)
Definition appendTo (x : list byte) (sw : sharedWriter) : sharedWriter :=
  let '(buf, payload) := append grow (sw_buffer sw) (sw_payload sw) x in
  {| sw_h := sw_h sw; sw_buffer := buf; sw_payload := payload;
     sw_entropy := sw_entropy sw |}.

(** The bytes [payload] holds at the moment. *)
Definition payloadOf (sw : sharedWriter) : list byte :=
  readCell (sw_buffer sw) <$> sw_payload sw.

(** The same call seen without its memory: a [writer]. *)
Definition erase (sw : sharedWriter) : writer :=
  {| wr_h := sw_h sw; messageBuffer := visible (sw_buffer sw);
     entropy := sw_entropy sw |}.

(** Append [h.strobeState.Send_AEAD(plaintext, []byte{})] to the caller's
    message buffer. *)
Definition sendAEADShared (plaintext : list byte) (sw : sharedWriter) : sharedWriter :=
  let '(ct, st) := Send_AEAD plaintext [] (h_strobeState (sw_h sw)) in
  appendTo ct (sw_set_h (set_strobeState st (sw_h sw)) sw).

(** The body of the loop over the tokens of the step. *)
Definition writeTokenShared (pattern : string) : M sharedWriter unit :=
  fun sw =>
    let h := sw_h sw in
    if String.eqb pattern "e" then
      let '(k, rng) := GenerateKeypair (sw_entropy sw) in
      let h := set_e k h in
      let sw := appendTo (publicKey (h_e h)) sw in
      let h := set_strobeState (Send_CLR false (publicKey (h_e h)) (h_strobeState h)) h in
      (Ok tt, {| sw_h := h; sw_buffer := sw_buffer sw; sw_payload := sw_payload sw;
                 sw_entropy := rng |})
    else if String.eqb pattern "s" then
      (Ok tt, sendAEADShared (publicKey (h_s h)) sw)
    else if String.eqb pattern "ee" then
      (Ok tt, sw_set_h (mixKey (dh (h_e h) (publicKey (h_re h))) h) sw)
    else if String.eqb pattern "es" then
      if h_initiator h
      then (Ok tt, sw_set_h (mixKey (dh (h_e h) (publicKey (h_rs h))) h) sw)
      else (Ok tt, sw_set_h (mixKey (dh (h_s h) (publicKey (h_re h))) h) sw)
    else if String.eqb pattern "se" then
      if h_initiator h
      then (Ok tt, sw_set_h (mixKey (dh (h_s h) (publicKey (h_re h))) h) sw)
      else (Ok tt, sw_set_h (mixKey (dh (h_e h) (publicKey (h_rs h))) h) sw)
    else if String.eqb pattern "ss" then
      (Ok tt, sw_set_h (mixKey (dh (h_s h) (publicKey (h_rs h))) h) sw)
    else
      (Panic (PanicMsg "pattern not allowed"), sw).

(** [WriteMessage] with the payload read where the code reads it: at
    line 161, from the memory as the tokens have left it. *)
Definition WriteMessageShared : M sharedWriter (option (Strobe * Strobe)) :=
  sw ← get;
  match h_messagePattern (sw_h sw) with
  | [] => throw (PanicMsg "no more message pattern to write")
  | step :: rest =>
      tokens ← stepTokens step;
      forEach tokens (fun pattern => writeTokenShared (strings.Trim pattern " "));;
      sw ← get;
      modify (sendAEADShared (payloadOf sw));;
      match rest with
      | [] =>
          modify (fun sw => sw_set_h (set_messagePattern [] (sw_h sw)) sw);;
          sw ← get;
          modify (fun sw => sw_set_h (afterSplit (sw_h sw)) sw);;
          mret (Some (sessionStates (h_strobeState (sw_h sw))))
      | _ :: _ =>
          modify (fun sw => sw_set_h (set_messagePattern rest (sw_h sw)) sw);;
          mret None
      end
  end.

(** The bytes of the payload that the call seals: those it holds once
    the tokens of the step have been written. *)
Definition payloadWhenSealed (sw : sharedWriter) : list byte :=
  match h_messagePattern (sw_h sw) with
  | String _ (String _ body) :: _ =>
      payloadOf (forEach (tokensOf body) writeTokenShared sw).2
  | _ => payloadOf sw
  end.

End SharedMemory.

(** ** Two peers

    What two ends of a handshake need from the code outside [disco.go] to
    understand each other.  [peer st st'] relates the transcripts of the
    two ends when they have gone through the same exchange, one sending
    what the other received; [realKey k] says that the public key of [k]
    belongs to its private key. *)
Class PeerLaws (P : Primitives) : Type := {
  peer : Strobe -> Strobe -> Prop;
  realKey : keyPair dhLen -> Prop;
  peer_sym st st' : peer st st' -> peer st' st;
  peer_InitStrobe name : peer (InitStrobe name) (InitStrobe name);
  peer_SetMacLen n st st' : peer st st' -> peer (SetMacLen n st) (SetMacLen n st');
  peer_AD meta data st st' : peer st st' -> peer (AD meta data st) (AD meta data st');
  peer_KEY data st st' : peer st st' -> peer (KEY data st) (KEY data st');
  peer_CLR meta data st st' :
    peer st st' -> peer (Send_CLR meta data st) (Recv_CLR meta data st');
  (** what one end seals, the other opens *)
  peer_AEAD pt ad st st' :
    peer st st' ->
    (Recv_AEAD (Send_AEAD pt ad st).1 ad st').1 = (pt, true)
    /\ peer (Send_AEAD pt ad st).2 (Recv_AEAD (Send_AEAD pt ad st).1 ad st').2;
  peer_Clone st st' : peer st st' -> peer (Clone st) (Clone st');
  peer_RATCHET n st st' : peer st st' -> peer (RATCHET n st) (RATCHET n st');
  (** the two ends of a Diffie-Hellman exchange get the same secret *)
  dh_comm k k' : realKey k -> realKey k' -> dh k (publicKey k') = dh k' (publicKey k);
  GenerateKeypair_real rng : realKey (GenerateKeypair rng).1
}.

(** What the two ends have established so far: whether each static key
    pair is real, and for each of the four local key pairs whether the
    other end's remote slot holds its public key. *)
Record links : Type := {
  i_real : bool;
  r_real : bool;
  i_e : bool;
  i_s : bool;
  r_e : bool;
  r_s : bool
}.

(** The initiator's state [hi] and the responder's state [hr] agree on
    the transcript and on the key pairs that [k] lists. *)
Definition linked {P : Primitives} {PL : PeerLaws P}
    (k : links) (hi hr : handshakeState) : Prop :=
  h_initiator hi = true /\ h_initiator hr = false
  /\ peer (h_strobeState hi) (h_strobeState hr)
  /\ tag16 (h_strobeState hi) /\ tag16 (h_strobeState hr)
  /\ (i_real k = true -> realKey (h_s hi))
  /\ (r_real k = true -> realKey (h_s hr))
  /\ (i_e k = true -> realKey (h_e hi) /\ publicKey (h_re hr) = publicKey (h_e hi))
  /\ (i_s k = true -> publicKey (h_rs hr) = publicKey (h_s hi))
  /\ (r_e k = true -> realKey (h_e hr) /\ publicKey (h_re hi) = publicKey (h_e hr))
  /\ (r_s k = true -> publicKey (h_rs hi) = publicKey (h_s hr)).

(** The same for a writer [hw] and a reader [hr], whichever is the
    initiator. *)
Definition linkedWR {P : Primitives} {PL : PeerLaws P}
    (k : links) (hw hr : handshakeState) : Prop :=
  if h_initiator hw then linked k hw hr else linked k hr hw.

(** The part of [linked] that is about the roles and the key pairs; it
    is what remains once the last step has been taken and the
    transcripts have been split. *)
Definition linkedKeys {P : Primitives} {PL : PeerLaws P}
    (k : links) (hi hr : handshakeState) : Prop :=
  h_initiator hi = true /\ h_initiator hr = false
  /\ (i_real k = true -> realKey (h_s hi))
  /\ (r_real k = true -> realKey (h_s hr))
  /\ (i_e k = true -> realKey (h_e hi) /\ publicKey (h_re hr) = publicKey (h_e hi))
  /\ (i_s k = true -> publicKey (h_rs hr) = publicKey (h_s hi))
  /\ (r_e k = true -> realKey (h_e hr) /\ publicKey (h_re hi) = publicKey (h_e hr))
  /\ (r_s k = true -> publicKey (h_rs hi) = publicKey (h_s hr)).

Definition linkedKeysWR {P : Primitives} {PL : PeerLaws P}
    (k : links) (hw hr : handshakeState) : Prop :=
  if h_initiator hw then linkedKeys k hw hr else linkedKeys k hr hw.

(** What a token written by the initiator ([byInitiator]) or by the
    responder establishes; [None] when it is not one of the six, or mixes
    a Diffie-Hellman secret for which an end lacks the other's public key
    or a real key pair of its own. *)
Definition tokenLinks (byInitiator : bool) (k : links) (pattern : string) : option links :=
  if String.eqb pattern "e" then
    Some (if byInitiator
          then {| i_real := i_real k; r_real := r_real k; i_e := true; i_s := i_s k;
                  r_e := r_e k; r_s := r_s k |}
          else {| i_real := i_real k; r_real := r_real k; i_e := i_e k; i_s := i_s k;
                  r_e := true; r_s := r_s k |})
  else if String.eqb pattern "s" then
    Some (if byInitiator
          then {| i_real := i_real k; r_real := r_real k; i_e := i_e k; i_s := true;
                  r_e := r_e k; r_s := r_s k |}
          else {| i_real := i_real k; r_real := r_real k; i_e := i_e k; i_s := i_s k;
                  r_e := r_e k; r_s := true |})
  else if String.eqb pattern "ee" then
    if i_e k && r_e k then Some k else None
  else if String.eqb pattern "es" then
    if i_e k && r_s k && r_real k then Some k else None
  else if String.eqb pattern "se" then
    if i_s k && i_real k && r_e k then Some k else None
  else if String.eqb pattern "ss" then
    if i_s k && i_real k && r_s k && r_real k then Some k else None
  else None.

Fixpoint stepLinks (byInitiator : bool) (k : links) (tokens : list string) : option links :=
  match tokens with
  | [] => Some k
  | pattern :: tokens' =>
      match tokenLinks byInitiator k pattern with
      | Some k' => stepLinks byInitiator k' tokens'
      | None => None
      end
  end.

(** One message of an exchange: [hw] writes [payload], which lies apart
    from its message buffer, into that buffer, which is empty and has
    the spare capacity [sp], drawing from [rng]; [hr] reads exactly what
    was written.  [hw'], [hr'] are the states and [cw], [cr] the results
    the two calls leave, and the reader's payload buffer, empty before,
    holds [payload]. *)
Definition round {P : Primitives} (grow : nat -> nat -> nat)
    (payload sp : list byte) (rng : Entropy)
    (hw hr hw' hr' : handshakeState) (cw cr : option (Strobe * Strobe)) : Prop :=
  exists sw' r',
    WriteMessageShared grow
      {| sw_h := hw; sw_buffer := {| visible := []; spare := sp |};
         sw_payload := Own <$> payload; sw_entropy := rng |} = (Ok cw, sw')
    /\ ReadMessage (full (visible (sw_buffer sw'))) {| rd_h := hr; payloadBuffer := [] |}
       = (Ok cr, r')
    /\ payloadBuffer r' = payload
    /\ sw_h sw' = hw'
    /\ rd_h r' = hr'.

(** In the toy key agreement a key pair is real when its public key is
    its private key with every byte xored with [0x5a]. *)
Definition Toy_realKey (k : keyPair 32) : Prop :=
  publicKey k = vmap (fun b => Toy.xorb8 b x5a) (privateKey k).

(** The initiator of the toy exchange after it has written the first
    message, and what the two ends have established before and after the
    second one. *)
Definition Toy_i1 : handshakeState :=
  wr_h (WriteMessage (bytes "hello")
          {| wr_h := default Toy.blank
                       (Toy.started (Initialize patterns "XX" true (bytes "prologue")
                                       (Some (Toy.keyOf 5)) None None None));
             messageBuffer := []; entropy := [11%N] |}).2.

Definition Toy_links1 : links :=
  {| i_real := true; r_real := true; i_e := true; i_s := false; r_e := false; r_s := false |}.

Definition Toy_links2 : links :=
  {| i_real := true; r_real := true; i_e := true; i_s := false; r_e := true; r_s := true |}.

(** The initiator of the toy exchange as [Initialize] returns it. *)
Definition Toy_i0 : handshakeState :=
  default Toy.blank
    (Toy.started (Initialize patterns "XX" true (bytes "prologue")
                    (Some (Toy.keyOf 5)) None None None)).

(** The responder of the toy exchange as [Initialize] returns it. *)
Definition Toy_r0 : handshakeState :=
  default Toy.blank
    (Toy.started (Initialize patterns "XX" false (bytes "prologue")
                    (Some (Toy.keyOf 77)) None None None)).

(** The run time doubling what is needed when it moves a buffer. *)
Definition Toy_grow (oldCap needed : nat) : nat := needed.

(** The responder about to write the second message into a buffer that
    holds "hi" and has room for 100 more bytes, with the payload
    [buf[0:2]]. *)
Definition Toy_shared : sharedWriter :=
  {| sw_h := Toy.r1;
     sw_buffer := {| visible := bytes "hi"; spare := replicate 100 x00 |};
     sw_payload := [At 0; At 1];
     sw_entropy := [22%N] |}.

(** The initiator about to write the first message, with a payload of
    64 bytes capacity that holds "attack at dawn" and the message buffer
    [buf := payload[:0]]. *)
Definition Toy_aliased : sharedWriter :=
  {| sw_h := Toy_i0;
     sw_buffer := {| visible := []; spare := bytes "attack at dawn" ++ replicate 50 x00 |};
     sw_payload := At <$> seq 0 14;
     sw_entropy := [11%N] |}.

(** * Properties *)

Section Properties.

Context {P : Primitives}.

Implicit Types (h : handshakeState) (w : writer) (r : reader).
Implicit Types (payload : list byte) (message : slice) (p : panic).

Ltac unM :=
  unfold mbind, M_bind, bind, mret, M_ret, ret, throw, get, modify,
    sliceOrPanic, stepTokens in *;
  simpl in *.

(** ** The loop over the tokens *)

Lemma forEach_fmap {S A B} (g : A -> B) (body : B -> M S unit) (l : list A) :
  forEach l (fun x => body (g x)) = forEach (g <$> l) body.
Proof. induction l as [|x l IH]; simpl; [done|]. by rewrite IH. Qed.

(** A relation between the state before and after that every iteration
    respects, whether it returns or panics, holds across the loop. *)
Lemma forEach_rel {S A} (R : S -> S -> Prop) (body : A -> M S unit) :
  (forall st, R st st) ->
  (forall a b c, R a b -> R b c -> R a c) ->
  (forall x st, R st (body x st).2) ->
  forall l st, R st (forEach l body st).2.
Proof.
  intros Hrefl Htrans Hbody l.
  induction l as [|x l IH]; intros st; simpl; [apply Hrefl|].
  unfold bind. specialize (Hbody x st).
  destruct (body x st) as [[[]|p] st']; simpl in *; [|done].
  eapply Htrans; [exact Hbody|apply IH].
Qed.

Lemma readTokens_rel (R : reader -> reader -> Prop) message :
  (forall r, R r r) ->
  (forall a b c, R a b -> R b c -> R a c) ->
  (forall pattern offset r, R r (readToken message pattern offset r).2) ->
  forall tokens offset r, R r (readTokens message tokens offset r).2.
Proof.
  intros Hrefl Htrans Hbody tokens.
  induction tokens as [|x l IH]; intros offset r; simpl; [apply Hrefl|].
  unfold mbind, M_bind, bind.
  specialize (Hbody (strings.Trim x " ") offset r).
  destruct (readToken message (strings.Trim x " ") offset r) as [[o|p] r']; simpl in *; [|done].
  eapply Htrans; [exact Hbody|apply IH].
Qed.

(** ** What a token leaves untouched *)

Lemma writeToken_messagePattern pattern w :
  h_messagePattern (wr_h (writeToken pattern w).2) = h_messagePattern (wr_h w).
Proof.
  unfold writeToken, sendAEAD.
  repeat first
    [ done
    | match goal with
      | |- context [if ?b then _ else _] => destruct b
      | |- context [let '(_, _) := ?x in _] => destruct x
      end; simpl ].
Qed.

Lemma readToken_messagePattern message pattern offset r :
  h_messagePattern (rd_h (readToken message pattern offset r).2) = h_messagePattern (rd_h r).
Proof.
  unfold readToken. unM.
  repeat first
    [ done
    | match goal with
      | |- context [if ?b then _ else _] => destruct b
      | |- context [match slice_lo_hi ?m ?a ?b with _ => _ end] => destruct (slice_lo_hi m a b)
      | |- context [let '(_, _) := ?x in _] => destruct x
      end; simpl ].
Qed.

Lemma writeTokens_messagePattern tokens w :
  h_messagePattern (wr_h (forEach tokens writeToken w).2) = h_messagePattern (wr_h w).
Proof.
  apply (forEach_rel (fun a b => h_messagePattern (wr_h b) = h_messagePattern (wr_h a)));
    [done|congruence|].
  intros; apply writeToken_messagePattern.
Qed.

Lemma readTokens_messagePattern message tokens offset r :
  h_messagePattern (rd_h (readTokens message tokens offset r).2) = h_messagePattern (rd_h r).
Proof.
  apply (readTokens_rel (fun a b => h_messagePattern (rd_h b) = h_messagePattern (rd_h a)));
    [done|congruence|].
  intros; apply readToken_messagePattern.
Qed.

(** ** The calls, one case per way out *)

Lemma WriteMessage_eq payload w :
  WriteMessage payload w =
  match h_messagePattern (wr_h w) with
  | [] => (Panic (PanicMsg "no more message pattern to write"), w)
  | String _ (String _ body) :: rest =>
      match forEach (tokensOf body) writeToken w with
      | (Ok _, w1) =>
          let w2 := sendAEAD payload w1 in
          (Ok (match rest with
               | [] => Some (sessionStates (h_strobeState (wr_h w2)))
               | _ :: _ => None
               end),
           wr_set_h (match rest with
                     | [] => afterSplit (set_messagePattern [] (wr_h w2))
                     | _ :: _ => set_messagePattern rest (wr_h w2)
                     end) w2)
      | (Panic p, w1) => (Panic p, w1)
      end
  | _ :: _ => (Panic SliceBoundsOutOfRange, w)
  end.
Proof.
  unfold WriteMessage, tokensOf. unM.
  destruct (h_messagePattern (wr_h w)) as [|[|a [|b body]] rest]; try done.
  simpl. rewrite (forEach_fmap (fun x => strings.Trim x " ") writeToken).
  destruct (forEach _ writeToken w) as [[[]|p] w1]; [|done].
  by destruct rest.
Qed.

Lemma ReadMessage_eq message r :
  ReadMessage message r =
  match h_messagePattern (rd_h r) with
  | [] => (Panic (PanicMsg "no more message pattern to read"), r)
  | String _ (String _ body) :: rest =>
      match readTokens message (strings.Split body ",") 0 r with
      | (Ok offset, r1) =>
          match slice_from message offset with
          | None => (Panic SliceBoundsOutOfRange, r1)
          | Some ct =>
              let '(plaintext, ok, st) := Recv_AEAD ct [] (h_strobeState (rd_h r1)) in
              let r2 := rd_set_h (set_strobeState st (rd_h r1)) r1 in
              if ok then
                (Ok (match rest with
                     | [] => Some (sessionStates st)
                     | _ :: _ => None
                     end),
                 {| rd_h := match rest with
                            | [] => afterSplit (set_messagePattern [] (rd_h r2))
                            | _ :: _ => set_messagePattern rest (rd_h r2)
                            end;
                    payloadBuffer := payloadBuffer r1 ++ plaintext |})
              else (Panic (PanicMsg "invalid MAC"), r2)
          end
      | (Panic p, r1) => (Panic p, r1)
      end
  | _ :: _ => (Panic SliceBoundsOutOfRange, r)
  end.
Proof.
  unfold ReadMessage. unM.
  destruct (h_messagePattern (rd_h r)) as [|[|a [|b body]] rest]; try done.
  simpl.
  destruct (readTokens message _ 0 r) as [[offset|p] r1]; [|done].
  destruct (slice_from message offset) as [ct|]; [|done]. simpl.
  destruct (Recv_AEAD ct [] _) as [[plaintext ok] st].
  destruct ok; simpl; [|done].
  by destruct rest.
Qed.

(** What is left of the receiver once the step has been dropped. *)
Lemma dropped_messagePattern rest h :
  h_messagePattern (match rest with
                    | [] => afterSplit (set_messagePattern [] h)
                    | _ :: _ => set_messagePattern rest h
                    end) = rest.
Proof. by destruct rest. Qed.

(** ** Steps *)

(** C4. A call that returns has removed exactly the first step from
    [h.messagePattern]; with no step left, [WriteMessage] panics with
    "no more message pattern to write" and [ReadMessage] with "no more
    message pattern to read", and the state is as it was. *)
Theorem one_step_per_successful_call payload message w r :
  (forall c w', WriteMessage payload w = (Ok c, w') ->
     exists step, h_messagePattern (wr_h w) = step :: h_messagePattern (wr_h w'))
  /\ (forall c r', ReadMessage message r = (Ok c, r') ->
     exists step, h_messagePattern (rd_h r) = step :: h_messagePattern (rd_h r'))
  /\ (h_messagePattern (wr_h w) = [] ->
      WriteMessage payload w = (Panic (PanicMsg "no more message pattern to write"), w))
  /\ (h_messagePattern (rd_h r) = [] ->
      ReadMessage message r = (Panic (PanicMsg "no more message pattern to read"), r)).
Proof.
  rewrite WriteMessage_eq, ReadMessage_eq. repeat split.
  - intros c w'.
    destruct (h_messagePattern (wr_h w)) as [|[|a [|b body]] rest]; try done.
    destruct (forEach _ writeToken w) as [[[]|p] w1]; [|done].
    intros [= _ <-]. simpl. rewrite dropped_messagePattern. by eexists.
  - intros c r'.
    destruct (h_messagePattern (rd_h r)) as [|[|a [|b body]] rest]; try done.
    destruct (readTokens message _ 0 r) as [[offset|p] r1]; [|done].
    destruct (slice_from message offset) as [ct|]; [|done].
    destruct (Recv_AEAD ct [] _) as [[plaintext ok] st].
    destruct ok; [|done].
    intros [= _ <-]. simpl. rewrite dropped_messagePattern. by eexists.
  - by intros ->.
  - by intros ->.
Qed.

(** C8. A call that panics leaves [h.messagePattern] as it was: the step
    is dropped only after all its tokens and the payload went through. *)
Theorem failed_call_keeps_steps payload message w r p :
  (forall w', WriteMessage payload w = (Panic p, w') ->
     h_messagePattern (wr_h w') = h_messagePattern (wr_h w))
  /\ (forall r', ReadMessage message r = (Panic p, r') ->
     h_messagePattern (rd_h r') = h_messagePattern (rd_h r)).
Proof.
  rewrite WriteMessage_eq, ReadMessage_eq. split.
  - intros w'.
    destruct (h_messagePattern (wr_h w)) as [|[|a [|b body]] rest] eqn:Hmp;
      try (by intros [= _ <-]).
    pose proof (writeTokens_messagePattern (tokensOf body) w) as Hkeep.
    destruct (forEach _ writeToken w) as [[[]|q] w1]; [done|].
    intros [= _ <-]. simpl in Hkeep. congruence.
  - intros r'.
    destruct (h_messagePattern (rd_h r)) as [|[|a [|b body]] rest] eqn:Hmp;
      try (by intros [= _ <-]).
    pose proof (readTokens_messagePattern message (strings.Split body ",") 0 r) as Hkeep.
    destruct (readTokens message _ 0 r) as [[offset|q] r1]; simpl in Hkeep.
    + destruct (slice_from message offset) as [ct|]; [|intros [= _ <-]; congruence].
      destruct (Recv_AEAD ct [] _) as [[plaintext ok] st].
      destruct ok; [done|]. intros [= _ <-]. simpl. congruence.
    + intros [= _ <-]. congruence.
Qed.

(** ** The split *)

(** C1. On the last step both calls return the two values built from the
    transcript [st] that [h.strobeState] holds when the tokens and the
    payload have gone through, before anything is split off: [c1] is a
    clone of [st] that absorbed "initiator" and was ratcheted, [c2] is
    [st] after absorbing "responder" and a ratchet.  For [WriteMessage]
    [st] is the transcript after the payload was sealed (line 161), for
    [ReadMessage] the one after it was opened (line 244), and the call
    returns exactly when the tokens and the payload went through.  The
    role flag plays no part, so a writer and a reader whose transcripts
    agree at that point return the same pair. *)
Theorem split_is_role_independent payload message w r :
  (forall a b body cw,
      h_messagePattern (wr_h w) = [String a (String b body)] ->
      (exists w', WriteMessage payload w = (Ok cw, w')) <->
      (exists w1,
          forEach (tokensOf body) writeToken w = (Ok tt, w1)
          /\ cw = Some (RATCHET Strobe_R
                          (AD true (bytes "initiator")
                             (Clone (h_strobeState (wr_h (sendAEAD payload w1))))),
                        RATCHET Strobe_R
                          (AD true (bytes "responder")
                             (h_strobeState (wr_h (sendAEAD payload w1)))))))
  /\ (forall a b body cr,
      h_messagePattern (rd_h r) = [String a (String b body)] ->
      (exists r', ReadMessage message r = (Ok cr, r')) <->
      (exists offset r1 ct plaintext st,
          readTokens message (strings.Split body ",") 0 r = (Ok offset, r1)
          /\ slice_from message offset = Some ct
          /\ Recv_AEAD ct [] (h_strobeState (rd_h r1)) = (plaintext, true, st)
          /\ cr = Some (RATCHET Strobe_R (AD true (bytes "initiator") (Clone st)),
                        RATCHET Strobe_R (AD true (bytes "responder") st))))
  /\ (forall a b body a' b' body' w1 offset r1 ct plaintext,
      h_messagePattern (wr_h w) = [String a (String b body)] ->
      h_messagePattern (rd_h r) = [String a' (String b' body')] ->
      forEach (tokensOf body) writeToken w = (Ok tt, w1) ->
      readTokens message (strings.Split body' ",") 0 r = (Ok offset, r1) ->
      slice_from message offset = Some ct ->
      Recv_AEAD ct [] (h_strobeState (rd_h r1))
      = (plaintext, true, h_strobeState (wr_h (sendAEAD payload w1))) ->
      exists c, (WriteMessage payload w).1 = Ok (Some c)
                /\ (ReadMessage message r).1 = Ok (Some c)).
Proof.
  rewrite WriteMessage_eq, ReadMessage_eq. split; [|split].
  - intros a b body cw ->. split.
    + intros [w' HW].
      destruct (forEach _ writeToken w) as [[[]|p] w1]; [|done].
      injection HW as <- _. by exists w1.
    + intros (w1 & -> & ->). by eexists.
  - intros a b body cr ->. split.
    + intros [r' HR].
      destruct (readTokens message _ 0 r) as [[offset|p] r1]; [|done].
      destruct (slice_from message offset) as [ct|] eqn:Hct; [|done].
      destruct (Recv_AEAD ct [] _) as [[plaintext ok] st] eqn:Hopen.
      destruct ok; [|done].
      injection HR as <- _. by exists offset, r1, ct, plaintext, st.
    + intros (offset & r1 & ct & plaintext & st & -> & -> & -> & ->). by eexists.
  - intros a b body a' b' body' w1 offset r1 ct plaintext -> -> -> -> -> ->.
    simpl. by eexists.
Qed.

(** ** Diffie-Hellman tokens *)

(** C2. Token [es] mixes [dh(h.e, h.rs.publicKey)] into the transcript
    for the initiator and [dh(h.s, h.re.publicKey)] for the responder;
    token [se] does the converse.  The loop bodies of [WriteMessage] and
    [ReadMessage] agree, and nothing else changes. *)
Theorem es_se_key_selection h buf rng pbuf message offset :
  let w := {| wr_h := h; messageBuffer := buf; entropy := rng |} in
  let r := {| rd_h := h; payloadBuffer := pbuf |} in
  let es := if h_initiator h then dh (h_e h) (publicKey (h_rs h))
            else dh (h_s h) (publicKey (h_re h)) in
  let se := if h_initiator h then dh (h_s h) (publicKey (h_re h))
            else dh (h_e h) (publicKey (h_rs h)) in
  writeToken "es" w = (Ok tt, wr_set_h (set_strobeState (KEY es (h_strobeState h)) h) w)
  /\ readToken message "es" offset r
     = (Ok offset, rd_set_h (set_strobeState (KEY es (h_strobeState h)) h) r)
  /\ writeToken "se" w = (Ok tt, wr_set_h (set_strobeState (KEY se (h_strobeState h)) h) w)
  /\ readToken message "se" offset r
     = (Ok offset, rd_set_h (set_strobeState (KEY se (h_strobeState h)) h) r).
Proof.
  unfold writeToken, readToken, mixKey. unM.
  by destruct (h_initiator h).
Qed.

(** ** Which calls return *)

Lemma validToken_eqb pattern :
  validToken pattern =
  String.eqb pattern "e" || String.eqb pattern "s" || String.eqb pattern "ee"
  || String.eqb pattern "es" || String.eqb pattern "se" || String.eqb pattern "ss".
Proof.
  unfold validToken.
  repeat match goal with
         | |- context [String.eqb pattern ?t] =>
             destruct (String.eqb_spec pattern t); [by subst|]
         end.
  apply bool_decide_eq_false. intros Hin.
  repeat (apply elem_of_cons in Hin as [?|Hin]; [done|]).
  by apply elem_of_nil in Hin.
Qed.

(** The loop body of [WriteMessage] returns for the six tokens and
    panics with "pattern not allowed" for anything else; the key pairs
    are not looked at. *)
Lemma writeToken_result pattern w :
  (writeToken pattern w).1
  = if validToken pattern then Ok tt else Panic (PanicMsg "pattern not allowed").
Proof.
  rewrite validToken_eqb. unfold writeToken, sendAEAD.
  repeat match goal with
         | |- context [String.eqb pattern ?t] => destruct (String.eqb pattern t); simpl
         | |- context [let '(_, _) := ?x in _] => destruct x; simpl
         | |- context [if h_initiator ?h then _ else _] => destruct (h_initiator h); simpl
         end; done.
Qed.

Lemma writeTokens_result tokens w :
  Forall (fun pattern => validToken pattern = true) tokens ->
  (forEach tokens writeToken w).1 = Ok tt.
Proof.
  intros Hvalid. revert w.
  induction Hvalid as [|pattern tokens Hp _ IH]; intros w; simpl; [done|].
  unfold bind. pose proof (writeToken_result pattern w) as Hres.
  rewrite Hp in Hres.
  destruct (writeToken pattern w) as [[[]|p] w1]; simpl in *; [apply IH|done].
Qed.

Lemma writeTokens_panic tokens w p :
  (forEach tokens writeToken w).1 = Panic p -> p = PanicMsg "pattern not allowed".
Proof.
  revert w. induction tokens as [|pattern tokens IH]; intros w; simpl; [done|].
  unfold bind. pose proof (writeToken_result pattern w) as Hres.
  destruct (writeToken pattern w) as [[[]|q] w1]; simpl in *; [apply IH|].
  destruct (validToken pattern); [done|].
  injection Hres as ->. by intros [= <-].
Qed.

Lemma readToken_panic message pattern offset r p :
  (readToken message pattern offset r).1 = Panic p ->
  p = SliceBoundsOutOfRange \/ p = PanicMsg "bad MAC" \/ p = PanicMsg "pattern not allowed".
Proof.
  unfold readToken. unM.
  repeat match goal with
         | |- context [String.eqb pattern ?t] => destruct (String.eqb pattern t); simpl
         | |- context [match slice_lo_hi ?m ?a ?b with _ => _ end] =>
             destruct (slice_lo_hi m a b); simpl
         | |- context [let '(_, _) := ?x in _] => destruct x; simpl
         | |- context [if h_initiator ?h then _ else _] => destruct (h_initiator h); simpl
         | |- context [if negb ?b then _ else _] => destruct b; simpl
         end; try done; intros [= <-]; auto.
Qed.

Lemma readTokens_panic message tokens offset r p :
  (readTokens message tokens offset r).1 = Panic p ->
  p = SliceBoundsOutOfRange \/ p = PanicMsg "bad MAC" \/ p = PanicMsg "pattern not allowed".
Proof.
  revert offset r. induction tokens as [|pattern tokens IH]; intros offset r; simpl; [done|].
  unfold mbind, M_bind, bind.
  pose proof (readToken_panic message (strings.Trim pattern " ") offset r) as Hres.
  destruct (readToken message _ offset r) as [[o|q] r1]; simpl in *; [apply IH|].
  intros [= <-]. by apply Hres.
Qed.

(** C3, as the code has it.  No token checks that a key pair is there: an
    absent key pair is used with its zero value.  [WriteMessage] returns
    whenever the tokens of the step are among the six, whatever the key
    pairs hold, and the panics of the two calls are the explicit ones
    and the slice-bounds error; none is about key material. *)
Theorem absent_key_pair_is_not_detected payload message w r :
  (forall a b body rest,
      h_messagePattern (wr_h w) = String a (String b body) :: rest ->
      Forall (fun pattern => validToken pattern = true) (tokensOf body) ->
      exists c w', WriteMessage payload w = (Ok c, w'))
  /\ (forall p w', WriteMessage payload w = (Panic p, w') ->
      p = PanicMsg "no more message pattern to write" \/ p = SliceBoundsOutOfRange
      \/ p = PanicMsg "pattern not allowed")
  /\ (forall p r', ReadMessage message r = (Panic p, r') ->
      p = PanicMsg "no more message pattern to read" \/ p = SliceBoundsOutOfRange
      \/ p = PanicMsg "pattern not allowed" \/ p = PanicMsg "bad MAC"
      \/ p = PanicMsg "invalid MAC").
Proof.
  rewrite WriteMessage_eq, ReadMessage_eq. repeat split.
  - intros a b body rest -> Hvalid.
    pose proof (writeTokens_result _ w Hvalid) as Hres.
    destruct (forEach _ writeToken w) as [[[]|p] w1]; [|done]. eauto.
  - intros p w'.
    destruct (h_messagePattern (wr_h w)) as [|[|a [|b body]] rest];
      try (intros [= <- _]; by auto).
    pose proof (writeTokens_panic (tokensOf body) w) as Hres.
    destruct (forEach _ writeToken w) as [[[]|q] w1]; [done|].
    intros [= <- _]. auto.
  - intros p r'.
    destruct (h_messagePattern (rd_h r)) as [|[|a [|b body]] rest];
      try (intros [= <- _]; by auto).
    pose proof (readTokens_panic message (strings.Split body ",") 0 r) as Hres.
    destruct (readTokens message _ 0 r) as [[offset|q] r1]; simpl in Hres.
    + destruct (slice_from message offset) as [ct|]; [|intros [= <- _]; by auto].
      destruct (Recv_AEAD ct [] _) as [[plaintext ok] st].
      destruct ok; [done|]. intros [= <- _]. auto 10.
    + intros [= <- _]. destruct (Hres q eq_refl) as [->|[->| ->]]; auto 10.
Qed.

(** ** The direction marker *)

Lemma sendAEAD_with_steps steps plaintext w :
  sendAEAD plaintext (wr_with_steps steps w) = wr_with_steps steps (sendAEAD plaintext w).
Proof.
  destruct w as [[st ks ke krs kre ini mp] buf rng].
  unfold sendAEAD, wr_with_steps. simpl. by destruct (Send_AEAD plaintext [] st).
Qed.

Lemma writeToken_with_steps steps pattern w :
  writeToken pattern (wr_with_steps steps w)
  = ((writeToken pattern w).1, wr_with_steps steps (writeToken pattern w).2).
Proof.
  unfold writeToken. rewrite sendAEAD_with_steps.
  destruct w as [[st ks ke krs kre ini mp] buf rng]. simpl.
  repeat match goal with
         | |- context [String.eqb pattern ?t] => destruct (String.eqb pattern t); simpl
         | |- context [let '(_, _) := ?x in _] => destruct x; simpl
         | |- context [if ini then _ else _] => destruct ini; simpl
         end; done.
Qed.

Lemma writeTokens_with_steps steps tokens w :
  forEach tokens writeToken (wr_with_steps steps w)
  = ((forEach tokens writeToken w).1, wr_with_steps steps (forEach tokens writeToken w).2).
Proof.
  revert w. induction tokens as [|pattern tokens IH]; intros w; simpl; [done|].
  unfold bind. rewrite writeToken_with_steps.
  destruct (writeToken pattern w) as [[[]|p] w1]; simpl; [apply IH|done].
Qed.

Lemma readToken_with_steps steps message pattern offset r :
  readToken message pattern offset (rd_with_steps steps r)
  = ((readToken message pattern offset r).1,
     rd_with_steps steps (readToken message pattern offset r).2).
Proof.
  unfold readToken. unM.
  destruct r as [[st ks ke krs kre ini mp] pbuf]. simpl.
  repeat match goal with
         | |- context [String.eqb pattern ?t] => destruct (String.eqb pattern t); simpl
         | |- context [match slice_lo_hi ?m ?a ?b with _ => _ end] =>
             destruct (slice_lo_hi m a b); simpl
         | |- context [let '(_, _) := ?x in _] => destruct x; simpl
         | |- context [if ini then _ else _] => destruct ini; simpl
         | |- context [if negb ?b then _ else _] => destruct b; simpl
         end; done.
Qed.

Lemma readTokens_with_steps steps message tokens offset r :
  readTokens message tokens offset (rd_with_steps steps r)
  = ((readTokens message tokens offset r).1,
     rd_with_steps steps (readTokens message tokens offset r).2).
Proof.
  revert offset r. induction tokens as [|pattern tokens IH]; intros offset r; simpl; [done|].
  unfold mbind, M_bind, bind. rewrite readToken_with_steps.
  destruct (readToken message _ offset r) as [[o|p] r1]; simpl; [apply IH|done].
Qed.

(** C9. The first two bytes of the step are dropped unread: a call on a
    state whose step carries another marker ends the same way, with the
    same results and the same state (after a panic the steps are still
    the ones the call was given).  The role flag is not compared with
    the marker either, so a step of valid tokens is written whoever
    calls. *)
Theorem direction_marker_is_ignored payload message w r a b a' b' body rest :
  h_messagePattern (wr_h w) = String a (String b body) :: rest ->
  h_messagePattern (rd_h r) = String a (String b body) :: rest ->
  let steps' := String a' (String b' body) :: rest in
  WriteMessage payload (wr_with_steps steps' w)
  = match WriteMessage payload w with
    | (Ok c, w1) => (Ok c, w1)
    | (Panic p, w1) => (Panic p, wr_with_steps steps' w1)
    end
  /\ ReadMessage message (rd_with_steps steps' r)
     = match ReadMessage message r with
       | (Ok c, r1) => (Ok c, r1)
       | (Panic p, r1) => (Panic p, rd_with_steps steps' r1)
       end
  /\ (Forall (fun pattern => validToken pattern = true) (tokensOf body) ->
      exists c w1, WriteMessage payload w = (Ok c, w1)).
Proof.
  intros Hw Hr steps'. rewrite !WriteMessage_eq, !ReadMessage_eq, Hw, Hr.
  change (h_messagePattern (wr_h (wr_with_steps steps' w))) with steps'.
  change (h_messagePattern (rd_h (rd_with_steps steps' r))) with steps'.
  subst steps'. cbv iota. repeat split.
  - rewrite writeTokens_with_steps.
    destruct (forEach _ writeToken w) as [[[]|p] w1]; simpl; [|done].
    rewrite sendAEAD_with_steps.
    by destruct (sendAEAD payload w1) as [[st ks ke krs kre ini mp] buf rng].
  - rewrite readTokens_with_steps.
    destruct (readTokens message _ 0 r) as [[offset|p] r1]; simpl; [|done].
    destruct (slice_from message offset) as [ct|]; [|done].
    destruct r1 as [[st ks ke krs kre ini mp] pbuf]. simpl.
    destruct (Recv_AEAD ct [] st) as [[plaintext ok] st'].
    by destruct ok.
  - intros Hvalid. pose proof (writeTokens_result _ w Hvalid) as Hres.
    destruct (forEach _ writeToken w) as [[[]|p] w1]; [|done]. eauto.
Qed.

(** ** Short messages *)

Lemma readToken_offset message pattern offset r o r' :
  readToken message pattern offset r = (Ok o, r') -> o = offset + tokenLen pattern.
Proof.
  unfold readToken, tokenLen. unM.
  repeat match goal with
         | |- context [String.eqb pattern ?t] => destruct (String.eqb pattern t); simpl
         | |- context [match slice_lo_hi ?m ?a ?b with _ => _ end] =>
             destruct (slice_lo_hi m a b); simpl
         | |- context [let '(_, _) := ?x in _] => destruct x; simpl
         | |- context [if h_initiator ?h then _ else _] => destruct (h_initiator h); simpl
         | |- context [if negb ?b then _ else _] => destruct b; simpl
         end; try done; intros [= <- _]; lia.
Qed.

Lemma readTokens_offset message tokens offset r o r' :
  readTokens message tokens offset r = (Ok o, r') ->
  o = offset + sum_list (tokenLen <$> ((fun pattern => strings.Trim pattern " ") <$> tokens)).
Proof.
  revert offset r. induction tokens as [|pattern tokens IH]; intros offset r; simpl.
  { unfold mret, M_ret, ret. intros [= <- _]. lia. }
  unfold mbind, M_bind, bind.
  pose proof (readToken_offset message (strings.Trim pattern " ") offset r) as Hone.
  destruct (readToken message _ offset r) as [[o1|q] r1]; [|done].
  intros Hrest. apply IH in Hrest. rewrite (Hone o1 r1 eq_refl) in Hrest.
  rewrite Hrest. symmetry. apply Nat.add_assoc.
Qed.

(** C6, as the code has it.  The slice expressions at [e] and [s] are
    checked against the capacity of the message: with fewer than [dhLen]
    (for [s]: [dhLen + 16]) bytes of capacity left, the token panics
    with the slice-bounds error and changes nothing.  A message shorter
    than its step's tokens need never makes the call return: the call
    panics, with the slice-bounds error, "bad MAC" or "pattern not
    allowed". *)
Theorem short_message_panics message r offset :
  (cap message < offset + dhLen ->
   readToken message "e" offset r = (Panic SliceBoundsOutOfRange, r))
  /\ (cap message < offset + dhLen + 16 ->
   readToken message "s" offset r = (Panic SliceBoundsOutOfRange, r))
  /\ (forall a b body rest,
      h_messagePattern (rd_h r) = String a (String b body) :: rest ->
      len message < sum_list (tokenLen <$> tokensOf body) ->
      exists p r', ReadMessage message r = (Panic p, r')
                   /\ (p = SliceBoundsOutOfRange \/ p = PanicMsg "bad MAC"
                       \/ p = PanicMsg "pattern not allowed")).
Proof.
  repeat split.
  - intros Hcap. unfold readToken, slice_lo_hi. unM.
    destruct (Nat.leb_spec (offset + dhLen) (cap message)); [lia|].
    by rewrite andb_false_r.
  - intros Hcap. unfold readToken, slice_lo_hi. unM.
    destruct (Nat.leb_spec (offset + dhLen + 16) (cap message)); [lia|].
    by rewrite andb_false_r.
  - intros a b body rest Hmp Hshort. rewrite ReadMessage_eq, Hmp.
    pose proof (readTokens_offset message (strings.Split body ",") 0 r) as Hoff.
    pose proof (readTokens_panic message (strings.Split body ",") 0 r) as Hpanic.
    destruct (readTokens message _ 0 r) as [[o|q] r1]; simpl in Hpanic; [|by eauto].
    specialize (Hoff o r1 eq_refl). fold (tokensOf body) in Hoff.
    unfold slice_from. destruct (Nat.leb_spec o (len message)); [lia|]. eauto.
Qed.

(** ** Initialize *)

(** C5. For a registered pattern the initiator's and the responder's
    [Initialize] return, and with the same transcript when each side's
    [rs] holds the public key of the other side's [s].  When both
    pre-message patterns contain "s", that transcript has absorbed the
    prologue, then the initiator's static public key, then the
    responder's. *)
Theorem premessage_keys_initiator_first
    (pats : gmap string handshakePattern) name pat prologue
    (iS iRS rS rRS : keyPair dhLen)
    (iE iRE rE rRE : option (keyPair dhLen)) :
  pats !! name = Some pat ->
  publicKey iRS = publicKey rS ->
  publicKey rRS = publicKey iS ->
  exists hi hr,
    Initialize pats name true prologue (Some iS) iE (Some iRS) iRE = Ok hi
    /\ Initialize pats name false prologue (Some rS) rE (Some rRS) rRE = Ok hr
    /\ h_strobeState hi = h_strobeState hr
    /\ (strings.Contains (initiatorPreMessagePattern pat) "s" = true ->
        strings.Contains (responderPreMessagePattern pat) "s" = true ->
        h_strobeState hi
        = AD false (publicKey rS)
            (AD false (publicKey iS)
               (AD false prologue (SetMacLen 16 (InitStrobe ("DISCOv0.1.0_" +:+ name)))))).
Proof.
  intros Hpat HiRS HrRS. unfold Initialize. rewrite Hpat. simpl.
  rewrite HiRS, HrRS.
  destruct (strings.Contains (initiatorPreMessagePattern pat) "s"),
           (strings.Contains (responderPreMessagePattern pat) "s");
    simpl; eexists _, _; repeat split; done.
Qed.

(** C10. For a registered pattern whose initiator (responder) pre-message
    pattern contains "s", [Initialize] dereferences [s] when the local
    role is the initiator (responder) and [rs] otherwise; when that
    pointer is nil the call ends in a nil-dereference panic. *)
Theorem nil_premessage_key_crashes
    (pats : gmap string handshakePattern) name pat (initiator : bool) prologue
    (s e rs re : option (keyPair dhLen)) :
  pats !! name = Some pat ->
  (strings.Contains (initiatorPreMessagePattern pat) "s" = true ->
   (if initiator then s else rs) = None ->
   Initialize pats name initiator prologue s e rs re = Panic NilDereference)
  /\ (strings.Contains (responderPreMessagePattern pat) "s" = true ->
   (if initiator then rs else s) = None ->
   Initialize pats name initiator prologue s e rs re = Panic NilDereference).
Proof.
  intros Hpat. unfold Initialize. rewrite Hpat. split; intros -> Hnil.
  - by destruct initiator; rewrite Hnil.
  - destruct initiator; rewrite Hnil;
      destruct (strings.Contains (initiatorPreMessagePattern pat) "s"); simpl;
      try done; by destruct s, rs.
Qed.

(** [Initialize] returns a transcript configured with a 16-byte tag, and
    the two calls keep it so. *)
Lemma Initialize_tag16 pats name initiator prologue s e rs re h :
  Initialize pats name initiator prologue s e rs re = Ok h ->
  tag16 (h_strobeState h).
Proof.
  unfold Initialize. destruct (pats !! name) as [pat|]; [|done]. simpl.
  destruct (strings.Contains (initiatorPreMessagePattern pat) "s"),
           (strings.Contains (responderPreMessagePattern pat) "s"),
           initiator, s, rs; simpl; try done;
    intros [= <-]; simpl; repeat constructor.
Qed.

(** ** Message length *)

Lemma sendAEAD_tag16 plaintext w :
  tag16 (h_strobeState (wr_h w)) -> tag16 (h_strobeState (wr_h (sendAEAD plaintext w))).
Proof.
  intros Htag. unfold sendAEAD.
  pose proof (tag16_Send_AEAD plaintext [] _ Htag) as Hst.
  by destruct (Send_AEAD plaintext [] _).
Qed.

Lemma writeToken_tag16 pattern w :
  tag16 (h_strobeState (wr_h w)) -> tag16 (h_strobeState (wr_h (writeToken pattern w).2)).
Proof.
  intros Htag. pose proof (sendAEAD_tag16 (publicKey (h_s (wr_h w))) w Htag).
  unfold writeToken, mixKey.
  repeat match goal with
         | |- context [String.eqb pattern ?t] => destruct (String.eqb pattern t); simpl
         | |- context [let '(_, _) := ?x in _] => destruct x; simpl
         | |- context [if h_initiator ?h then _ else _] => destruct (h_initiator h); simpl
         end; try done; by constructor.
Qed.

Lemma writeTokens_tag16 tokens w :
  tag16 (h_strobeState (wr_h w)) ->
  tag16 (h_strobeState (wr_h (forEach tokens writeToken w).2)).
Proof.
  apply (forEach_rel (fun a b => tag16 (h_strobeState (wr_h a)) ->
                                 tag16 (h_strobeState (wr_h b)))); [done|auto|].
  intros; by apply writeToken_tag16.
Qed.

Lemma readToken_tag16 message pattern offset r :
  tag16 (h_strobeState (rd_h r)) ->
  tag16 (h_strobeState (rd_h (readToken message pattern offset r).2)).
Proof.
  intros Htag. unfold readToken, mixKey. unM.
  repeat match goal with
         | |- context [String.eqb pattern ?t] => destruct (String.eqb pattern t); simpl
         | |- context [match slice_lo_hi ?m ?a ?b with _ => _ end] =>
             destruct (slice_lo_hi m a b); simpl
         | |- context [let '(_, _) := Recv_AEAD ?c ?ad ?st in _] =>
             pose proof (tag16_Recv_AEAD c ad st Htag);
             destruct (Recv_AEAD c ad st) as [[? ?] ?]; simpl in *
         | |- context [if h_initiator ?h then _ else _] => destruct (h_initiator h); simpl
         | |- context [if negb ?b then _ else _] => destruct b; simpl
         end; try done; by constructor.
Qed.

(** A call leaves a transcript with a 16-byte tag for as long as a step
    is left; what the split leaves behind is never used again. *)
Lemma calls_keep_tag16 payload message w r :
  (tag16 (h_strobeState (wr_h w)) ->
   h_messagePattern (wr_h (WriteMessage payload w).2) <> [] ->
   tag16 (h_strobeState (wr_h (WriteMessage payload w).2)))
  /\ (tag16 (h_strobeState (rd_h r)) ->
   h_messagePattern (rd_h (ReadMessage message r).2) <> [] ->
   tag16 (h_strobeState (rd_h (ReadMessage message r).2))).
Proof.
  rewrite WriteMessage_eq, ReadMessage_eq. split; intros Htag.
  - destruct (h_messagePattern (wr_h w)) as [|[|a [|b body]] rest]; try done.
    pose proof (writeTokens_tag16 (tokensOf body) w Htag) as Htag1.
    destruct (forEach _ writeToken w) as [[[]|p] w1]; simpl in *; [|done].
    destruct rest; [done|]. intros _. by apply sendAEAD_tag16.
  - destruct (h_messagePattern (rd_h r)) as [|[|a [|b body]] rest]; try done.
    assert (tag16 (h_strobeState (rd_h (readTokens message (strings.Split body ",") 0 r).2)))
      as Htag1.
    { revert Htag.
      apply (readTokens_rel (fun x y => tag16 (h_strobeState (rd_h x)) ->
                                        tag16 (h_strobeState (rd_h y)))); [done|auto|].
      intros; by apply readToken_tag16. }
    destruct (readTokens message _ 0 r) as [[offset|p] r1]; simpl in *; [|done].
    destruct (slice_from message offset) as [ct|]; [|done].
    pose proof (tag16_Recv_AEAD ct [] _ Htag1) as Htag2.
    destruct (Recv_AEAD ct [] _) as [[plaintext ok] st].
    destruct ok; [|done]. by destruct rest.
Qed.

End Properties.

Section MessageLength.

Context {P : Primitives} {L : SealsWithTag P}.

Implicit Types (w : writer) (payload : list byte).

Lemma sendAEAD_length plaintext w :
  tag16 (h_strobeState (wr_h w)) ->
  exists out, messageBuffer (sendAEAD plaintext w) = messageBuffer w ++ out
              /\ length out = length plaintext + 16.
Proof.
  intros Htag. unfold sendAEAD.
  pose proof (Send_AEAD_length _ plaintext [] Htag) as Hlen.
  destruct (Send_AEAD plaintext [] _) as [ct st]. simpl in *. eauto.
Qed.

Lemma writeToken_length pattern w :
  tag16 (h_strobeState (wr_h w)) ->
  validToken pattern = true ->
  exists out, messageBuffer (writeToken pattern w).2 = messageBuffer w ++ out
              /\ length out = tokenLen pattern.
Proof.
  intros Htag. rewrite validToken_eqb.
  destruct (sendAEAD_length (publicKey (h_s (wr_h w))) w Htag) as (out & Hout & Hlen).
  rewrite length_vec_to_list in Hlen.
  unfold writeToken, tokenLen.
  destruct (String.eqb_spec pattern "e") as [->|_]; simpl.
  { destruct (GenerateKeypair (entropy w)) as [k rng]. simpl.
    eexists; split; [done|apply length_vec_to_list]. }
  destruct (String.eqb_spec pattern "s") as [->|_]; simpl; [eauto|].
  intros Hvalid. exists []. rewrite app_nil_r.
  repeat match goal with
         | |- context [String.eqb pattern ?t] => destruct (String.eqb pattern t); simpl
         | |- context [if h_initiator ?h then _ else _] => destruct (h_initiator h); simpl
         end; done.
Qed.

Lemma writeTokens_length tokens w :
  tag16 (h_strobeState (wr_h w)) ->
  Forall (fun pattern => validToken pattern = true) tokens ->
  exists out, messageBuffer (forEach tokens writeToken w).2 = messageBuffer w ++ out
              /\ length out = sum_list (tokenLen <$> tokens).
Proof.
  intros Htag Hvalid. revert w Htag.
  induction Hvalid as [|pattern tokens Hp _ IH]; intros w Htag; simpl.
  { exists []. by rewrite app_nil_r. }
  unfold bind.
  destruct (writeToken_length pattern w Htag Hp) as (out1 & Hout1 & Hlen1).
  pose proof (writeToken_tag16 pattern w Htag) as Htag1.
  pose proof (writeToken_result pattern w) as Hres. rewrite Hp in Hres.
  destruct (writeToken pattern w) as [[[]|p] w1]; simpl in *; [|done].
  destruct (IH w1 Htag1) as (out2 & Hout2 & Hlen2).
  exists (out1 ++ out2). rewrite Hout2, Hout1, length_app, <- app_assoc. split; [done|].
  by rewrite Hlen1, Hlen2.
Qed.

(** C7. A step of valid tokens is written, and what the call appends to
    the message buffer is [dhLen] bytes for each [e], [dhLen + 16] for
    each [s], nothing for [ee], [es], [se], [ss], then
    [len(payload) + 16] bytes for the payload. *)
Theorem written_message_length payload w a b body rest :
  h_messagePattern (wr_h w) = String a (String b body) :: rest ->
  tag16 (h_strobeState (wr_h w)) ->
  Forall (fun pattern => validToken pattern = true) (tokensOf body) ->
  exists c w' out,
    WriteMessage payload w = (Ok c, w')
    /\ messageBuffer w' = messageBuffer w ++ out
    /\ length out = sum_list (tokenLen <$> tokensOf body) + (length payload + 16).
Proof.
  intros Hmp Htag Hvalid. rewrite WriteMessage_eq, Hmp.
  destruct (writeTokens_length _ w Htag Hvalid) as (out1 & Hout1 & Hlen1).
  pose proof (writeTokens_tag16 (tokensOf body) w Htag) as Htag1.
  pose proof (writeTokens_result _ w Hvalid) as Hres.
  destruct (forEach _ writeToken w) as [[[]|p] w1]; simpl in *; [|done].
  destruct (sendAEAD_length payload w1 Htag1) as (out2 & Hout2 & Hlen2).
  eexists _, _, (out1 ++ out2). split; [done|].
  simpl. rewrite Hout2, Hout1, length_app, <- app_assoc. split; [done|].
  by rewrite Hlen1, Hlen2.
Qed.

End MessageLength.

(** * The toy instance: laws and runs *)

Lemma Toy_tag16_macLen (d : Toy.duplex) : tag16 d <-> Toy.macLen d = 16.
Proof.
  split.
  - induction 1 as [| | | | |pt ad st _ IH|ct ad st _ IH| |]; simpl; try done.
    cbn. unfold Toy.recv_AEAD. by destruct (_ <? _).
  - destruct d as [n a]. simpl. intros ->.
    exact (tag16_SetMacLen {| Toy.macLen := 0; Toy.acc := a |}).
Qed.

Lemma Toy_keystream_length a data : length (Toy.keystream a data) = length data.
Proof. revert a. induction data as [|b data IH]; intros a; simpl; [done|]. by rewrite IH. Qed.

#[global] Instance Toy_seals : SealsWithTag Toy.prims.
Proof.
  intros st pt ad Htag.
  pose proof (tag16_Send_AEAD pt ad st Htag) as Htag'.
  apply Toy_tag16_macLen in Htag'. cbn in *. unfold Toy.send_AEAD in *. simpl in *.
  rewrite length_app, Toy_keystream_length. unfold Toy.tagOf.
  rewrite length_fmap, length_seq. simpl. by rewrite Htag'.
Qed.

(** ** Runs of the "XX" exchange *)

(** The steps of "XX" as the loops see them. *)
Example XX_tokens :
  tokensOf "e" = ["e"]
  /\ tokensOf "e, ee, s, es" = ["e"; "ee"; "s"; "es"]
  /\ tokensOf "s, se" = ["s"; "se"]
  /\ tokensOf "" = [""].
Proof. by vm_compute. Qed.

Lemma returned_eta {S A} (x : result (option A) * S) :
  isOk x.1 = true -> x = (Ok (returned x.1), x.2).
Proof. by destruct x as [[a|p] st]. Qed.

Lemma ok_eta {S A} (x : result A * S) a :
  x.1 = Ok a -> x = (Ok a, x.2).
Proof. destruct x as [res st]. simpl. by intros ->. Qed.

Lemma panic_eta {S A} (x : result A * S) p :
  x.1 = Panic p -> x = (Panic p, x.2).
Proof. destruct x as [res st]. simpl. by intros ->. Qed.

Lemma Toy_wrote3 : Toy.wrote3 = (Ok (returned Toy.wrote3.1), Toy.wrote3.2).
Proof. refine (returned_eta Toy.wrote3 _). vm_compute; reflexivity. Qed.

Lemma Toy_got3 : Toy.got3 = (Ok (returned Toy.got3.1), Toy.got3.2).
Proof. refine (returned_eta Toy.got3 _). vm_compute; reflexivity. Qed.

(** Both sides of a complete exchange end with the same two session
    states, and with no step left. *)
Example XX_session_states_agree :
  returned Toy.wrote3.1 = returned Toy.got3.1
  /\ returned Toy.wrote3.1
     = Some ({| Toy.macLen := 16; Toy.acc := 56193 |}, {| Toy.macLen := 16; Toy.acc := 45246 |})
  /\ h_messagePattern (wr_h Toy.wrote3.2) = []
  /\ h_messagePattern (rd_h Toy.got3.2) = []
  /\ payloadBuffer Toy.got3.2 = bytes "bye".
Proof. by vm_compute. Qed.

Lemma split_is_role_independent_witness :
  h_messagePattern (wr_h Toy.writer3) = ["->s, se"]
  /\ h_messagePattern (rd_h Toy.reader3) = ["->s, se"]
  /\ Toy.wroteTokens3 = (Ok tt, Toy.wroteTokens3.2)
  /\ Toy.readTokens3 = (Ok 48, Toy.readTokens3.2)
  /\ slice_from Toy.message3 48 = Some (drop 48 (visible Toy.message3))
  /\ Recv_AEAD (drop 48 (visible Toy.message3)) [] (h_strobeState (rd_h Toy.readTokens3.2))
     = (bytes "bye", true,
        h_strobeState (wr_h (sendAEAD (bytes "bye") Toy.wroteTokens3.2)))
  /\ (exists w',
        Toy.wrote3
        = (Ok (Some (RATCHET Strobe_R
                       (AD true (bytes "initiator")
                          (Clone (h_strobeState
                                    (wr_h (sendAEAD (bytes "bye") Toy.wroteTokens3.2))))),
                     RATCHET Strobe_R
                       (AD true (bytes "responder")
                          (h_strobeState
                             (wr_h (sendAEAD (bytes "bye") Toy.wroteTokens3.2)))))), w'))
  /\ (exists r',
        Toy.got3
        = (Ok (Some (RATCHET Strobe_R
                       (AD true (bytes "initiator")
                          (Clone (h_strobeState
                                    (wr_h (sendAEAD (bytes "bye") Toy.wroteTokens3.2))))),
                     RATCHET Strobe_R
                       (AD true (bytes "responder")
                          (h_strobeState
                             (wr_h (sendAEAD (bytes "bye") Toy.wroteTokens3.2)))))), r'))
  /\ exists c, Toy.wrote3.1 = Ok (Some c) /\ Toy.got3.1 = Ok (Some c).
Proof.
  assert (h_messagePattern (wr_h Toy.writer3) = ["->s, se"]) as H1 by (vm_compute; reflexivity).
  assert (h_messagePattern (rd_h Toy.reader3) = ["->s, se"]) as H2 by (vm_compute; reflexivity).
  assert (Toy.wroteTokens3 = (Ok tt, Toy.wroteTokens3.2)) as H3
    by (refine (ok_eta Toy.wroteTokens3 tt _); vm_compute; reflexivity).
  assert (Toy.readTokens3 = (Ok 48, Toy.readTokens3.2)) as H4
    by (refine (ok_eta Toy.readTokens3 48 _); vm_compute; reflexivity).
  assert (slice_from Toy.message3 48 = Some (drop 48 (visible Toy.message3))) as H5
    by (vm_compute; reflexivity).
  assert (Recv_AEAD (drop 48 (visible Toy.message3)) [] (h_strobeState (rd_h Toy.readTokens3.2))
          = (bytes "bye", true,
             h_strobeState (wr_h (sendAEAD (bytes "bye") Toy.wroteTokens3.2)))) as H6
    by (vm_compute; reflexivity).
  pose proof (split_is_role_independent (bytes "bye") Toy.message3 Toy.writer3 Toy.reader3)
    as (Hw & Hr & Hsame).
  split; [exact H1|]. split; [exact H2|]. split; [exact H3|]. split; [exact H4|].
  split; [exact H5|]. split; [exact H6|].
  split; [|split].
  - exact (proj2 (Hw "-"%char ">"%char "s, se" _ H1)
             (ex_intro _ Toy.wroteTokens3.2 (conj H3 eq_refl))).
  - exact (proj2 (Hr "-"%char ">"%char "s, se" _ H2)
             (ex_intro _ 48 (ex_intro _ Toy.readTokens3.2
                (ex_intro _ (drop 48 (visible Toy.message3)) (ex_intro _ (bytes "bye")
                   (ex_intro _ _ (conj H4 (conj H5 (conj H6 eq_refl))))))))).
  - exact (Hsame "-"%char ">"%char "s, se" "-"%char ">"%char "s, se"
             Toy.wroteTokens3.2 48 Toy.readTokens3.2 (drop 48 (visible Toy.message3))
             (bytes "bye") H1 H2 H3 H4 H5 H6).
Defined.

Lemma one_step_per_successful_call_witness :
  (Toy.wrote3 = (Ok (returned Toy.wrote3.1), Toy.wrote3.2)
   /\ exists step, h_messagePattern (wr_h Toy.writer3)
                   = step :: h_messagePattern (wr_h Toy.wrote3.2))
  /\ (Toy.got3 = (Ok (returned Toy.got3.1), Toy.got3.2)
      /\ exists step, h_messagePattern (rd_h Toy.reader3)
                      = step :: h_messagePattern (rd_h Toy.got3.2))
  /\ (h_messagePattern (wr_h Toy.wrote3.2) = []
      /\ WriteMessage [] Toy.wrote3.2
         = (Panic (PanicMsg "no more message pattern to write"), Toy.wrote3.2))
  /\ (h_messagePattern (rd_h Toy.got3.2) = []
      /\ ReadMessage (full []) Toy.got3.2
         = (Panic (PanicMsg "no more message pattern to read"), Toy.got3.2)).
Proof.
  assert (h_messagePattern (wr_h Toy.wrote3.2) = []) as H3 by (vm_compute; reflexivity).
  assert (h_messagePattern (rd_h Toy.got3.2) = []) as H4 by (vm_compute; reflexivity).
  pose proof (one_step_per_successful_call (bytes "bye") Toy.message3 Toy.writer3 Toy.reader3)
    as (Hw & Hr & _ & _).
  pose proof (one_step_per_successful_call [] (full []) Toy.wrote3.2 Toy.got3.2)
    as (_ & _ & Hwe & Hre).
  split; [split; [exact Toy_wrote3|exact (Hw _ _ Toy_wrote3)]|].
  split; [split; [exact Toy_got3|exact (Hr _ _ Toy_got3)]|].
  split; [split; [exact H3|exact (Hwe H3)]|].
  split; [exact H4|exact (Hre H4)].
Defined.

(** A writer that meets a token outside the six after it has written [e],
    and a reader given ten bytes where forty-eight are needed. *)
Lemma failed_call_keeps_steps_witness :
  (WriteMessage [] Toy.corrupt).1 = Panic (PanicMsg "pattern not allowed")
  /\ h_messagePattern (wr_h (WriteMessage [] Toy.corrupt).2)
     = h_messagePattern (wr_h Toy.corrupt)
  /\ (ReadMessage Toy.tenOf64 Toy.reader3).1 = Panic (PanicMsg "bad MAC")
  /\ h_messagePattern (rd_h (ReadMessage Toy.tenOf64 Toy.reader3).2)
     = h_messagePattern (rd_h Toy.reader3).
Proof.
  assert ((WriteMessage [] Toy.corrupt).1 = Panic (PanicMsg "pattern not allowed")) as H1
    by (vm_compute; reflexivity).
  assert ((ReadMessage Toy.tenOf64 Toy.reader3).1 = Panic (PanicMsg "bad MAC")) as H2
    by (vm_compute; reflexivity).
  pose proof (failed_call_keeps_steps [] Toy.tenOf64 Toy.corrupt Toy.reader3
                (PanicMsg "pattern not allowed")) as [Hw _].
  pose proof (failed_call_keeps_steps [] Toy.tenOf64 Toy.corrupt Toy.reader3
                (PanicMsg "bad MAC")) as [_ Hr].
  split; [exact H1|]. split; [exact (Hw _ (panic_eta _ _ H1))|].
  split; [exact H2|exact (Hr _ (panic_eta _ _ H2))].
Defined.

(** The transcript and the buffer after the failed write are not the ones
    before it: the [e] token had been executed. *)
Example failed_write_is_not_rolled_back :
  h_strobeState (wr_h (WriteMessage [] Toy.corrupt).2) <> h_strobeState (wr_h Toy.corrupt)
  /\ length (messageBuffer (WriteMessage [] Toy.corrupt).2) = 32.
Proof. by vm_compute. Qed.

(** C3 fails on the code: the initiator of "XX" that was given no static
    key pair reaches the step "->s, se" with [h.s] at its zero value, and
    [WriteMessage] returns (with the two session states) instead of
    panicking. *)
Lemma absent_static_key_is_written :
  h_s (wr_h Toy.writer3_no_static) = emptyKeyPair 32
  /\ h_messagePattern (wr_h Toy.writer3_no_static) = ["->s, se"]
  /\ (WriteMessage [] Toy.writer3_no_static).1
     = Ok (Some ({| Toy.macLen := 16; Toy.acc := 53839 |},
                 {| Toy.macLen := 16; Toy.acc := 42892 |}))
  /\ ~ (exists p, (WriteMessage [] Toy.writer3_no_static).1 = Panic p).
Proof.
  assert ((WriteMessage [] Toy.writer3_no_static).1
          = Ok (Some ({| Toy.macLen := 16; Toy.acc := 53839 |},
                      {| Toy.macLen := 16; Toy.acc := 42892 |}))) as Hok
    by (vm_compute; reflexivity).
  split; [vm_compute; reflexivity|]. split; [vm_compute; reflexivity|].
  split; [exact Hok|]. intros [p Hp]. rewrite Hok in Hp. discriminate Hp.
Qed.

Lemma absent_key_pair_is_not_detected_witness :
  (h_messagePattern (wr_h Toy.writer3_no_static) = ["->s, se"]
   /\ Forall (fun pattern => validToken pattern = true) (tokensOf "s, se")
   /\ exists c w', WriteMessage [] Toy.writer3_no_static = (Ok c, w'))
  /\ (WriteMessage [] Toy.corrupt
      = (Panic (PanicMsg "pattern not allowed"), (WriteMessage [] Toy.corrupt).2)
      /\ (PanicMsg "pattern not allowed" = PanicMsg "no more message pattern to write"
          \/ PanicMsg "pattern not allowed" = SliceBoundsOutOfRange
          \/ PanicMsg "pattern not allowed" = PanicMsg "pattern not allowed"))
  /\ (ReadMessage Toy.tenOf64 Toy.reader3
      = (Panic (PanicMsg "bad MAC"), (ReadMessage Toy.tenOf64 Toy.reader3).2)
      /\ (PanicMsg "bad MAC" = PanicMsg "no more message pattern to read"
          \/ PanicMsg "bad MAC" = SliceBoundsOutOfRange
          \/ PanicMsg "bad MAC" = PanicMsg "pattern not allowed"
          \/ PanicMsg "bad MAC" = PanicMsg "bad MAC"
          \/ PanicMsg "bad MAC" = PanicMsg "invalid MAC")).
Proof.
  assert (h_messagePattern (wr_h Toy.writer3_no_static) = ["->s, se"]) as H1
    by (vm_compute; reflexivity).
  assert (Forall (fun pattern => validToken pattern = true) (tokensOf "s, se")) as H2
    by (repeat constructor).
  assert (WriteMessage [] Toy.corrupt
          = (Panic (PanicMsg "pattern not allowed"), (WriteMessage [] Toy.corrupt).2)) as H3
    by (apply panic_eta; vm_compute; reflexivity).
  assert (ReadMessage Toy.tenOf64 Toy.reader3
          = (Panic (PanicMsg "bad MAC"), (ReadMessage Toy.tenOf64 Toy.reader3).2)) as H4
    by (apply panic_eta; vm_compute; reflexivity).
  pose proof (absent_key_pair_is_not_detected [] Toy.tenOf64 Toy.writer3_no_static Toy.reader3)
    as (Hok & _ & Hr).
  pose proof (absent_key_pair_is_not_detected [] Toy.tenOf64 Toy.corrupt Toy.reader3)
    as (_ & Hw & _).
  split; [split; [exact H1|split; [exact H2|exact (Hok _ _ _ _ H1 H2)]]|].
  split; [split; [exact H3|exact (Hw _ _ H3)]|].
  split; [exact H4|exact (Hr _ _ H4)].
Defined.

(** Both states before the third message carry the step "->s, se"; with
    "<-" in place of "->" the two calls end the same way. *)
Lemma direction_marker_is_ignored_witness :
  h_messagePattern (wr_h Toy.writer3) = ["->s, se"]
  /\ h_messagePattern (rd_h Toy.reader3) = ["->s, se"]
  /\ WriteMessage (bytes "bye") (wr_with_steps ["<-s, se"] Toy.writer3)
     = match WriteMessage (bytes "bye") Toy.writer3 with
       | (Ok c, w1) => (Ok c, w1)
       | (Panic p, w1) => (Panic p, wr_with_steps ["<-s, se"] w1)
       end
  /\ ReadMessage Toy.message3 (rd_with_steps ["<-s, se"] Toy.reader3)
     = match ReadMessage Toy.message3 Toy.reader3 with
       | (Ok c, r1) => (Ok c, r1)
       | (Panic p, r1) => (Panic p, rd_with_steps ["<-s, se"] r1)
       end
  /\ exists c w1, WriteMessage (bytes "bye") Toy.writer3 = (Ok c, w1).
Proof.
  assert (h_messagePattern (wr_h Toy.writer3) = ["->s, se"]) as H1 by (vm_compute; reflexivity).
  assert (h_messagePattern (rd_h Toy.reader3) = ["->s, se"]) as H2 by (vm_compute; reflexivity).
  pose proof (direction_marker_is_ignored (bytes "bye") Toy.message3 Toy.writer3 Toy.reader3
                "-"%char ">"%char "<"%char "-"%char "s, se" [] H1 H2) as (Hw & Hr & Hok).
  split; [exact H1|]. split; [exact H2|]. split; [exact Hw|]. split; [exact Hr|].
  apply Hok. repeat constructor.
Defined.

(** The responder, whose turn it is not, writes the step "->e". *)
Example out_of_turn_write_returns :
  h_initiator (wr_h Toy.responder_writer) = false
  /\ h_messagePattern (wr_h Toy.responder_writer) = ["->e"; "<-e, ee, s, es"; "->s, se"]
  /\ isOk (WriteMessage [] Toy.responder_writer).1 = true.
Proof. by vm_compute. Qed.

(** The second message of "XX", "<-e, ee, s, es", with an empty payload:
    [dhLen + (dhLen + 16) + (0 + 16)] bytes. *)
Lemma written_message_length_witness :
  h_messagePattern (wr_h Toy.writer2) = ["<-e, ee, s, es"; "->s, se"]
  /\ tag16 (h_strobeState (wr_h Toy.writer2))
  /\ Forall (fun pattern => validToken pattern = true) (tokensOf "e, ee, s, es")
  /\ exists c w' out,
      WriteMessage [] Toy.writer2 = (Ok c, w')
      /\ messageBuffer w' = messageBuffer Toy.writer2 ++ out
      /\ length out = sum_list (tokenLen <$> tokensOf "e, ee, s, es") + (0 + 16).
Proof.
  assert (h_messagePattern (wr_h Toy.writer2) = ["<-e, ee, s, es"; "->s, se"]) as H1
    by (vm_compute; reflexivity).
  assert (tag16 (h_strobeState (wr_h Toy.writer2))) as H2
    by (apply Toy_tag16_macLen; vm_compute; reflexivity).
  assert (Forall (fun pattern => validToken pattern = true) (tokensOf "e, ee, s, es")) as H3
    by (repeat constructor).
  split; [exact H1|]. split; [exact H2|]. split; [exact H3|].
  exact (written_message_length [] Toy.writer2 "<"%char "-"%char "e, ee, s, es" ["->s, se"]
           H1 H2 H3).
Defined.

Example XX_second_message_length :
  sum_list (tokenLen <$> tokensOf "e, ee, s, es") + (0 + 16) = 32 + (32 + 16) + (0 + 16)
  /\ length (messageBuffer (WriteMessage [] Toy.writer2).2) = 96.
Proof. by vm_compute. Qed.

(** C6 fails on the code: ten bytes of a 64-byte buffer are handed to the
    responder at the step "->s, se".  The slice expression at [s] reads
    48 bytes of the backing array, and the call panics with "bad MAC",
    not with the slice-bounds error. *)
Lemma short_message_reported_as_bad_MAC :
  len Toy.tenOf64 = 10
  /\ cap Toy.tenOf64 = 64
  /\ h_messagePattern (rd_h Toy.reader3) = ["->s, se"]
  /\ (ReadMessage Toy.tenOf64 Toy.reader3).1 = Panic (PanicMsg "bad MAC")
  /\ (ReadMessage Toy.tenOf64 Toy.reader3).1 <> Panic SliceBoundsOutOfRange.
Proof. by vm_compute. Qed.

Lemma short_message_panics_witness :
  (cap (full (repeat x2a 10)) < 0 + dhLen
   /\ readToken (full (repeat x2a 10)) "e" 0 Toy.reader3
      = (Panic SliceBoundsOutOfRange, Toy.reader3))
  /\ (cap (full (repeat x2a 10)) < 0 + dhLen + 16
      /\ readToken (full (repeat x2a 10)) "s" 0 Toy.reader3
         = (Panic SliceBoundsOutOfRange, Toy.reader3))
  /\ (h_messagePattern (rd_h Toy.reader3) = ["->s, se"]
      /\ len Toy.tenOf64 < sum_list (tokenLen <$> tokensOf "s, se")
      /\ exists p r', ReadMessage Toy.tenOf64 Toy.reader3 = (Panic p, r')
                      /\ (p = SliceBoundsOutOfRange \/ p = PanicMsg "bad MAC"
                          \/ p = PanicMsg "pattern not allowed")).
Proof.
  assert (cap (full (repeat x2a 10)) < 0 + dhLen) as H1 by (vm_compute; lia).
  assert (cap (full (repeat x2a 10)) < 0 + dhLen + 16) as H2 by (vm_compute; lia).
  assert (h_messagePattern (rd_h Toy.reader3) = ["->s, se"]) as H3 by (vm_compute; reflexivity).
  assert (len Toy.tenOf64 < sum_list (tokenLen <$> tokensOf "s, se")) as H4
    by (vm_compute; lia).
  pose proof (short_message_panics (full (repeat x2a 10)) Toy.reader3 0) as (He & Hs & _).
  pose proof (short_message_panics Toy.tenOf64 Toy.reader3 0) as (_ & _ & Hm).
  split; [split; [exact H1|exact (He H1)]|].
  split; [split; [exact H2|exact (Hs H2)]|].
  split; [exact H3|]. split; [exact H4|].
  exact (Hm "-"%char ">"%char "s, se" [] H3 H4).
Defined.

(** A pattern with a static key in both pre-messages: the two sides
    absorb the initiator's key, then the responder's. *)
Lemma premessage_keys_initiator_first_witness :
  Toy.patternsKK !! "KK" = Some Toy.patternKK
  /\ publicKey (Toy.remoteOf (Toy.keyOf 2)) = publicKey (Toy.keyOf 2)
  /\ publicKey (Toy.remoteOf (Toy.keyOf 1)) = publicKey (Toy.keyOf 1)
  /\ strings.Contains (initiatorPreMessagePattern Toy.patternKK) "s" = true
  /\ strings.Contains (responderPreMessagePattern Toy.patternKK) "s" = true
  /\ exists hi hr,
      Initialize Toy.patternsKK "KK" true (bytes "prologue")
        (Some (Toy.keyOf 1)) None (Some (Toy.remoteOf (Toy.keyOf 2))) None = Ok hi
      /\ Initialize Toy.patternsKK "KK" false (bytes "prologue")
           (Some (Toy.keyOf 2)) None (Some (Toy.remoteOf (Toy.keyOf 1))) None = Ok hr
      /\ h_strobeState hi = h_strobeState hr
      /\ h_strobeState hi
         = AD false (publicKey (Toy.keyOf 2))
             (AD false (publicKey (Toy.keyOf 1))
                (AD false (bytes "prologue") (SetMacLen 16 (InitStrobe "DISCOv0.1.0_KK")))).
Proof.
  assert (Toy.patternsKK !! "KK" = Some Toy.patternKK) as H1 by (vm_compute; reflexivity).
  assert (publicKey (Toy.remoteOf (Toy.keyOf 2)) = publicKey (Toy.keyOf 2)) as H2
    by reflexivity.
  assert (publicKey (Toy.remoteOf (Toy.keyOf 1)) = publicKey (Toy.keyOf 1)) as H3
    by reflexivity.
  assert (strings.Contains (initiatorPreMessagePattern Toy.patternKK) "s" = true) as H4
    by reflexivity.
  assert (strings.Contains (responderPreMessagePattern Toy.patternKK) "s" = true) as H5
    by reflexivity.
  destruct (premessage_keys_initiator_first (P := Toy.prims) Toy.patternsKK "KK" Toy.patternKK (bytes "prologue")
              (Toy.keyOf 1) (Toy.remoteOf (Toy.keyOf 2))
              (Toy.keyOf 2) (Toy.remoteOf (Toy.keyOf 1))
              None None None None H1 H2 H3) as (hi & hr & Hi & Hr & Hsame & Horder).
  split; [exact H1|]. split; [exact H2|]. split; [exact H3|].
  split; [exact H4|]. split; [exact H5|].
  exists hi, hr. split; [exact Hi|]. split; [exact Hr|]. split; [exact Hsame|].
  exact (Horder H4 H5).
Defined.

Lemma nil_premessage_key_crashes_witness :
  Toy.patternsKK !! "KK" = Some Toy.patternKK
  /\ strings.Contains (initiatorPreMessagePattern Toy.patternKK) "s" = true
  /\ strings.Contains (responderPreMessagePattern Toy.patternKK) "s" = true
  /\ Initialize Toy.patternsKK "KK" true [] None None (Some (Toy.keyOf 2)) None
     = Panic NilDereference
  /\ Initialize Toy.patternsKK "KK" true [] (Some (Toy.keyOf 1)) None None None
     = Panic NilDereference
  /\ Initialize Toy.patternsKK "KK" false [] (Some (Toy.keyOf 2)) None None None
     = Panic NilDereference
  /\ Initialize Toy.patternsKK "KK" false [] None None (Some (Toy.keyOf 1)) None
     = Panic NilDereference.
Proof.
  assert (Toy.patternsKK !! "KK" = Some Toy.patternKK) as H1 by (vm_compute; reflexivity).
  assert (strings.Contains (initiatorPreMessagePattern Toy.patternKK) "s" = true) as H2
    by reflexivity.
  assert (strings.Contains (responderPreMessagePattern Toy.patternKK) "s" = true) as H3
    by reflexivity.
  split; [exact H1|]. split; [exact H2|]. split; [exact H3|].
  split; [exact (proj1 (nil_premessage_key_crashes (P := Toy.prims) Toy.patternsKK "KK" Toy.patternKK true []
                          None None (Some (Toy.keyOf 2)) None H1) H2 eq_refl)|].
  split; [exact (proj2 (nil_premessage_key_crashes (P := Toy.prims) Toy.patternsKK "KK" Toy.patternKK true []
                          (Some (Toy.keyOf 1)) None None None H1) H3 eq_refl)|].
  split; [exact (proj1 (nil_premessage_key_crashes (P := Toy.prims) Toy.patternsKK "KK" Toy.patternKK false []
                          (Some (Toy.keyOf 2)) None None None H1) H2 eq_refl)|].
  exact (proj2 (nil_premessage_key_crashes (P := Toy.prims) Toy.patternsKK "KK" Toy.patternKK false []
                  None None (Some (Toy.keyOf 1)) None H1) H3 eq_refl).
Defined.

(** The shipped table has "XX" only, and its pre-messages are empty. *)
Example unknown_pattern_panics :
  Initialize patterns "ZZ" true [] None None None None
  = Panic (PanicMsg "the supplied handshakePattern does not exist").
Proof. by vm_compute. Qed.

(** * Further properties of the three calls *)

Section Frames.

Context {P : Primitives}.

Implicit Types (h : handshakeState) (w : writer) (r : reader).
Implicit Types (payload : list byte) (message : slice) (p : panic).

Ltac unM :=
  unfold mbind, M_bind, bind, mret, M_ret, ret, throw, get, modify,
    sliceOrPanic, stepTokens in *;
  simpl in *.

(** ** Initialize *)

(** X1. [Initialize] returns exactly when the pattern is registered and
    each pointer that a pre-message pattern with "s" dereferences is not
    nil; the pointers [e] and [re] may always be nil.  With the table as
    shipped it returns exactly for the name "XX". *)
Theorem Initialize_returns_iff
    (pats : gmap string handshakePattern) name (initiator : bool) prologue
    (s e rs re : option (keyPair dhLen)) :
  (isOk (Initialize pats name initiator prologue s e rs re) = true <->
   exists pat, pats !! name = Some pat
     /\ (strings.Contains (initiatorPreMessagePattern pat) "s" = true ->
         is_Some (if initiator then s else rs))
     /\ (strings.Contains (responderPreMessagePattern pat) "s" = true ->
         is_Some (if initiator then rs else s)))
  /\ (isOk (Initialize patterns name initiator prologue s e rs re) = true <-> name = "XX").
Proof.
  split.
  - unfold Initialize. destruct (pats !! name) as [pat|]; simpl.
    + destruct (strings.Contains (initiatorPreMessagePattern pat) "s") eqn:HcI,
               (strings.Contains (responderPreMessagePattern pat) "s") eqn:HcR,
               initiator, s, rs; simpl;
        (split;
         [ intros Hok; first [done | exists pat; rewrite HcI, HcR;
                              split; [done|split]; intros Hc; first [done | by eexists]]
         | intros (pat' & [= <-] & H1 & H2); rewrite ?HcI in H1; rewrite ?HcR in H2;
           first [done | by destruct (H1 eq_refl) | by destruct (H2 eq_refl)] ]).
    + split; [done|]. by intros (pat & ? & _).
  - unfold Initialize, patterns.
    destruct (decide (name = "XX")) as [->|Hne].
    + by rewrite lookup_singleton_eq.
    + rewrite lookup_singleton_ne by done. simpl. split; [done|]. by intros ->.
Qed.

(** X2. The state [Initialize] returns holds the key pairs it was given
    (the zero key pair where the pointer was nil), the role and the steps
    of the pattern.  When no pre-message pattern contains "s", as for
    "XX", its transcript is a function of the name and the prologue only:
    it absorbed neither role nor key. *)
Theorem Initialize_state
    (pats : gmap string handshakePattern) name (initiator : bool) prologue
    (s e rs re : option (keyPair dhLen)) h :
  Initialize pats name initiator prologue s e rs re = Ok h ->
  exists pat, pats !! name = Some pat
    /\ h_s h = default (emptyKeyPair dhLen) s
    /\ h_e h = default (emptyKeyPair dhLen) e
    /\ h_rs h = default (emptyKeyPair dhLen) rs
    /\ h_re h = default (emptyKeyPair dhLen) re
    /\ h_initiator h = initiator
    /\ h_messagePattern h = messagePattern pat
    /\ (strings.Contains (initiatorPreMessagePattern pat) "s" = false ->
        strings.Contains (responderPreMessagePattern pat) "s" = false ->
        h_strobeState h
        = AD false prologue (SetMacLen 16 (InitStrobe ("DISCOv0.1.0_" +:+ name)))).
Proof.
  unfold Initialize. destruct (pats !! name) as [pat|]; [|done]. simpl.
  intros Hinit. exists pat. split; [done|]. revert Hinit.
  destruct (strings.Contains (initiatorPreMessagePattern pat) "s"),
           (strings.Contains (responderPreMessagePattern pat) "s"),
           initiator, s, rs; simpl; try done; by intros [= <-].
Qed.

(** ** What the calls leave alone *)

Lemma writeFrame_trans h1 h2 h3 : writeFrame h1 h2 -> writeFrame h2 h3 -> writeFrame h1 h3.
Proof. unfold writeFrame. intuition congruence. Qed.

Lemma readFrame_trans h1 h2 h3 : readFrame h1 h2 -> readFrame h2 h3 -> readFrame h1 h3.
Proof. unfold readFrame. intuition congruence. Qed.

Lemma sendAEAD_frame plaintext w : writeFrame (wr_h w) (wr_h (sendAEAD plaintext w)).
Proof. unfold sendAEAD. by destruct (Send_AEAD plaintext [] _). Qed.

Lemma writeToken_frame pattern w : writeFrame (wr_h w) (wr_h (writeToken pattern w).2).
Proof.
  pose proof (sendAEAD_frame (publicKey (h_s (wr_h w))) w).
  unfold writeToken.
  repeat match goal with
         | |- context [String.eqb pattern ?t] => destruct (String.eqb pattern t); simpl
         | |- context [let '(_, _) := ?x in _] => destruct x; simpl
         | |- context [if h_initiator ?h then _ else _] => destruct (h_initiator h); simpl
         end; done.
Qed.

Lemma readToken_frame message pattern offset r :
  readFrame (rd_h r) (rd_h (readToken message pattern offset r).2).
Proof.
  unfold readToken. unM.
  repeat match goal with
         | |- context [String.eqb pattern ?t] => destruct (String.eqb pattern t); simpl
         | |- context [match slice_lo_hi ?m ?a ?b with _ => _ end] =>
             destruct (slice_lo_hi m a b); simpl
         | |- context [let '(_, _) := ?x in _] => destruct x; simpl
         | |- context [if h_initiator ?h then _ else _] => destruct (h_initiator h); simpl
         | |- context [if negb ?b then _ else _] => destruct b; simpl
         end; done.
Qed.

Lemma WriteMessage_writeFrame payload w :
  writeFrame (wr_h w) (wr_h (WriteMessage payload w).2).
Proof.
  rewrite WriteMessage_eq.
  destruct (h_messagePattern (wr_h w)) as [|[|a [|b body]] rest]; try done.
  pose proof (forEach_rel (fun x y => writeFrame (wr_h x) (wr_h y)) writeToken
                (fun _ => ltac:(done))
                (fun x y z => writeFrame_trans (wr_h x) (wr_h y) (wr_h z))
                (fun x st => writeToken_frame x st) (tokensOf body) w) as Hloop.
  destruct (forEach _ writeToken w) as [[[]|p] w1]; simpl in *; [|done].
  eapply writeFrame_trans; [exact Hloop|].
  pose proof (sendAEAD_frame payload w1) as Hseal.
  by destruct (sendAEAD payload w1) as [[] ? ?], rest.
Qed.

Lemma ReadMessage_readFrame message r :
  readFrame (rd_h r) (rd_h (ReadMessage message r).2).
Proof.
  rewrite ReadMessage_eq.
  destruct (h_messagePattern (rd_h r)) as [|[|a [|b body]] rest]; try done.
  pose proof (readTokens_rel (fun x y => readFrame (rd_h x) (rd_h y)) message
                (fun _ => ltac:(done))
                (fun x y z => readFrame_trans (rd_h x) (rd_h y) (rd_h z))
                (fun x o st => readToken_frame message x o st)
                (strings.Split body ",") 0 r) as Hloop.
  destruct (readTokens message _ 0 r) as [[offset|p] r1]; simpl in *; [|done].
  destruct (slice_from message offset) as [ct|]; [|done].
  destruct (Recv_AEAD ct [] _) as [[plaintext ok] st].
  destruct r1 as [[] ?]. by destruct ok, rest.
Qed.

(** X3. Whether it returns or panics, [WriteMessage] leaves the role, the
    static key pair and both remote key pairs as they were, and
    [ReadMessage] leaves the role, both local key pairs and the private
    halves of the remote key pairs as they were. *)
Theorem calls_leave_role_and_keys payload message w r :
  writeFrame (wr_h w) (wr_h (WriteMessage payload w).2)
  /\ readFrame (rd_h r) (rd_h (ReadMessage message r).2).
Proof. split; [apply WriteMessage_writeFrame|apply ReadMessage_readFrame]. Qed.

(** ** The caller's buffers *)

Lemma sendAEAD_appends plaintext w :
  exists out, messageBuffer (sendAEAD plaintext w) = messageBuffer w ++ out.
Proof. unfold sendAEAD. destruct (Send_AEAD plaintext [] _). simpl. eauto. Qed.

Lemma writeToken_appends pattern w :
  exists out, messageBuffer (writeToken pattern w).2 = messageBuffer w ++ out.
Proof.
  destruct (sendAEAD_appends (publicKey (h_s (wr_h w))) w) as [out Hout].
  unfold writeToken.
  repeat match goal with
         | |- context [String.eqb pattern ?t] => destruct (String.eqb pattern t); simpl
         | |- context [let '(_, _) := ?x in _] => destruct x; simpl
         | |- context [if h_initiator ?h then _ else _] => destruct (h_initiator h); simpl
         end; eauto; exists []; by rewrite app_nil_r.
Qed.

Lemma readToken_payloadBuffer message pattern offset r :
  payloadBuffer (readToken message pattern offset r).2 = payloadBuffer r.
Proof.
  unfold readToken. unM.
  repeat match goal with
         | |- context [String.eqb pattern ?t] => destruct (String.eqb pattern t); simpl
         | |- context [match slice_lo_hi ?m ?a ?b with _ => _ end] =>
             destruct (slice_lo_hi m a b); simpl
         | |- context [let '(_, _) := ?x in _] => destruct x; simpl
         | |- context [if h_initiator ?h then _ else _] => destruct (h_initiator h); simpl
         | |- context [if negb ?b then _ else _] => destruct b; simpl
         end; done.
Qed.

(** X4. The calls only ever append to the caller's buffers.  Whether it
    returns or panics, [WriteMessage] leaves the message buffer it was
    given as a prefix of the new one.  [ReadMessage] leaves the payload
    buffer untouched when it panics and appends the plaintext of the
    payload when it returns. *)
Theorem buffers_are_only_appended_to payload message w r :
  (exists out, messageBuffer (WriteMessage payload w).2 = messageBuffer w ++ out)
  /\ (forall p r', ReadMessage message r = (Panic p, r') ->
      payloadBuffer r' = payloadBuffer r)
  /\ (forall c r', ReadMessage message r = (Ok c, r') ->
      exists plaintext, payloadBuffer r' = payloadBuffer r ++ plaintext).
Proof.
  rewrite WriteMessage_eq, ReadMessage_eq. split; [|split].
  - destruct (h_messagePattern (wr_h w)) as [|[|a [|b body]] rest];
      try (exists []; by rewrite app_nil_r).
    pose proof (forEach_rel
                  (fun x y => exists out, messageBuffer y = messageBuffer x ++ out) writeToken
                  (fun x => ex_intro _ [] (eq_sym (app_nil_r _)))) as Hloop.
    destruct (Hloop) with (l := tokensOf body) (st := w) as [out1 Hout1].
    { intros x y z [o1 H1] [o2 H2]. exists (o1 ++ o2). by rewrite H2, H1, app_assoc. }
    { intros; apply writeToken_appends. }
    destruct (forEach _ writeToken w) as [[[]|p] w1]; simpl in *; [|by eauto].
    destruct (sendAEAD_appends payload w1) as [out2 Hout2].
    exists (out1 ++ out2). by rewrite Hout2, Hout1, app_assoc.
  - intros p r'.
    destruct (h_messagePattern (rd_h r)) as [|[|a [|b body]] rest];
      try (by intros [= _ <-]).
    pose proof (readTokens_rel (fun x y => payloadBuffer y = payloadBuffer x) message
                  (fun _ => eq_refl) (fun x y z H1 H2 => eq_trans H2 H1)
                  (fun x o st => readToken_payloadBuffer message x o st)
                  (strings.Split body ",") 0 r) as Hloop.
    destruct (readTokens message _ 0 r) as [[offset|q] r1]; simpl in *;
      [|by intros [= _ <-]].
    destruct (slice_from message offset) as [ct|]; [|by intros [= _ <-]].
    destruct (Recv_AEAD ct [] _) as [[plaintext ok] st].
    destruct ok; [done|]. by intros [= _ <-].
  - intros c r'.
    destruct (h_messagePattern (rd_h r)) as [|[|a [|b body]] rest]; try done.
    pose proof (readTokens_rel (fun x y => payloadBuffer y = payloadBuffer x) message
                  (fun _ => eq_refl) (fun x y z H1 H2 => eq_trans H2 H1)
                  (fun x o st => readToken_payloadBuffer message x o st)
                  (strings.Split body ",") 0 r) as Hloop.
    destruct (readTokens message _ 0 r) as [[offset|q] r1]; simpl in *; [|done].
    destruct (slice_from message offset) as [ct|]; [|done].
    destruct (Recv_AEAD ct [] _) as [[plaintext ok] st].
    destruct ok; [|done]. intros [= _ <-]. simpl.
    exists plaintext. by rewrite Hloop.
Qed.

(** ** Randomness *)

Lemma writeToken_entropy pattern w :
  pattern <> "e" ->
  entropy (writeToken pattern w).2 = entropy w
  /\ h_e (wr_h (writeToken pattern w).2) = h_e (wr_h w).
Proof.
  intros Hne. unfold writeToken, sendAEAD.
  destruct (String.eqb_spec pattern "e"); [done|].
  repeat match goal with
         | |- context [String.eqb pattern ?t] => destruct (String.eqb pattern t); simpl
         | |- context [let '(_, _) := ?x in _] => destruct x; simpl
         | |- context [if h_initiator ?h then _ else _] => destruct (h_initiator h); simpl
         end; done.
Qed.

Lemma writeTokens_entropy tokens w :
  "e" ∉ tokens ->
  entropy (forEach tokens writeToken w).2 = entropy w
  /\ h_e (wr_h (forEach tokens writeToken w).2) = h_e (wr_h w).
Proof.
  revert w. induction tokens as [|pattern tokens IH]; intros w Hno; simpl; [done|].
  apply not_elem_of_cons in Hno as [Hne Hno].
  unfold bind. destruct (writeToken_entropy pattern w) as [H1 H2]; [done|].
  destruct (writeToken pattern w) as [[[]|p] w1]; simpl in *; [|done].
  destruct (IH w1 Hno) as [H3 H4]. split; congruence.
Qed.

(** X5. A step without the token [e] draws no randomness and leaves the
    local ephemeral key pair as it was, whether the call returns or
    panics. *)
Theorem no_e_token_no_randomness payload w a b body rest :
  h_messagePattern (wr_h w) = String a (String b body) :: rest ->
  "e" ∉ tokensOf body ->
  entropy (WriteMessage payload w).2 = entropy w
  /\ h_e (wr_h (WriteMessage payload w).2) = h_e (wr_h w).
Proof.
  intros Hmp Hno. rewrite WriteMessage_eq, Hmp.
  destruct (writeTokens_entropy _ w Hno) as [H1 H2].
  destruct (forEach _ writeToken w) as [[[]|p] w1]; simpl in *; [|done].
  unfold sendAEAD. by destruct (Send_AEAD payload [] _), rest.
Qed.

(** ** When the session states are returned *)

(** X6. A call that returns gives the two session states exactly when it
    has consumed the last step, that is when it was called with one step
    left and leaves none. *)
Theorem session_states_iff_last_step payload message w r :
  (forall c w', WriteMessage payload w = (Ok c, w') ->
     (is_Some c <-> h_messagePattern (wr_h w') = [])
     /\ (is_Some c <-> length (h_messagePattern (wr_h w)) = 1))
  /\ (forall c r', ReadMessage message r = (Ok c, r') ->
     (is_Some c <-> h_messagePattern (rd_h r') = [])
     /\ (is_Some c <-> length (h_messagePattern (rd_h r)) = 1)).
Proof.
  rewrite WriteMessage_eq, ReadMessage_eq. split.
  - intros c w'.
    destruct (h_messagePattern (wr_h w)) as [|[|a [|b body]] rest]; try done.
    destruct (forEach _ writeToken w) as [[[]|p] w1]; [|done].
    intros [= <- <-]. simpl.
    destruct rest; simpl; repeat split;
      try (intros [? ?]; done); try done; by eauto.
  - intros c r'.
    destruct (h_messagePattern (rd_h r)) as [|[|a [|b body]] rest]; try done.
    destruct (readTokens message _ 0 r) as [[offset|p] r1]; [|done].
    destruct (slice_from message offset) as [ct|]; [|done].
    destruct (Recv_AEAD ct [] _) as [[plaintext ok] st].
    destruct ok; [|done].
    intros [= <- <-]. simpl.
    destruct rest; simpl; repeat split;
      try (intros [? ?]; done); try done; by eauto.
Qed.

(** ** Steps that are not of the form marker, tokens *)

(** X7. A step of fewer than two bytes makes both calls panic with the
    slice-bounds error, and a step of exactly two bytes (a marker and no
    token) makes them panic with "pattern not allowed"; in both cases
    nothing has been changed. *)
Theorem malformed_step_panics payload message w r step rest :
  (h_messagePattern (wr_h w) = step :: rest -> String.length step < 2 ->
   WriteMessage payload w = (Panic SliceBoundsOutOfRange, w))
  /\ (h_messagePattern (rd_h r) = step :: rest -> String.length step < 2 ->
   ReadMessage message r = (Panic SliceBoundsOutOfRange, r))
  /\ (h_messagePattern (wr_h w) = step :: rest -> String.length step = 2 ->
   WriteMessage payload w = (Panic (PanicMsg "pattern not allowed"), w))
  /\ (h_messagePattern (rd_h r) = step :: rest -> String.length step = 2 ->
   ReadMessage message r = (Panic (PanicMsg "pattern not allowed"), r)).
Proof.
  rewrite WriteMessage_eq, ReadMessage_eq.
  repeat split; intros -> Hlen; destruct step as [|a [|b [|c body]]]; simpl in *;
    try done; try lia.
Qed.

(** ** Long enough messages *)

Lemma slice_lo_hi_visible message lo hi :
  hi <= len message ->
  slice_lo_hi message lo hi = slice_lo_hi (full (visible message)) lo hi.
Proof.
  intros Hhi. unfold slice_lo_hi, cap, len, full in *. simpl.
  destruct (Nat.leb_spec lo hi) as [Hlo|]; simpl; [|done].
  destruct (Nat.leb_spec hi (length (visible message) + length (spare message))); [|lia].
  destruct (Nat.leb_spec hi (length (visible message) + 0)); [|lia].
  rewrite app_nil_r, drop_app_le by lia.
  by rewrite take_app_le by (rewrite length_drop; lia).
Qed.

Lemma readToken_visible message pattern offset r :
  offset + tokenLen pattern <= len message ->
  readToken message pattern offset r = readToken (full (visible message)) pattern offset r.
Proof.
  unfold readToken, tokenLen.
  destruct (String.eqb pattern "e").
  { intros Hlen. by rewrite slice_lo_hi_visible. }
  destruct (String.eqb pattern "s"); [|done].
  intros Hlen. by rewrite slice_lo_hi_visible by lia.
Qed.

Lemma readTokens_visible message tokens offset r :
  offset + sum_list (tokenLen <$> ((fun pattern => strings.Trim pattern " ") <$> tokens))
    <= len message ->
  readTokens message tokens offset r = readTokens (full (visible message)) tokens offset r.
Proof.
  revert offset r. induction tokens as [|pattern tokens IH]; intros offset r; [done|].
  rewrite !fmap_cons. simpl. intros Hlen.
  unfold mbind, M_bind, bind.
  rewrite <- readToken_visible by lia.
  destruct (readToken message _ offset r) as [[o|p] r1] eqn:Hone; [|done].
  apply readToken_offset in Hone as ->. apply IH. lia.
Qed.

(** X8. When the message is at least as long as the tokens of the step
    need, the spare capacity of its buffer plays no part: [ReadMessage]
    ends the same way as on a buffer that holds the same bytes and has no
    spare capacity. *)
Theorem spare_capacity_is_never_read_when_long_enough message r a b body rest :
  h_messagePattern (rd_h r) = String a (String b body) :: rest ->
  sum_list (tokenLen <$> tokensOf body) <= len message ->
  ReadMessage message r = ReadMessage (full (visible message)) r.
Proof.
  intros Hmp Hlen. rewrite !ReadMessage_eq, Hmp.
  by rewrite <- readTokens_visible.
Qed.

(** ** Sequences of calls *)

Lemma WriteMessage_steps payload w c w' :
  WriteMessage payload w = (Ok c, w') ->
  exists step, h_messagePattern (wr_h w) = step :: h_messagePattern (wr_h w').
Proof.
  rewrite WriteMessage_eq.
  destruct (h_messagePattern (wr_h w)) as [|[|a [|b body]] rest]; try done.
  destruct (forEach _ writeToken w) as [[[]|p] w1]; [|done].
  intros [= _ <-]. simpl. rewrite dropped_messagePattern. by eexists.
Qed.

Lemma ReadMessage_steps message r c r' :
  ReadMessage message r = (Ok c, r') ->
  exists step, h_messagePattern (rd_h r) = step :: h_messagePattern (rd_h r').
Proof.
  rewrite ReadMessage_eq.
  destruct (h_messagePattern (rd_h r)) as [|[|a [|b body]] rest]; try done.
  destruct (readTokens message _ 0 r) as [[offset|p] r1]; [|done].
  destruct (slice_from message offset) as [ct|]; [|done].
  destruct (Recv_AEAD ct [] _) as [[plaintext ok] st].
  destruct ok; [|done].
  intros [= _ <-]. simpl. rewrite dropped_messagePattern. by eexists.
Qed.

Lemma ReadMessage_tag16 message r :
  tag16 (h_strobeState (rd_h r)) ->
  h_messagePattern (rd_h (ReadMessage message r).2) <> [] ->
  tag16 (h_strobeState (rd_h (ReadMessage message r).2)).
Proof.
  intros Htag. rewrite ReadMessage_eq.
  destruct (h_messagePattern (rd_h r)) as [|[|a [|b body]] rest]; try done.
  assert (tag16 (h_strobeState (rd_h (readTokens message (strings.Split body ",") 0 r).2)))
    as Htag1.
  { revert Htag.
    apply (readTokens_rel (fun x y => tag16 (h_strobeState (rd_h x)) ->
                                      tag16 (h_strobeState (rd_h y)))); [done|auto|].
    intros; by apply readToken_tag16. }
  destruct (readTokens message _ 0 r) as [[offset|p] r1]; simpl in *; [|done].
  destruct (slice_from message offset) as [ct|]; [|done].
  pose proof (tag16_Recv_AEAD ct [] _ Htag1) as Htag2.
  destruct (Recv_AEAD ct [] _) as [[plaintext ok] st].
  destruct ok; [|done]. by destruct rest.
Qed.

Lemma WriteMessage_tag16 payload w :
  tag16 (h_strobeState (wr_h w)) ->
  h_messagePattern (wr_h (WriteMessage payload w).2) <> [] ->
  tag16 (h_strobeState (wr_h (WriteMessage payload w).2)).
Proof.
  exact (proj1 (calls_keep_tag16 payload (full []) w
                  {| rd_h := wr_h w; payloadBuffer := [] |})).
Qed.

Lemma callStep_inv h h' :
  callStep h h' ->
  (exists step, h_messagePattern h = step :: h_messagePattern h')
  /\ h_initiator h' = h_initiator h
  /\ h_s h' = h_s h
  /\ (tag16 (h_strobeState h) -> h_messagePattern h' <> [] -> tag16 (h_strobeState h')).
Proof.
  intros [payload buf rng c w' Hcall <-|message pbuf c r' Hcall <-].
  - pose proof (WriteMessage_steps _ _ _ _ Hcall) as Hsteps.
    pose proof (WriteMessage_writeFrame payload
                  {| wr_h := h; messageBuffer := buf; entropy := rng |}) as (Hi & Hs & _).
    pose proof (WriteMessage_tag16 payload
                  {| wr_h := h; messageBuffer := buf; entropy := rng |}) as Htag.
    rewrite Hcall in Hi, Hs, Htag. done.
  - pose proof (ReadMessage_steps _ _ _ _ Hcall) as Hsteps.
    pose proof (ReadMessage_readFrame message {| rd_h := h; payloadBuffer := pbuf |})
      as (Hi & Hs & _).
    pose proof (ReadMessage_tag16 message {| rd_h := h; payloadBuffer := pbuf |}) as Htag.
    rewrite Hcall in Hi, Hs, Htag. done.
Qed.

Lemma callSteps_inv n h h' :
  callSteps n h h' ->
  h_messagePattern h' = drop n (h_messagePattern h)
  /\ n <= length (h_messagePattern h)
  /\ h_initiator h' = h_initiator h
  /\ h_s h' = h_s h
  /\ (tag16 (h_strobeState h) -> h_messagePattern h' <> [] -> tag16 (h_strobeState h')).
Proof.
  induction 1 as [h|n h h1 h2 Hstep _ IH]; simpl.
  { repeat split; first [done | lia]. }
  destruct (callStep_inv _ _ Hstep) as ([step Hmp] & Hi & Hs & Htag).
  destruct IH as (IHmp & IHn & IHi & IHs & IHtag).
  rewrite Hmp. simpl. repeat split; [done|lia|congruence|congruence|].
  intros Ht Hleft. apply IHtag; [|done]. apply Htag; [done|].
  intros Hnil. rewrite Hnil, drop_nil in IHmp. done.
Qed.

(** X9. Across any [n] calls in a row that return, in any mix of
    [WriteMessage] and [ReadMessage] and with any arguments, exactly the
    first [n] steps are consumed, so [n] is at most the number of steps
    there were; the role and the local static key pair are still the ones
    the sequence started with. *)
Theorem n_calls_consume_n_steps n h h' :
  callSteps n h h' ->
  h_messagePattern h' = drop n (h_messagePattern h)
  /\ n <= length (h_messagePattern h)
  /\ h_initiator h' = h_initiator h
  /\ h_s h' = h_s h.
Proof. intros Hrun. destruct (callSteps_inv _ _ _ Hrun) as (? & ? & ? & ? & _). done. Qed.

(** ** How a step is parsed *)

Lemma Split_no_sep t : hasByte "," t = false -> strings.Split t "," = [t].
Proof.
  induction t as [|c t IH]; simpl; [done|].
  intros Hno. apply orb_false_elim in Hno as [Hc Ht].
  rewrite Hc, (IH Ht). done.
Qed.

Lemma Split_app t s' :
  hasByte "," t = false ->
  strings.Split (t +:+ String "," s') "," = t :: strings.Split s' ",".
Proof.
  induction t as [|c t IH]; simpl; [done|].
  intros Hno. apply orb_false_elim in Hno as [Hc Ht].
  rewrite Hc, (IH Ht). done.
Qed.

Lemma Split_not_nil s' : strings.Split s' "," <> [].
Proof.
  induction s' as [|c s' IH]; simpl; [done|].
  destruct (Ascii.eqb c ","); [done|]. by destruct (strings.Split s' ",").
Qed.

Lemma tokensOf_space s' : tokensOf (String " " s') = tokensOf s'.
Proof.
  unfold tokensOf. simpl. pose proof (Split_not_nil s').
  by destruct (strings.Split s' ",").
Qed.

(** X10. A step is parsed back into the tokens it was written from: when
    no token contains a comma or starts or ends with a space, the tokens
    joined by ", " (the way the table writes its steps) are split and
    trimmed into the same list.  The space after the comma is optional. *)
Theorem tokens_joined_by_comma_space_parse_back (tokens : list string) :
  tokens <> [] ->
  Forall (fun t => hasByte "," t = false /\ strings.Trim t " " = t) tokens ->
  tokensOf (String.concat ", " tokens) = tokens
  /\ tokensOf (String.concat "," tokens) = tokens.
Proof.
  intros Hne Hclean.
  induction Hclean as [|t ts [Hcomma Htrim] Hts IH]; [done|].
  destruct ts as [|t2 ts].
  { simpl. unfold tokensOf. rewrite (Split_no_sep _ Hcomma). simpl. by rewrite Htrim. }
  destruct IH as [IH1 IH2]; [done|].
  change (String.concat ", " (t :: t2 :: ts))
    with (t +:+ String "," (String " " (String.concat ", " (t2 :: ts)))).
  change (String.concat "," (t :: t2 :: ts))
    with (t +:+ String "," (String.concat "," (t2 :: ts))).
  split.
  - unfold tokensOf at 1. rewrite (Split_app _ _ Hcomma), fmap_cons, Htrim.
    fold (tokensOf (String " " (String.concat ", " (t2 :: ts)))).
    by rewrite tokensOf_space, IH1.
  - unfold tokensOf at 1. rewrite (Split_app _ _ Hcomma), fmap_cons, Htrim.
    fold (tokensOf (String.concat "," (t2 :: ts))).
    by rewrite IH2.
Qed.

(** ** The ephemeral key travels in clear *)

Lemma copy_prefix {n} (dst v : vec byte n) (l : list byte) :
  copy dst (vec_to_list v ++ l) = v.
Proof.
  revert v. induction dst as [|d n dst IH]; intros v.
  - by inv_vec v.
  - inv_vec v; intros x v. simpl. by rewrite IH.
Qed.

Lemma copy_all {n} (dst v : vec byte n) : copy dst (vec_to_list v) = v.
Proof. rewrite <- (app_nil_r (vec_to_list v)). apply copy_prefix. Qed.

Lemma readToken_re message pattern offset r :
  pattern <> "e" ->
  h_re (rd_h (readToken message pattern offset r).2) = h_re (rd_h r).
Proof.
  intros Hne. unfold readToken. unM.
  destruct (String.eqb_spec pattern "e"); [done|].
  repeat match goal with
         | |- context [String.eqb pattern ?t] => destruct (String.eqb pattern t); simpl
         | |- context [match slice_lo_hi ?m ?a ?b with _ => _ end] =>
             destruct (slice_lo_hi m a b); simpl
         | |- context [let '(_, _) := ?x in _] => destruct x; simpl
         | |- context [if h_initiator ?h then _ else _] => destruct (h_initiator h); simpl
         | |- context [if negb ?b then _ else _] => destruct b; simpl
         end; done.
Qed.

Lemma readTokens_re message tokens offset r :
  "e" ∉ ((fun pattern => strings.Trim pattern " ") <$> tokens) ->
  h_re (rd_h (readTokens message tokens offset r).2) = h_re (rd_h r).
Proof.
  revert offset r. induction tokens as [|pattern tokens IH]; intros offset r; [done|].
  rewrite fmap_cons. intros Hno. apply not_elem_of_cons in Hno as [Hne Hno]. simpl.
  unfold mbind, M_bind, bind.
  pose proof (readToken_re message (strings.Trim pattern " ") offset r
                (fun H => Hne (eq_sym H))) as Hone.
  destruct (readToken message _ offset r) as [[o|p] r1]; simpl in *; [|done].
  by rewrite IH.
Qed.

Lemma writeTokens_appends tokens w :
  exists out, messageBuffer (forEach tokens writeToken w).2 = messageBuffer w ++ out.
Proof.
  apply (forEach_rel (fun x y => exists out, messageBuffer y = messageBuffer x ++ out)).
  - intros x. exists []. by rewrite app_nil_r.
  - intros x y z [o1 H1] [o2 H2]. exists (o1 ++ o2). by rewrite H2, H1, app_assoc.
  - intros; apply writeToken_appends.
Qed.

(** X11. When the first token of a step is [e] and no other one is, the
    message that [WriteMessage] leaves (whether it returns or panics at a
    later token) starts with the public key of the new local ephemeral
    key pair, and [ReadMessage] on that message, for the same tokens,
    leaves that public key in the remote ephemeral slot, whether it
    returns or panics later. *)
Theorem ephemeral_key_reaches_the_reader
    payload w r a b a' b' body rest rest' ts spare :
  h_messagePattern (wr_h w) = String a (String b body) :: rest ->
  h_messagePattern (rd_h r) = String a' (String b' body) :: rest' ->
  tokensOf body = "e" :: ts ->
  "e" ∉ ts ->
  messageBuffer w = [] ->
  let w' := (WriteMessage payload w).2 in
  let message := {| visible := messageBuffer w'; spare := spare |} in
  take dhLen (messageBuffer w') = publicKey (h_e (wr_h w'))
  /\ publicKey (h_re (rd_h (ReadMessage message r).2)) = publicKey (h_e (wr_h w')).
Proof.
  intros Hw Hr Htokens Hno Hbuf w' message.
  assert (exists out, messageBuffer w' = vec_to_list (publicKey (h_e (wr_h w'))) ++ out)
    as [out Hout].
  { subst w'. destruct (WriteMessage payload w) as [c wf] eqn:HW. simpl.
    rewrite WriteMessage_eq, Hw, Htokens in HW. simpl in HW. unfold bind in HW.
    unfold writeToken at 1 in HW. simpl in HW.
    destruct (GenerateKeypair (entropy w)) as [k rng]. simpl in HW.
    rewrite Hbuf in HW. simpl in HW.
    match type of HW with context [forEach ts writeToken ?w1] => set (w1' := w1) in * end.
    destruct (writeTokens_entropy ts w1' Hno) as [_ He].
    destruct (writeTokens_appends ts w1') as [out1 Hout1].
    destruct (forEach ts writeToken w1') as [[[]|p] w2]; simpl in *.
    - destruct (sendAEAD_appends payload w2) as [out2 Hout2].
      unfold sendAEAD in *. destruct (Send_AEAD payload [] _) as [ct st]. simpl in *.
      injection HW as _ <-. simpl.
      exists (out1 ++ out2).
      assert (forall h, h_e (afterSplit (set_messagePattern [] h)) = h_e h) as Hsplit by done.
      destruct rest; simpl; rewrite ?Hsplit; simpl; by rewrite He, Hout2, Hout1, app_assoc.
    - injection HW as _ <-. exists out1. by rewrite He, Hout1. }
  split.
  { rewrite Hout. apply take_app_length'. by rewrite length_vec_to_list. }
  subst message. rewrite ReadMessage_eq, Hr.
  unfold tokensOf in Htokens.
  destruct (strings.Split body ",") as [|t0 raws]; [done|].
  rewrite fmap_cons in Htokens. injection Htokens as Ht0 Hraws. subst ts.
  simpl. unfold mbind, M_bind, bind. rewrite Ht0.
  unfold readToken at 1. unM. unfold slice_lo_hi, cap. simpl.
  rewrite Hout, length_app, length_vec_to_list.
  destruct (Nat.leb_spec dhLen (dhLen + length out + length spare)); [|lia]. simpl.
  rewrite Nat.sub_0_r, drop_0, <- app_assoc.
  rewrite take_app_length' by (by rewrite length_vec_to_list).
  rewrite copy_all.
  match goal with |- context [readTokens ?m raws dhLen ?r1] =>
    pose proof (readTokens_re m raws dhLen r1 Hno) as Hre;
    destruct (readTokens m raws dhLen r1) as [[o|p] r2]
  end; simpl in *; [|by rewrite Hre].
  match goal with |- context [slice_from ?m o] => destruct (slice_from m o) as [ct|] end;
    simpl; [|by rewrite Hre].
  destruct (Recv_AEAD ct [] _) as [[plaintext ok] st].
  destruct ok; simpl; [|by rewrite Hre].
  destruct rest'; simpl; by rewrite Hre.
Qed.

End Frames.

Section ReachableStates.

Context {P : Primitives} {L : SealsWithTag P}.

(** X12. For every state reached from a state returned by [Initialize]
    through calls that returned, [WriteMessage] on a step of valid tokens
    returns and appends [dhLen] bytes for each [e], [dhLen + 16] for each
    [s] and [len(payload) + 16] for the payload: the 16-byte tag that
    [Initialize] configures is kept by every call. *)
Theorem message_length_after_Initialize
    (pats : gmap string handshakePattern) name (initiator : bool) prologue
    (s e rs re : option (keyPair dhLen)) h0 n h payload buf rng a b body rest :
  Initialize pats name initiator prologue s e rs re = Ok h0 ->
  callSteps n h0 h ->
  h_messagePattern h = String a (String b body) :: rest ->
  Forall (fun pattern => validToken pattern = true) (tokensOf body) ->
  exists c w' out,
    WriteMessage payload {| wr_h := h; messageBuffer := buf; entropy := rng |} = (Ok c, w')
    /\ messageBuffer w' = buf ++ out
    /\ length out = sum_list (tokenLen <$> tokensOf body) + (length payload + 16).
Proof.
  intros Hinit Hrun Hmp Hvalid.
  assert (tag16 (h_strobeState h)) as Htag.
  { destruct (callSteps_inv _ _ _ Hrun) as (_ & _ & _ & _ & Hkeep).
    apply Hkeep; [by eapply Initialize_tag16|by rewrite Hmp]. }
  set (w := {| wr_h := h; messageBuffer := buf; entropy := rng |}).
  rewrite WriteMessage_eq. simpl. rewrite Hmp.
  destruct (writeTokens_length _ w Htag Hvalid) as (out1 & Hout1 & Hlen1).
  pose proof (writeTokens_tag16 (tokensOf body) w Htag) as Htag1.
  pose proof (writeTokens_result _ w Hvalid) as Hres.
  destruct (forEach _ writeToken w) as [[[]|p] w1]; simpl in *; [|done].
  destruct (sendAEAD_length payload w1 Htag1) as (out2 & Hout2 & Hlen2).
  eexists _, _, (out1 ++ out2). split; [done|].
  simpl. rewrite Hout2, Hout1, length_app, <- app_assoc. split; [done|].
  by rewrite Hlen1, Hlen2.
Qed.

End ReachableStates.

(** * A payload that shares memory with the message buffer *)

Section SharedMemoryFacts.

Context {P : Primitives}.

Variable grow : nat -> nat -> nat.

Implicit Types (sw : sharedWriter) (buf : slice) (payload : list cell).

Ltac unM :=
  unfold mbind, M_bind, bind, mret, M_ret, ret, throw, get, modify,
    sliceOrPanic, stepTokens in *;
  simpl in *.

(** ** What [append] does to the buffer and to the payload *)

Lemma append_visible buf payload x :
  visible (append grow buf payload x).1 = visible buf ++ x.
Proof. unfold append. by destruct (_ <=? _). Qed.

(** A payload that does not lie in the spare capacity is not changed by
    an [append], and does not lie in the spare capacity afterwards. *)
Lemma append_apart buf payload x :
  Forall (apart buf) payload ->
  Forall (apart (append grow buf payload x).1) (append grow buf payload x).2
  /\ readCell (append grow buf payload x).1 <$> (append grow buf payload x).2
     = readCell buf <$> payload.
Proof.
  intros Hapart. unfold append. destruct (_ <=? _); simpl.
  - split.
    + eapply Forall_impl; [exact Hapart|].
      intros [b|i]; simpl; [done|]. unfold len. simpl. rewrite length_app. lia.
    + apply Forall_fmap_ext. eapply Forall_impl; [exact Hapart|].
      intros [b|i]; simpl; [done|]. unfold len. intros Hi.
      by rewrite <- app_assoc, !lookup_app_l by done.
  - split.
    + apply Forall_fmap, Forall_true. done.
    + rewrite <- list_fmap_compose. by apply list_fmap_ext.
Qed.

Lemma appendTo_apart x sw :
  Forall (apart (sw_buffer sw)) (sw_payload sw) ->
  Forall (apart (sw_buffer (appendTo grow x sw))) (sw_payload (appendTo grow x sw))
  /\ payloadOf (appendTo grow x sw) = payloadOf sw.
Proof.
  intros Hapart. destruct (append_apart _ _ x Hapart) as [H1 H2].
  unfold payloadOf, appendTo.
  by destruct (append grow (sw_buffer sw) (sw_payload sw) x).
Qed.

Lemma sendAEADShared_apart plaintext sw :
  Forall (apart (sw_buffer sw)) (sw_payload sw) ->
  Forall (apart (sw_buffer (sendAEADShared grow plaintext sw)))
    (sw_payload (sendAEADShared grow plaintext sw))
  /\ payloadOf (sendAEADShared grow plaintext sw) = payloadOf sw.
Proof.
  intros Hapart. unfold sendAEADShared.
  destruct (Send_AEAD plaintext [] _) as [ct st].
  exact (appendTo_apart ct (sw_set_h (set_strobeState st (sw_h sw)) sw) Hapart).
Qed.

Lemma writeTokenShared_apart pattern sw :
  Forall (apart (sw_buffer sw)) (sw_payload sw) ->
  Forall (apart (sw_buffer (writeTokenShared grow pattern sw).2))
    (sw_payload (writeTokenShared grow pattern sw).2)
  /\ payloadOf (writeTokenShared grow pattern sw).2 = payloadOf sw.
Proof.
  intros Hapart.
  pose proof (sendAEADShared_apart (publicKey (h_s (sw_h sw))) sw Hapart) as Hs.
  unfold writeTokenShared.
  destruct (String.eqb pattern "e").
  { destruct (GenerateKeypair (sw_entropy sw)) as [k rng]. simpl.
    exact (appendTo_apart (publicKey k) sw Hapart). }
  repeat match goal with
         | |- context [String.eqb pattern ?t] => destruct (String.eqb pattern t); simpl
         | |- context [if h_initiator ?h then _ else _] => destruct (h_initiator h); simpl
         end; done.
Qed.

Lemma writeTokensShared_apart tokens sw :
  Forall (apart (sw_buffer sw)) (sw_payload sw) ->
  Forall (apart (sw_buffer (forEach tokens (writeTokenShared grow) sw).2))
    (sw_payload (forEach tokens (writeTokenShared grow) sw).2)
  /\ payloadOf (forEach tokens (writeTokenShared grow) sw).2 = payloadOf sw.
Proof.
  apply (forEach_rel
           (fun a b => Forall (apart (sw_buffer a)) (sw_payload a) ->
                       Forall (apart (sw_buffer b)) (sw_payload b)
                       /\ payloadOf b = payloadOf a)).
  - done.
  - intros a b c Hab Hbc Ha. destruct (Hab Ha) as [Hb Hpb].
    destruct (Hbc Hb) as [Hc Hpc]. split; [done|congruence].
  - intros; by apply writeTokenShared_apart.
Qed.

(** ** The call without its memory *)

Lemma appendTo_erase x sw :
  erase (appendTo grow x sw)
  = {| wr_h := sw_h sw; messageBuffer := visible (sw_buffer sw) ++ x;
       entropy := sw_entropy sw |}.
Proof.
  pose proof (append_visible (sw_buffer sw) (sw_payload sw) x) as Hv.
  unfold erase, appendTo.
  destruct (append grow (sw_buffer sw) (sw_payload sw) x). simpl in *. by rewrite Hv.
Qed.

Lemma sendAEADShared_erase plaintext sw :
  erase (sendAEADShared grow plaintext sw) = sendAEAD plaintext (erase sw).
Proof.
  unfold sendAEADShared, sendAEAD. simpl.
  destruct (Send_AEAD plaintext [] _) as [ct st]. by rewrite appendTo_erase.
Qed.

Lemma writeTokenShared_erase pattern sw :
  (writeTokenShared grow pattern sw).1 = (writeToken pattern (erase sw)).1
  /\ erase (writeTokenShared grow pattern sw).2 = (writeToken pattern (erase sw)).2.
Proof.
  pose proof (sendAEADShared_erase (publicKey (h_s (sw_h sw))) sw) as Hs.
  unfold writeTokenShared, writeToken. simpl.
  destruct (String.eqb pattern "e").
  { destruct (GenerateKeypair (sw_entropy sw)) as [k rng]. simpl. split; [done|].
    pose proof (appendTo_erase (publicKey k) sw) as Hk.
    unfold erase in *. simpl in *. injection Hk as _ Hv _. by rewrite Hv. }
  repeat match goal with
         | |- context [String.eqb pattern ?t] => destruct (String.eqb pattern t); simpl
         | |- context [if h_initiator ?h then _ else _] => destruct (h_initiator h); simpl
         end; done.
Qed.

Lemma writeTokensShared_erase tokens sw :
  (forEach tokens (writeTokenShared grow) sw).1 = (forEach tokens writeToken (erase sw)).1
  /\ erase (forEach tokens (writeTokenShared grow) sw).2
     = (forEach tokens writeToken (erase sw)).2.
Proof.
  revert sw. induction tokens as [|pattern tokens IH]; intros sw; simpl; [done|].
  unfold bind. destruct (writeTokenShared_erase pattern sw) as [H1 H2].
  destruct (writeTokenShared grow pattern sw) as [[[]|p] sw1],
           (writeToken pattern (erase sw)) as [[[]|q] w1]; simpl in *; try done.
  subst w1. apply IH.
Qed.

(** [WriteMessage] with its memory is [WriteMessage] on the bytes the
    payload holds when it is sealed. *)
Lemma WriteMessageShared_erase sw :
  (WriteMessageShared grow sw).1
  = (WriteMessage (payloadWhenSealed grow sw) (erase sw)).1
  /\ erase (WriteMessageShared grow sw).2
     = (WriteMessage (payloadWhenSealed grow sw) (erase sw)).2.
Proof.
  rewrite WriteMessage_eq. unfold WriteMessageShared, payloadWhenSealed, tokensOf. unM.
  destruct (h_messagePattern (sw_h sw)) as [|[|a [|b body]] rest]; try done.
  simpl. rewrite (forEach_fmap (fun x => strings.Trim x " ") (writeTokenShared grow)).
  destruct (writeTokensShared_erase ((fun x => strings.Trim x " ") <$> strings.Split body ",") sw)
    as [H1 H2].
  destruct (forEach _ (writeTokenShared grow) sw) as [[[]|p] sw1],
           (forEach _ writeToken (erase sw)) as [[[]|q] w1]; simpl in *; try done;
    [|by injection H1 as ->].
  subst w1. pose proof (sendAEADShared_erase (payloadOf sw1) sw1) as Hseal.
  destruct rest; simpl; rewrite <- Hseal; done.
Qed.

(** A payload that does not lie in the spare capacity of the buffer is
    sealed as the caller left it. *)
Lemma payloadWhenSealed_apart sw :
  Forall (apart (sw_buffer sw)) (sw_payload sw) ->
  payloadWhenSealed grow sw = payloadOf sw.
Proof.
  intros Hapart. unfold payloadWhenSealed.
  destruct (h_messagePattern (sw_h sw)) as [|[|a [|b body]] rest]; try done.
  by destruct (writeTokensShared_apart (tokensOf body) sw Hapart).
Qed.

End SharedMemoryFacts.

Section SharedMemoryAliased.

Context {P : Primitives}.

Variable grow : nat -> nat -> nat.

Implicit Types (sw : sharedWriter).

(** Cells that are the first [n] bytes after [v] in the array hold the
    first [n] bytes of what follows [v]. *)
Lemma readCell_seq (v x s' : list byte) n :
  n <= length (x ++ s') ->
  readCell {| visible := v ++ x; spare := s' |} <$> (At <$> seq (length v) n)
  = take n (x ++ s').
Proof.
  rewrite <- list_fmap_compose. unfold readCell, compose. simpl.
  rewrite <- (app_assoc v x s').
  generalize (x ++ s'). clear x s'. intros l. revert v n.
  induction l as [|b l IH]; intros v n Hn; simpl in Hn.
  { by replace n with 0 by lia. }
  destruct n as [|n]; [done|]. simpl. f_equal.
  - by rewrite lookup_app_r, Nat.sub_diag by done.
  - specialize (IH (v ++ [b]) n). rewrite length_app, <- app_assoc in IH. simpl in IH.
    replace (length v + 1) with (S (length v)) in IH by lia. apply IH. lia.
Qed.

(** The payload is the first [n] bytes of the spare capacity of the
    buffer, as after [buf := payload[:0]], the spare capacity holds a
    public key, and the step starts with [e]: the key is written over the
    payload before the payload is sealed. *)
Lemma payloadWhenSealed_aliased sw a b body rest ts n :
  h_messagePattern (sw_h sw) = String a (String b body) :: rest ->
  tokensOf body = "e" :: ts ->
  sw_payload sw = At <$> seq (len (sw_buffer sw)) n ->
  n <= length (spare (sw_buffer sw)) ->
  dhLen <= length (spare (sw_buffer sw)) ->
  ts = [] \/ n <= dhLen ->
  payloadOf sw = take n (spare (sw_buffer sw))
  /\ payloadWhenSealed grow sw
     = take n (vec_to_list (publicKey (GenerateKeypair (sw_entropy sw)).1)
               ++ drop dhLen (spare (sw_buffer sw))).
Proof.
  intros Hmp Htokens Hpay Hn Hdh Hts.
  destruct sw as [h [v sp] payload rng]. simpl in *. subst payload. split.
  { unfold payloadOf. simpl. unfold len. simpl.
    pose proof (readCell_seq v [] sp n) as Hread. rewrite app_nil_r in Hread.
    by apply Hread. }
  unfold payloadWhenSealed. simpl. rewrite Hmp, Htokens. simpl. unfold bind.
  unfold writeTokenShared at 1. simpl.
  destruct (GenerateKeypair rng) as [k rng1]. simpl.
  unfold appendTo, append. simpl. rewrite length_vec_to_list.
  destruct (Nat.leb_spec dhLen (length sp)) as [_|]; [|lia]. simpl.
  match goal with |- context [forEach ts _ ?s1] => set (sw1 := s1) end.
  assert (payloadOf sw1
          = take n (vec_to_list (publicKey k) ++ drop dhLen sp)) as Hsw1.
  { unfold payloadOf, sw1. simpl. unfold len. simpl.
    apply readCell_seq. rewrite length_app, length_vec_to_list, length_drop. lia. }
  destruct Hts as [->|Hle]; [done|].
  destruct (writeTokensShared_apart grow ts sw1) as [_ Hkeep]; [|by rewrite Hkeep].
  unfold sw1. simpl. apply Forall_fmap, Forall_forall. intros i Hi.
  apply elem_of_seq in Hi. simpl. unfold len in *. simpl in *.
  rewrite length_app, length_vec_to_list. lia.
Qed.

(** X15. When the payload does not lie in the spare capacity of the
    message buffer, that capacity and the way the run time grows the
    buffer play no part: with the two slices placed in memory,
    [WriteMessage] ends as it does on a message buffer and a payload that
    are plain byte strings, with the same result, state, randomness and
    bytes in the buffer. *)
Theorem payload_apart_is_sealed_as_given sw :
  Forall (apart (sw_buffer sw)) (sw_payload sw) ->
  (WriteMessageShared grow sw).1 = (WriteMessage (payloadOf sw) (erase sw)).1
  /\ erase (WriteMessageShared grow sw).2 = (WriteMessage (payloadOf sw) (erase sw)).2.
Proof.
  intros Hapart. rewrite <- (payloadWhenSealed_apart grow sw Hapart).
  apply WriteMessageShared_erase.
Qed.

(** X16. [WriteMessage] reads the payload when it seals it (line 161),
    after the tokens of the step have been appended to the message
    buffer.  When the payload is the first [n] bytes of the spare
    capacity of the buffer, as after [buf := payload[:0]], that capacity
    holds a public key and the step starts with [e] (as its only token,
    or with [n] at most [dhLen]), the new ephemeral public key is written
    over the payload first: the call ends as it does on a payload that
    starts with the key instead of the caller's bytes. *)
Theorem payload_in_spare_capacity_is_overwritten sw a b body rest ts n :
  h_messagePattern (sw_h sw) = String a (String b body) :: rest ->
  tokensOf body = "e" :: ts ->
  sw_payload sw = At <$> seq (len (sw_buffer sw)) n ->
  n <= length (spare (sw_buffer sw)) ->
  dhLen <= length (spare (sw_buffer sw)) ->
  ts = [] \/ n <= dhLen ->
  let sealed := take n (vec_to_list (publicKey (GenerateKeypair (sw_entropy sw)).1)
                        ++ drop dhLen (spare (sw_buffer sw))) in
  payloadOf sw = take n (spare (sw_buffer sw))
  /\ (WriteMessageShared grow sw).1 = (WriteMessage sealed (erase sw)).1
  /\ erase (WriteMessageShared grow sw).2 = (WriteMessage sealed (erase sw)).2.
Proof.
  intros Hmp Htokens Hpay Hn Hdh Hts sealed.
  destruct (payloadWhenSealed_aliased sw a b body rest ts n Hmp Htokens Hpay Hn Hdh Hts)
    as [Hgiven Hsealed].
  split; [done|]. unfold sealed. rewrite <- Hsealed.
  apply WriteMessageShared_erase.
Qed.

End SharedMemoryAliased.

(** * Two peers *)

Section Peers.

Context {P : Primitives} {L : SealsWithTag P} {PL : PeerLaws P}.

Ltac unM :=
  unfold mbind, M_bind, bind, mret, M_ret, ret, throw, get, modify,
    sliceOrPanic, stepTokens in *;
  simpl in *.

Lemma slice_lo_hi_middle (pre out post spare : list byte) n :
  length out = n ->
  slice_lo_hi {| visible := pre ++ out ++ post; spare := spare |}
    (length pre) (length pre + n) = Some out.
Proof.
  intros <-. unfold slice_lo_hi, cap. simpl.
  destruct (Nat.leb_spec (length pre) (length pre + length out)); [|lia].
  rewrite !length_app.
  destruct (Nat.leb_spec (length pre + length out)
              (length pre + (length out + length post) + length spare)); [|lia].
  simpl. f_equal.
  rewrite <- !app_assoc, drop_app_length.
  replace (length pre + length out - length pre) with (length out) by lia.
  apply take_app_length.
Qed.

Lemma peer_CLR' meta data st st' :
  peer st st' -> peer (Recv_CLR meta data st) (Send_CLR meta data st').
Proof. intros H. by apply peer_sym, peer_CLR, peer_sym. Qed.

Lemma peer_AEAD' pt ad st st' :
  peer st' st ->
  (Recv_AEAD (Send_AEAD pt ad st').1 ad st).1 = (pt, true)
  /\ peer (Recv_AEAD (Send_AEAD pt ad st').1 ad st).2 (Send_AEAD pt ad st').2.
Proof. intros H. destruct (peer_AEAD pt ad _ _ H) as [H1 H2]. split; [done|by apply peer_sym]. Qed.

Lemma token_understood pattern k k' hw hr buf rng :
  linkedWR k hw hr ->
  tokenLinks (h_initiator hw) k pattern = Some k' ->
  exists hw1 out rng1 hr1,
    writeToken pattern {| wr_h := hw; messageBuffer := buf; entropy := rng |}
    = (Ok tt, {| wr_h := hw1; messageBuffer := buf ++ out; entropy := rng1 |})
    /\ linkedWR k' hw1 hr1
    /\ h_messagePattern hw1 = h_messagePattern hw
    /\ h_messagePattern hr1 = h_messagePattern hr
    /\ forall pre post spare pbuf,
        readToken {| visible := pre ++ out ++ post; spare := spare |} pattern (length pre)
          {| rd_h := hr; payloadBuffer := pbuf |}
        = (Ok (length pre + length out), {| rd_h := hr1; payloadBuffer := pbuf |}).
Proof.
  intros Hlink Hk. unfold tokenLinks in Hk.
  destruct (String.eqb_spec pattern "e") as [->|_].
  { (* e *)
    injection Hk as <-.
    destruct (GenerateKeypair rng) as [kp rng1] eqn:Hgen.
    pose proof (GenerateKeypair_real rng) as Hreal. rewrite Hgen in Hreal. simpl in Hreal.
    exists (set_strobeState (Send_CLR false (publicKey kp) (h_strobeState hw)) (set_e kp hw)),
      (vec_to_list (publicKey kp)), rng1,
      (set_strobeState (Recv_CLR false (publicKey kp) (h_strobeState hr))
         (set_re (with_publicKey (h_re hr) (publicKey kp)) hr)).
    split; [|split; [|split; [done|split; [done|]]]].
    - unfold writeToken. simpl. by rewrite Hgen.
    - unfold linkedWR, linked in *. simpl.
      destruct (h_initiator hw); simpl in *;
        destruct Hlink as (? & ? & Hp & ? & ? & ? & ? & ? & ? & ? & ?);
        repeat split; try done; try (by constructor);
        first [by apply peer_CLR | by apply peer_CLR' | tauto].
    - intros pre post spare pbuf. unfold readToken. unM.
      rewrite (slice_lo_hi_middle pre _ post spare dhLen) by apply length_vec_to_list.
      simpl. by rewrite copy_all, length_vec_to_list. }
  destruct (String.eqb_spec pattern "s") as [->|_].
  { (* s *)
    injection Hk as <-.
    assert (peer (h_strobeState hw) (h_strobeState hr)
            /\ tag16 (h_strobeState hw) /\ tag16 (h_strobeState hr)) as (Hp & Htag & Htag').
    { unfold linkedWR, linked in Hlink.
      destruct (h_initiator hw); destruct Hlink as (? & ? & Hp & ? & ? & _);
        repeat split; try done; by apply peer_sym. }
    pose proof (Send_AEAD_length _ (publicKey (h_s hw)) [] Htag) as Hlen.
    rewrite length_vec_to_list in Hlen.
    destruct (peer_AEAD (publicKey (h_s hw)) [] _ _ Hp) as [Hopen Hp'].
    destruct (Send_AEAD (publicKey (h_s hw)) [] (h_strobeState hw)) as [ct st1] eqn:Hseal.
    simpl in *.
    destruct (Recv_AEAD ct [] (h_strobeState hr)) as [[pt ok] st2] eqn:Hrecv.
    simpl in *. injection Hopen as -> ->.
    exists (set_strobeState st1 hw), ct, rng,
      (set_rs (with_publicKey (h_rs hr) (publicKey (h_s hw))) (set_strobeState st2 hr)).
    split; [|split; [|split; [done|split; [done|]]]].
    - unfold writeToken, sendAEAD. simpl. by rewrite Hseal.
    - assert (tag16 st1) as Ht1.
      { pose proof (tag16_Send_AEAD (publicKey (h_s hw)) [] _ Htag) as Hx.
        by rewrite Hseal in Hx. }
      assert (tag16 st2) as Ht2.
      { pose proof (tag16_Recv_AEAD ct [] _ Htag') as Hx.
        by rewrite Hrecv in Hx. }
      unfold linkedWR, linked in *. simpl.
      destruct (h_initiator hw); simpl in *;
        destruct Hlink as (? & ? & ? & ? & ? & ? & ? & ? & ? & ? & ?);
        repeat split; try done; first [by apply peer_sym | tauto].
    - intros pre post spare pbuf. unfold readToken. unM.
      replace (length pre + dhLen + 16) with (length pre + (dhLen + 16)) by lia.
      rewrite (slice_lo_hi_middle pre _ post spare (dhLen + 16)) by done.
      simpl. rewrite Hrecv. simpl. by rewrite copy_all, Hlen. }
  (* the Diffie-Hellman tokens *)
  assert (forall secret secret',
             secret = secret' ->
             linkedWR k (set_strobeState (KEY secret (h_strobeState hw)) hw)
               (set_strobeState (KEY secret' (h_strobeState hr)) hr)) as Hmix.
  { intros secret ? <-. unfold linkedWR, linked in *. simpl.
    destruct (h_initiator hw); simpl in *;
      destruct Hlink as (? & ? & Hp & ? & ? & ? & ? & ? & ? & ? & ?);
      repeat split; try done; try (by constructor); try tauto; by apply peer_KEY. }
  assert (forall secret secret',
             secret = secret' ->
             writeToken pattern {| wr_h := hw; messageBuffer := buf; entropy := rng |}
             = (Ok tt, {| wr_h := mixKey secret hw; messageBuffer := buf; entropy := rng |}) ->
             (forall m offset pbuf,
                 readToken m pattern offset {| rd_h := hr; payloadBuffer := pbuf |}
                 = (Ok offset, {| rd_h := mixKey secret' hr; payloadBuffer := pbuf |})) ->
             k' = k ->
             exists hw1 out rng1 hr1,
               writeToken pattern {| wr_h := hw; messageBuffer := buf; entropy := rng |}
               = (Ok tt, {| wr_h := hw1; messageBuffer := buf ++ out; entropy := rng1 |})
               /\ linkedWR k' hw1 hr1
               /\ h_messagePattern hw1 = h_messagePattern hw
               /\ h_messagePattern hr1 = h_messagePattern hr
               /\ forall pre post spare pbuf,
                   readToken {| visible := pre ++ out ++ post; spare := spare |} pattern
                     (length pre) {| rd_h := hr; payloadBuffer := pbuf |}
                   = (Ok (length pre + length out), {| rd_h := hr1; payloadBuffer := pbuf |}))
    as Hdone.
  { intros secret secret' Heq Hw Hr ->.
    exists (mixKey secret hw), [], rng, (mixKey secret' hr).
    rewrite app_nil_r. split; [done|]. split; [by apply Hmix|].
    split; [done|]. split; [done|].
    intros pre post spare pbuf. simpl. rewrite Nat.add_0_r. apply Hr. }
  unfold linkedWR, linked in Hlink.
  destruct (String.eqb_spec pattern "ee") as [->|_].
  { destruct (i_e k) eqn:Hie, (r_e k) eqn:Hre; try done. injection Hk as <-.
    destruct (h_initiator hw) eqn:Hrole;
      destruct Hlink as (Hi & Hr & _ & _ & _ & _ & _ & He & _ & He' & _);
      destruct (He eq_refl) as [Hreal1 Hpub1], (He' eq_refl) as [Hreal2 Hpub2].
    - apply (Hdone (dh (h_e hw) (publicKey (h_re hw))) (dh (h_e hr) (publicKey (h_re hr))));
        try done.
      + rewrite Hpub1, Hpub2. by apply dh_comm.
    - apply (Hdone (dh (h_e hw) (publicKey (h_re hw))) (dh (h_e hr) (publicKey (h_re hr))));
        try done.
      + rewrite Hpub1, Hpub2. by apply dh_comm. }
  destruct (String.eqb_spec pattern "es") as [->|_].
  { destruct (i_e k) eqn:Hie, (r_s k) eqn:Hrs, (r_real k) eqn:Hrr; try done.
    injection Hk as <-.
    destruct (h_initiator hw) eqn:Hrole;
      destruct Hlink as (Hi & Hr & _ & _ & _ & _ & Hreal2 & He & _ & _ & Hs);
      destruct (He eq_refl) as [Hreal1 Hpub1]; specialize (Hs eq_refl);
      specialize (Hreal2 eq_refl).
    - apply (Hdone (dh (h_e hw) (publicKey (h_rs hw))) (dh (h_s hr) (publicKey (h_re hr))));
        try done.
      + rewrite Hpub1, Hs. by apply dh_comm.
      + unfold writeToken. simpl. by rewrite Hrole.
      + intros. unfold readToken. unM. by rewrite Hr.
    - apply (Hdone (dh (h_s hw) (publicKey (h_re hw))) (dh (h_e hr) (publicKey (h_rs hr))));
        try done.
      + rewrite Hpub1, Hs. by apply dh_comm.
      + unfold writeToken. simpl. by rewrite Hrole.
      + intros. unfold readToken. unM. by rewrite Hi. }
  destruct (String.eqb_spec pattern "se") as [->|_].
  { destruct (i_s k) eqn:His, (i_real k) eqn:Hir, (r_e k) eqn:Hre; try done.
    injection Hk as <-.
    destruct (h_initiator hw) eqn:Hrole;
      destruct Hlink as (Hi & Hr & _ & _ & _ & Hreal1 & _ & _ & Hs & He & _);
      destruct (He eq_refl) as [Hreal2 Hpub2]; specialize (Hs eq_refl);
      specialize (Hreal1 eq_refl).
    - apply (Hdone (dh (h_s hw) (publicKey (h_re hw))) (dh (h_e hr) (publicKey (h_rs hr))));
        try done.
      + rewrite Hpub2, Hs. by apply dh_comm.
      + unfold writeToken. simpl. by rewrite Hrole.
      + intros. unfold readToken. unM. by rewrite Hr.
    - apply (Hdone (dh (h_e hw) (publicKey (h_rs hw))) (dh (h_s hr) (publicKey (h_re hr))));
        try done.
      + rewrite Hpub2, Hs. by apply dh_comm.
      + unfold writeToken. simpl. by rewrite Hrole.
      + intros. unfold readToken. unM. by rewrite Hi. }
  destruct (String.eqb_spec pattern "ss") as [->|_]; [|done].
  destruct (i_s k) eqn:His, (i_real k) eqn:Hir, (r_s k) eqn:Hrs, (r_real k) eqn:Hrr; try done.
  injection Hk as <-.
  destruct (h_initiator hw) eqn:Hrole;
    destruct Hlink as (Hi & Hr & _ & _ & _ & Hreal1 & Hreal2 & _ & Hs & _ & Hs');
    specialize (Hs eq_refl); specialize (Hs' eq_refl);
    specialize (Hreal1 eq_refl); specialize (Hreal2 eq_refl).
  - apply (Hdone (dh (h_s hw) (publicKey (h_rs hw))) (dh (h_s hr) (publicKey (h_rs hr))));
      try done.
    rewrite Hs, Hs'. by apply dh_comm.
  - apply (Hdone (dh (h_s hw) (publicKey (h_rs hw))) (dh (h_s hr) (publicKey (h_rs hr))));
      try done.
    rewrite Hs, Hs'. by apply dh_comm.
Qed.

Lemma tokens_understood raws k k' hw hr buf rng :
  linkedWR k hw hr ->
  stepLinks (h_initiator hw) k ((fun pattern => strings.Trim pattern " ") <$> raws) = Some k' ->
  exists hw1 out rng1 hr1,
    forEach ((fun pattern => strings.Trim pattern " ") <$> raws) writeToken
      {| wr_h := hw; messageBuffer := buf; entropy := rng |}
    = (Ok tt, {| wr_h := hw1; messageBuffer := buf ++ out; entropy := rng1 |})
    /\ linkedWR k' hw1 hr1
    /\ h_messagePattern hw1 = h_messagePattern hw
    /\ h_messagePattern hr1 = h_messagePattern hr
    /\ forall pre post spare pbuf,
        readTokens {| visible := pre ++ out ++ post; spare := spare |} raws (length pre)
          {| rd_h := hr; payloadBuffer := pbuf |}
        = (Ok (length pre + length out), {| rd_h := hr1; payloadBuffer := pbuf |}).
Proof.
  revert k hw hr buf rng.
  induction raws as [|t raws IH]; intros k hw hr buf rng Hlink Hk.
  { injection Hk as <-. exists hw, [], rng, hr. rewrite app_nil_r.
    repeat split; try done. intros. simpl. by rewrite Nat.add_0_r. }
  rewrite fmap_cons in Hk |- *. simpl in Hk.
  destruct (tokenLinks (h_initiator hw) k (strings.Trim t " ")) as [k1|] eqn:Hk1; [|done].
  destruct (token_understood _ _ _ _ _ buf rng Hlink Hk1)
    as (hw1 & out1 & rng1 & hr1 & Hw1 & Hlink1 & Hmpw1 & Hmpr1 & Hr1).
  assert (h_initiator hw1 = h_initiator hw) as Hrole.
  { pose proof (writeToken_frame (strings.Trim t " ")
                  {| wr_h := hw; messageBuffer := buf; entropy := rng |}) as [Hi _].
    by rewrite Hw1 in Hi. }
  rewrite <- Hrole in Hk.
  destruct (IH _ _ _ (buf ++ out1) rng1 Hlink1 Hk)
    as (hw2 & out2 & rng2 & hr2 & Hw2 & Hlink2 & Hmpw2 & Hmpr2 & Hr2).
  exists hw2, (out1 ++ out2), rng2, hr2.
  split; [|split; [done|split; [congruence|split; [congruence|]]]].
  - simpl. unfold bind. rewrite Hw1, Hw2. by rewrite app_assoc.
  - intros pre post spare pbuf. simpl. unfold mbind, M_bind, bind.
    rewrite <- (app_assoc out1 out2 post), (Hr1 pre (out2 ++ post) spare pbuf).
    specialize (Hr2 (pre ++ out1) post spare pbuf).
    rewrite length_app, <- app_assoc in Hr2. rewrite Hr2. by rewrite length_app, Nat.add_assoc.
Qed.

Lemma linkedWR_peer k hw hr :
  linkedWR k hw hr ->
  peer (h_strobeState hw) (h_strobeState hr)
  /\ tag16 (h_strobeState hw) /\ tag16 (h_strobeState hr).
Proof.
  unfold linkedWR, linked.
  destruct (h_initiator hw); intros (? & ? & Hp & ? & ? & _);
    repeat split; try done; by apply peer_sym.
Qed.

Lemma linkedWR_update k hw hr stw str mpw mpr :
  linkedWR k hw hr ->
  peer stw str -> tag16 stw -> tag16 str ->
  linkedWR k (set_messagePattern mpw (set_strobeState stw hw))
    (set_messagePattern mpr (set_strobeState str hr)).
Proof.
  unfold linkedWR, linked. simpl.
  destruct (h_initiator hw); intros (? & ? & _ & _ & _ & ? & ? & ? & ? & ? & ?) Hp ? ?;
    split_and!; first [done | by apply peer_sym].
Qed.

Lemma linkedWR_keys k hw hr : linkedWR k hw hr -> linkedKeysWR k hw hr.
Proof.
  unfold linkedWR, linkedKeysWR, linked, linkedKeys.
  destruct (h_initiator hw); intros (? & ? & _ & _ & _ & ? & ? & ? & ? & ? & ?);
    split_and!; done.
Qed.

(** The key pairs stay linked when the transcripts and the steps are
    replaced, and across the split. *)
Lemma linkedKeysWR_dropped k hw hr stw str rest rest' :
  linkedKeysWR k hw hr ->
  linkedKeysWR k
    (match rest with
     | [] => afterSplit (set_messagePattern [] (set_strobeState stw hw))
     | _ :: _ => set_messagePattern rest (set_strobeState stw hw)
     end)
    (match rest' with
     | [] => afterSplit (set_messagePattern [] (set_strobeState str hr))
     | _ :: _ => set_messagePattern rest' (set_strobeState str hr)
     end).
Proof.
  unfold linkedKeysWR, linkedKeys. by destruct rest, rest'.
Qed.

Lemma message_understood payload k k' hw hr a b a' b' body rest rest' buf rng pbuf spare :
  linkedWR k hw hr ->
  h_messagePattern hw = String a (String b body) :: rest ->
  h_messagePattern hr = String a' (String b' body) :: rest' ->
  stepLinks (h_initiator hw) k (tokensOf body) = Some k' ->
  exists cw w' out cr r',
    WriteMessage payload {| wr_h := hw; messageBuffer := buf; entropy := rng |} = (Ok cw, w')
    /\ messageBuffer w' = buf ++ out
    /\ ReadMessage {| visible := out; spare := spare |} {| rd_h := hr; payloadBuffer := pbuf |}
       = (Ok cr, r')
    /\ payloadBuffer r' = pbuf ++ payload
    /\ linkedKeysWR k' (wr_h w') (rd_h r')
    /\ (rest <> [] -> rest' <> [] -> linkedWR k' (wr_h w') (rd_h r'))
    /\ h_messagePattern (wr_h w') = rest
    /\ h_messagePattern (rd_h r') = rest'
    /\ (rest <> [] -> cw = None)
    /\ (rest' <> [] -> cr = None)
    /\ (rest = [] -> rest' = [] ->
        exists c1 c2 c1' c2',
          cw = Some (c1, c2) /\ cr = Some (c1', c2') /\ peer c1 c1' /\ peer c2 c2').
Proof.
  intros Hlink Hmpw Hmpr Hk. unfold tokensOf in Hk.
  destruct (tokens_understood _ _ _ _ _ buf rng Hlink Hk)
    as (hw1 & out1 & rng1 & hr1 & Hw1 & Hlink1 & Hmpw1 & Hmpr1 & Hr1).
  destruct (linkedWR_peer _ _ _ Hlink1) as (Hp & Htw & Htr).
  destruct (peer_AEAD payload [] _ _ Hp) as [Hopen Hp'].
  pose proof (tag16_Send_AEAD payload [] _ Htw) as Htw'.
  destruct (Send_AEAD payload [] (h_strobeState hw1)) as [ct st2] eqn:Hseal.
  simpl in *.
  pose proof (tag16_Recv_AEAD ct [] _ Htr) as Htr'.
  destruct (Recv_AEAD ct [] (h_strobeState hr1)) as [[pt ok] st2'] eqn:Hrecv.
  simpl in *. injection Hopen as -> ->.
  exists (match rest with [] => Some (sessionStates st2) | _ :: _ => None end),
    {| wr_h := match rest with
               | [] => afterSplit (set_messagePattern [] (set_strobeState st2 hw1))
               | _ :: _ => set_messagePattern rest (set_strobeState st2 hw1)
               end;
       messageBuffer := (buf ++ out1) ++ ct; entropy := rng1 |},
    (out1 ++ ct),
    (match rest' with [] => Some (sessionStates st2') | _ :: _ => None end),
    {| rd_h := match rest' with
               | [] => afterSplit (set_messagePattern [] (set_strobeState st2' hr1))
               | _ :: _ => set_messagePattern rest' (set_strobeState st2' hr1)
               end;
       payloadBuffer := pbuf ++ payload |}.
  split_and!.
  - rewrite WriteMessage_eq. simpl. rewrite Hmpw. unfold tokensOf. rewrite Hw1.
    simpl. unfold sendAEAD. simpl. by rewrite Hseal.
  - by rewrite app_assoc.
  - rewrite ReadMessage_eq. simpl. rewrite Hmpr.
    specialize (Hr1 [] ct spare pbuf). simpl in Hr1. rewrite Hr1.
    unfold slice_from, len. simpl. rewrite length_app.
    destruct (Nat.leb_spec (length out1) (length out1 + length ct)); [|lia].
    rewrite drop_app_length. simpl. by rewrite Hrecv.
  - done.
  - simpl. by apply linkedKeysWR_dropped, linkedWR_keys.
  - simpl. destruct rest as [|s1 rest]; [done|]. destruct rest' as [|s2 rest']; [done|].
    intros _ _. by apply linkedWR_update.
  - simpl. apply dropped_messagePattern.
  - simpl. apply dropped_messagePattern.
  - by destruct rest.
  - by destruct rest'.
  - intros -> ->. eexists _, _, _, _. split; [done|]. split; [done|].
    unfold sessionStates. simpl.
    split; [by apply peer_RATCHET, peer_AD, peer_Clone|by apply peer_RATCHET, peer_AD].
Qed.

Variable grow : nat -> nat -> nat.

(** The same with the writer's two slices placed in memory, for a payload
    that does not lie in the spare capacity of the message buffer. *)
Lemma message_understood_apart
    payload k k' hw hr a b a' b' body rest rest' buf rng pbuf spare :
  linkedWR k hw hr ->
  h_messagePattern hw = String a (String b body) :: rest ->
  h_messagePattern hr = String a' (String b' body) :: rest' ->
  stepLinks (h_initiator hw) k (tokensOf body) = Some k' ->
  Forall (apart buf) payload ->
  exists cw sw' out cr r',
    WriteMessageShared grow
      {| sw_h := hw; sw_buffer := buf; sw_payload := payload; sw_entropy := rng |}
    = (Ok cw, sw')
    /\ visible (sw_buffer sw') = visible buf ++ out
    /\ ReadMessage {| visible := out; spare := spare |} {| rd_h := hr; payloadBuffer := pbuf |}
       = (Ok cr, r')
    /\ payloadBuffer r' = pbuf ++ (readCell buf <$> payload)
    /\ linkedKeysWR k' (sw_h sw') (rd_h r')
    /\ (rest <> [] -> rest' <> [] -> linkedWR k' (sw_h sw') (rd_h r'))
    /\ h_messagePattern (sw_h sw') = rest
    /\ h_messagePattern (rd_h r') = rest'
    /\ (rest <> [] -> cw = None)
    /\ (rest' <> [] -> cr = None)
    /\ (rest = [] -> rest' = [] ->
        exists c1 c2 c1' c2',
          cw = Some (c1, c2) /\ cr = Some (c1', c2') /\ peer c1 c1' /\ peer c2 c2').
Proof.
  intros Hlink Hmpw Hmpr Hk Hapart.
  set (sw := {| sw_h := hw; sw_buffer := buf; sw_payload := payload; sw_entropy := rng |}).
  destruct (message_understood (readCell buf <$> payload) _ _ _ _ _ _ _ _ _ _ _
              (visible buf) rng pbuf spare Hlink Hmpw Hmpr Hk)
    as (cw & w' & out & cr & r' & HW & Hout & HR & Hpay & Hkeys & Hlink' & Hw' & Hr'
        & Hcw & Hcr & Hc).
  destruct (WriteMessageShared_erase grow sw) as [Hres Hstate].
  rewrite (payloadWhenSealed_apart grow sw Hapart) in Hres, Hstate.
  change (payloadOf sw) with (readCell buf <$> payload) in Hres, Hstate.
  change (erase sw) with {| wr_h := hw; messageBuffer := visible buf; entropy := rng |}
    in Hres, Hstate.
  rewrite HW in Hres, Hstate. simpl in Hres, Hstate.
  destruct (WriteMessageShared grow sw) as [res sw'] eqn:HS. simpl in Hres, Hstate.
  subst res w'. simpl in *.
  exists cw, sw', out, cr, r'. by split_and!.
Qed.

(** X13. One message between two ends that agree, with the writer's two
    slices placed in memory.  When the writer and the reader are linked
    (opposite roles, transcripts that agree, and the key pairs the tokens
    mix known to the other end) and the payload does not lie in the spare
    capacity of the message buffer, [WriteMessage] returns and
    [ReadMessage] on what it appended, for the same tokens, returns too:
    the reader gets the bytes of the payload, both have consumed their
    step, the key pairs of the two ends are linked, now also by the keys
    the tokens sent, and so are their transcripts as long as both have a
    step left; on the last step the two pairs of session states agree. *)
Theorem message_is_understood
    payload k k' hw hr a b a' b' body rest rest' buf rng pbuf spare :
  linkedWR k hw hr ->
  h_messagePattern hw = String a (String b body) :: rest ->
  h_messagePattern hr = String a' (String b' body) :: rest' ->
  stepLinks (h_initiator hw) k (tokensOf body) = Some k' ->
  Forall (apart buf) payload ->
  exists cw sw' out cr r',
    WriteMessageShared grow
      {| sw_h := hw; sw_buffer := buf; sw_payload := payload; sw_entropy := rng |}
    = (Ok cw, sw')
    /\ visible (sw_buffer sw') = visible buf ++ out
    /\ ReadMessage {| visible := out; spare := spare |} {| rd_h := hr; payloadBuffer := pbuf |}
       = (Ok cr, r')
    /\ payloadBuffer r' = pbuf ++ (readCell buf <$> payload)
    /\ linkedKeysWR k' (sw_h sw') (rd_h r')
    /\ (rest <> [] -> rest' <> [] -> linkedWR k' (sw_h sw') (rd_h r'))
    /\ h_messagePattern (sw_h sw') = rest
    /\ h_messagePattern (rd_h r') = rest'
    /\ (rest <> [] -> cw = None)
    /\ (rest' <> [] -> cr = None)
    /\ (rest = [] -> rest' = [] ->
        exists c1 c2 c1' c2',
          cw = Some (c1, c2) /\ cr = Some (c1', c2') /\ peer c1 c1' /\ peer c2 c2').
Proof. apply message_understood_apart. Qed.

Lemma Initialize_linked
    (pats : gmap string handshakePattern) name pat prologue (sI sR : keyPair dhLen)
    (eI rsI reI eR rsR reR : option (keyPair dhLen)) :
  pats !! name = Some pat ->
  realKey sI -> realKey sR ->
  (strings.Contains (initiatorPreMessagePattern pat) "s" = true ->
   exists k, rsR = Some k /\ publicKey k = publicKey sI) ->
  (strings.Contains (responderPreMessagePattern pat) "s" = true ->
   exists k, rsI = Some k /\ publicKey k = publicKey sR) ->
  exists hi hr,
    Initialize pats name true prologue (Some sI) eI rsI reI = Ok hi
    /\ Initialize pats name false prologue (Some sR) eR rsR reR = Ok hr
    /\ h_messagePattern hi = messagePattern pat
    /\ h_messagePattern hr = messagePattern pat
    /\ h_s hi = sI /\ h_s hr = sR
    /\ linked {| i_real := true; r_real := true; i_e := false;
                 i_s := strings.Contains (initiatorPreMessagePattern pat) "s";
                 r_e := false;
                 r_s := strings.Contains (responderPreMessagePattern pat) "s" |} hi hr.
Proof.
  intros Hpat HrI HrR HpreI HpreR. unfold Initialize. rewrite Hpat. simpl.
  pose proof (peer_AD false prologue _ _
                (peer_SetMacLen 16 _ _ (peer_InitStrobe ("DISCOv0.1.0_" +:+ name)))) as Hp0.
  assert (tag16 (AD false prologue (SetMacLen 16 (InitStrobe ("DISCOv0.1.0_" +:+ name)))))
    as Ht0 by repeat constructor.
  destruct (strings.Contains (initiatorPreMessagePattern pat) "s") eqn:HcI,
           (strings.Contains (responderPreMessagePattern pat) "s") eqn:HcR; simpl.
  - destruct (HpreI eq_refl) as (kI & -> & HkI), (HpreR eq_refl) as (kR & -> & HkR). simpl.
    eexists _, _. split; [done|]. split; [done|]. unfold linked. simpl.
    rewrite HkI, HkR. split_and!; try done; try (by repeat constructor).
    by apply peer_AD, peer_AD.
  - destruct (HpreI eq_refl) as (kI & -> & HkI). simpl.
    eexists _, _. split; [done|]. split; [done|]. unfold linked. simpl.
    rewrite HkI. split_and!; try done; try (by repeat constructor).
    by apply peer_AD.
  - destruct (HpreR eq_refl) as (kR & -> & HkR). simpl.
    eexists _, _. split; [done|]. split; [done|]. unfold linked. simpl.
    rewrite HkR. split_and!; try done; try (by repeat constructor).
    by apply peer_AD.
  - eexists _, _. split; [done|]. split; [done|]. unfold linked. simpl.
    split_and!; done.
Qed.

Lemma round_understood payload sp k k' hw hr a b a' b' body rest rest' rng :
  linkedWR k hw hr ->
  h_messagePattern hw = String a (String b body) :: rest ->
  h_messagePattern hr = String a' (String b' body) :: rest' ->
  stepLinks (h_initiator hw) k (tokensOf body) = Some k' ->
  exists hw' hr' cw cr,
    round grow payload sp rng hw hr hw' hr' cw cr
    /\ linkedKeysWR k' hw' hr'
    /\ (rest <> [] -> rest' <> [] -> linkedWR k' hw' hr')
    /\ h_messagePattern hw' = rest
    /\ h_messagePattern hr' = rest'
    /\ h_s hw' = h_s hw /\ h_s hr' = h_s hr
    /\ h_initiator hw' = h_initiator hw /\ h_initiator hr' = h_initiator hr
    /\ (rest <> [] -> cw = None)
    /\ (rest' <> [] -> cr = None)
    /\ (rest = [] -> rest' = [] ->
        exists c1 c2 c1' c2',
          cw = Some (c1, c2) /\ cr = Some (c1', c2') /\ peer c1 c1' /\ peer c2 c2').
Proof.
  intros Hlink Hmpw Hmpr Hk.
  set (buf := {| visible := []; spare := sp |}).
  set (sw := {| sw_h := hw; sw_buffer := buf; sw_payload := Own <$> payload;
                sw_entropy := rng |}).
  assert (Forall (apart buf) (Own <$> payload)) as Hapart
    by (by apply Forall_fmap, Forall_true).
  assert (readCell buf <$> (Own <$> payload) = payload) as Hread.
  { rewrite <- list_fmap_compose. apply list_fmap_id. }
  destruct (message_understood_apart (Own <$> payload) _ _ _ _ _ _ _ _ _ _ _ buf rng [] []
              Hlink Hmpw Hmpr Hk Hapart)
    as (cw & sw' & out & cr & r' & HW & Hout & HR & Hpay & Hkeys & Hlink' & Hw' & Hr'
        & Hcw & Hcr & Hc).
  fold sw in HW. rewrite Hread in Hpay. simpl in Hout, Hpay.
  destruct (WriteMessageShared_erase grow sw) as [_ Hstate].
  pose proof (WriteMessage_writeFrame (payloadWhenSealed grow sw) (erase sw)) as (Hiw & Hsw & _).
  rewrite <- Hstate, HW in Hiw, Hsw. simpl in Hiw, Hsw.
  pose proof (ReadMessage_readFrame {| visible := out; spare := [] |}
                {| rd_h := hr; payloadBuffer := [] |}) as (Hir & Hsr & _).
  rewrite HR in Hsr, Hir. simpl in Hsr, Hir.
  exists (sw_h sw'), (rd_h r'), cw, cr.
  split; [|by split_and!].
  exists sw', r'. rewrite Hout. by split_and!.
Qed.

(** X14. The whole "XX" exchange.  Two ends that are given real static
    key pairs and the same prologue go through the three messages without
    a panic, whatever the payloads, the randomness and the spare capacity
    of the message buffers, as long as no payload shares memory with the
    buffer it is written to: each payload reaches the other end, both
    ends are left with no step, each holds the other's static public key
    in [rs], and the two pairs of session states they return agree. *)
Theorem XX_exchange_converges
    prologue (sI sR : keyPair dhLen) (eI rsI reI eR rsR reR : option (keyPair dhLen))
    payload1 payload2 payload3 sp1 sp2 sp3 rng1 rng2 rng3 :
  realKey sI -> realKey sR ->
  exists hi0 hr0 hi1 hr1 hi2 hr2 hi3 hr3 c1 c2 c1' c2',
    Initialize patterns "XX" true prologue (Some sI) eI rsI reI = Ok hi0
    /\ Initialize patterns "XX" false prologue (Some sR) eR rsR reR = Ok hr0
    /\ round grow payload1 sp1 rng1 hi0 hr0 hi1 hr1 None None
    /\ round grow payload2 sp2 rng2 hr1 hi1 hr2 hi2 None None
    /\ round grow payload3 sp3 rng3 hi2 hr2 hi3 hr3 (Some (c1, c2)) (Some (c1', c2'))
    /\ peer c1 c1' /\ peer c2 c2'
    /\ h_messagePattern hi3 = [] /\ h_messagePattern hr3 = []
    /\ publicKey (h_rs hr3) = publicKey sI
    /\ publicKey (h_rs hi3) = publicKey sR.
Proof.
  intros HrI HrR.
  destruct (Initialize_linked patterns "XX" _ prologue sI sR eI rsI reI eR rsR reR
              (lookup_singleton_eq _ _) HrI HrR) as
    (hi0 & hr0 & Hi0 & Hr0 & Hmpi0 & Hmpr0 & Hsi0 & Hsr0 & Hlink0); [done|done|].
  simpl in Hmpi0, Hmpr0, Hlink0.
  assert (h_initiator hi0 = true /\ h_initiator hr0 = false) as [Hroi Hror]
    by (destruct Hlink0 as (? & ? & _); done).
  set (k0 := {| i_real := true; r_real := true; i_e := false; i_s := false;
                r_e := false; r_s := false |}) in *.
  set (k1 := {| i_real := true; r_real := true; i_e := true; i_s := false;
                r_e := false; r_s := false |}).
  set (k2 := {| i_real := true; r_real := true; i_e := true; i_s := false;
                r_e := true; r_s := true |}).
  set (k3 := {| i_real := true; r_real := true; i_e := true; i_s := true;
                r_e := true; r_s := true |}).
  (* first message, written by the initiator *)
  assert (linkedWR k0 hi0 hr0) as Hl0 by (unfold linkedWR; by rewrite Hroi).
  assert (stepLinks (h_initiator hi0) k0 (tokensOf "e") = Some k1) as Hk1
    by (by rewrite Hroi).
  destruct (round_understood payload1 sp1 k0 k1 hi0 hr0 _ _ _ _ _ _ _ rng1 Hl0 Hmpi0 Hmpr0 Hk1)
    as (hi1 & hr1 & cw1 & cr1 & Hround1 & _ & Hlink1 & Hmpi1 & Hmpr1 & Hsi1 & Hsr1
        & Hroi1 & Hror1 & Hcw1 & Hcr1 & _).
  specialize (Hlink1 ltac:(done) ltac:(done)).
  rewrite (Hcw1 ltac:(done)), (Hcr1 ltac:(done)) in Hround1.
  rewrite Hroi in Hroi1. rewrite Hror in Hror1.
  (* second message, written by the responder *)
  assert (linkedWR k1 hr1 hi1) as Hl1
    by (unfold linkedWR in *; rewrite Hror1; by rewrite Hroi1 in Hlink1).
  assert (stepLinks (h_initiator hr1) k1 (tokensOf "e, ee, s, es") = Some k2) as Hk2
    by (by rewrite Hror1).
  destruct (round_understood payload2 sp2 k1 k2 hr1 hi1 _ _ _ _ _ _ _ rng2 Hl1 Hmpr1 Hmpi1 Hk2)
    as (hr2 & hi2 & cw2 & cr2 & Hround2 & _ & Hlink2 & Hmpr2 & Hmpi2 & Hsr2 & Hsi2
        & Hror2 & Hroi2 & Hcw2 & Hcr2 & _).
  specialize (Hlink2 ltac:(done) ltac:(done)).
  rewrite (Hcw2 ltac:(done)), (Hcr2 ltac:(done)) in Hround2.
  rewrite Hroi1 in Hroi2. rewrite Hror1 in Hror2.
  (* third message, written by the initiator *)
  assert (linkedWR k2 hi2 hr2) as Hl2
    by (unfold linkedWR in *; rewrite Hroi2; by rewrite Hror2 in Hlink2).
  assert (stepLinks (h_initiator hi2) k2 (tokensOf "s, se") = Some k3) as Hk3
    by (by rewrite Hroi2).
  destruct (round_understood payload3 sp3 k2 k3 hi2 hr2 _ _ _ _ _ _ _ rng3 Hl2 Hmpi2 Hmpr2 Hk3)
    as (hi3 & hr3 & cw3 & cr3 & Hround3 & Hkeys3 & _ & Hmpi3 & Hmpr3 & Hsi3 & Hsr3
        & Hroi3 & Hror3 & _ & _ & Hc).
  rewrite Hroi2 in Hroi3.
  destruct (Hc eq_refl eq_refl) as (c1 & c2 & c1' & c2' & -> & -> & Hp1 & Hp2).
  exists hi0, hr0, hi1, hr1, hi2, hr2, hi3, hr3, c1, c2, c1', c2'.
  unfold linkedKeysWR, linkedKeys in Hkeys3. rewrite Hroi3 in Hkeys3.
  destruct Hkeys3 as (_ & _ & _ & _ & _ & His & _ & Hrs).
  split_and!; try done.
  - rewrite (His eq_refl). congruence.
  - rewrite (Hrs eq_refl). congruence.
Qed.

End Peers.

(** * The toy instance: the peer laws *)

Lemma Toy_xorb8_to_N a b :
  Byte.to_N (Toy.xorb8 a b) = N.lxor (Byte.to_N a) (Byte.to_N b).
Proof.
  unfold Toy.xorb8.
  assert (N.lxor (Byte.to_N a) (Byte.to_N b) <= 255)%N as Hle.
  { assert (forall c, N.log2 (Byte.to_N c) <= 7)%N as Hlog.
    { intros c. pose proof (Byte.to_N_bounded c).
      change 7%N with (N.log2 255). by apply N.log2_le_mono. }
    destruct (N.eq_dec (N.lxor (Byte.to_N a) (Byte.to_N b)) 0%N) as [->|Hnz]; [lia|].
    assert (N.lxor (Byte.to_N a) (Byte.to_N b) < 2 ^ 8)%N as Hlt.
    { apply N.log2_lt_pow2; [lia|].
      pose proof (N.log2_lxor (Byte.to_N a) (Byte.to_N b)).
      pose proof (Hlog a). pose proof (Hlog b). lia. }
    change (2 ^ 8)%N with 256%N in Hlt. lia. }
  pose proof (Byte.to_of_N_option_map (N.lxor (Byte.to_N a) (Byte.to_N b))) as Hof.
  destruct (N.leb_spec (N.lxor (Byte.to_N a) (Byte.to_N b)) 255); [|lia].
  destruct (Byte.of_N _) as [c|]; simpl in *; [by injection Hof|done].
Qed.

Lemma Toy_to_N_inj a b : Byte.to_N a = Byte.to_N b -> a = b.
Proof.
  intros H. apply (f_equal Byte.of_N) in H. rewrite !Byte.of_to_N in H. by injection H.
Qed.

Lemma Toy_xorb8_comm a b : Toy.xorb8 a b = Toy.xorb8 b a.
Proof. apply Toy_to_N_inj. by rewrite !Toy_xorb8_to_N, N.lxor_comm. Qed.

Lemma Toy_xorb8_involutive a b : Toy.xorb8 (Toy.xorb8 a b) b = a.
Proof.
  apply Toy_to_N_inj.
  by rewrite !Toy_xorb8_to_N, N.lxor_assoc, N.lxor_nilpotent, N.lxor_0_r.
Qed.

Lemma Toy_keystream_involutive a data :
  Toy.keystream a (Toy.keystream a data) = data.
Proof.
  revert a. induction data as [|b data IH]; intros a; simpl; [done|].
  by rewrite Toy_xorb8_involutive, IH.
Qed.

Lemma Toy_bytesEq_refl l : Toy.bytesEq l l = true.
Proof.
  induction l as [|b l IH]; simpl; [done|].
  rewrite IH, andb_true_r. by apply Byte.byte_dec_lb.
Qed.

Lemma Toy_open_sealed pt ad (d : Toy.duplex) :
  Toy.recv_AEAD (Toy.send_AEAD pt ad d).1 ad d = ((pt, true), (Toy.send_AEAD pt ad d).2).
Proof.
  unfold Toy.send_AEAD, Toy.recv_AEAD. simpl.
  set (d' := Toy.absorb 5 ad (Toy.absorb 4 pt d)).
  assert (length (Toy.tagOf d') = Toy.macLen d) as Htag.
  { unfold Toy.tagOf. by rewrite length_fmap, length_seq. }
  rewrite length_app, Toy_keystream_length, Htag.
  destruct (Nat.ltb_spec (length pt + Toy.macLen d) (Toy.macLen d)); [lia|].
  replace (length pt + Toy.macLen d - Toy.macLen d) with (length pt) by lia.
  rewrite take_app_length' by (by rewrite Toy_keystream_length).
  rewrite drop_app_length' by (by rewrite Toy_keystream_length).
  rewrite Toy_keystream_involutive. fold d'. by rewrite Toy_bytesEq_refl.
Qed.

Lemma Toy_dh_comm (k k' : keyPair 32) :
  Toy_realKey k -> Toy_realKey k' ->
  dh (Primitives := Toy.prims) k (publicKey k') = dh (Primitives := Toy.prims) k' (publicKey k).
Proof.
  unfold Toy_realKey. intros -> ->. simpl.
  rewrite !vec_to_list_zip_with, !vec_to_list_map.
  generalize (vec_to_list (privateKey k)) (vec_to_list (privateKey k')).
  intros l. induction l as [|x l IH]; intros [|y l']; simpl; try done.
  rewrite IH. f_equal.
  rewrite (Toy_xorb8_comm (Toy.xorb8 x5a x)).
  f_equal; apply Toy_xorb8_comm.
Qed.

Lemma Toy_keyOf_real seed : Toy_realKey (Toy.keyOf seed).
Proof. reflexivity. Qed.

#[global] Instance Toy_peers : PeerLaws Toy.prims.
Proof.
  refine {| peer := eq; realKey := Toy_realKey |}.
  - by intros ?? ->.
  - done.
  - by intros ??? ->.
  - by intros ???? ->.
  - by intros ??? ->.
  - by intros ???? ->.
  - intros pt ad st ? <-. change (Send_AEAD pt ad st) with (Toy.send_AEAD pt ad st).
    change (Recv_AEAD (Toy.send_AEAD pt ad st).1 ad st)
      with (Toy.recv_AEAD (Toy.send_AEAD pt ad st).1 ad st).
    by rewrite Toy_open_sealed.
  - by intros ?? ->.
  - by intros ??? ->.
  - apply Toy_dh_comm.
  - intros [|seed rng]; apply Toy_keyOf_real.
Defined.

(** * Runs of the further properties on the toy instance *)

Lemma Initialize_returns_iff_witness :
  isOk (Initialize Toy.patternsKK "KK" true [] (Some (Toy.keyOf 1)) None
          (Some (Toy.keyOf 2)) None) = true
  /\ isOk (Initialize Toy.patternsKK "KK" true [] None None (Some (Toy.keyOf 2)) None) = false
  /\ isOk (Initialize patterns "XX" false [] None None None None) = true
  /\ isOk (Initialize patterns "xx" false [] None None None None) = false.
Proof.
  pose proof (Initialize_returns_iff (P := Toy.prims) Toy.patternsKK "KK" true []
                (Some (Toy.keyOf 1)) None (Some (Toy.keyOf 2)) None) as [Hkk _].
  pose proof (Initialize_returns_iff (P := Toy.prims) Toy.patternsKK "KK" true []
                None None (Some (Toy.keyOf 2)) None) as [Hnil _].
  pose proof (Initialize_returns_iff (P := Toy.prims) patterns "XX" false []
                None None None None) as [_ Hxx].
  pose proof (Initialize_returns_iff (P := Toy.prims) patterns "xx" false []
                None None None None) as [_ Hlower].
  split; [|split; [|split]].
  - apply Hkk. exists Toy.patternKK. split; [vm_compute; reflexivity|].
    split; intros _; by eexists.
  - apply not_true_is_false. intros Hok. apply Hnil in Hok as (pat & Hpat & Hs & _).
    assert (pat = Toy.patternKK) as -> by (vm_compute in Hpat; by injection Hpat).
    by destruct (Hs eq_refl).
  - by apply Hxx.
  - apply not_true_is_false. intros Hok. by apply Hlower in Hok.
Defined.

Lemma Toy_started (x : result handshakeState) :
  isOk x = true -> x = Ok (default Toy.blank (Toy.started x)).
Proof. by destruct x. Qed.

Lemma Initialize_state_witness :
  Initialize patterns "XX" false (bytes "prologue") (Some (Toy.keyOf 77)) None None None
  = Ok Toy_r0
  /\ h_s Toy_r0 = Toy.keyOf 77
  /\ h_rs Toy_r0 = emptyKeyPair 32
  /\ h_initiator Toy_r0 = false
  /\ exists pat,
      patterns !! "XX" = Some pat
      /\ h_messagePattern Toy_r0 = messagePattern pat
      /\ h_strobeState Toy_r0
         = AD false (bytes "prologue") (SetMacLen 16 (InitStrobe "DISCOv0.1.0_XX")).
Proof.
  assert (Initialize (P := Toy.prims) patterns "XX" false (bytes "prologue")
            (Some (Toy.keyOf 77)) None None None = Ok Toy_r0) as Hinit
    by (apply Toy_started; vm_compute; reflexivity).
  destruct (Initialize_state (P := Toy.prims) patterns "XX" false (bytes "prologue")
              (Some (Toy.keyOf 77)) None None None Toy_r0 Hinit)
    as (pat & Hpat & Hs & _ & Hrs & _ & Hi & Hmp & Hst).
  split; [exact Hinit|]. split; [exact Hs|]. split; [exact Hrs|]. split; [exact Hi|].
  exists pat. split; [exact Hpat|]. split; [exact Hmp|].
  apply Hst; vm_compute in Hpat; by injection Hpat as <-.
Defined.

Lemma buffers_are_only_appended_to_witness :
  (exists out, messageBuffer (WriteMessage (bytes "bye") Toy.writer3).2
               = messageBuffer Toy.writer3 ++ out)
  /\ payloadBuffer (ReadMessage Toy.tenOf64 Toy.reader3).2 = payloadBuffer Toy.reader3
  /\ exists plaintext, payloadBuffer Toy.got3.2 = payloadBuffer Toy.reader3 ++ plaintext.
Proof.
  assert ((ReadMessage Toy.tenOf64 Toy.reader3).1 = Panic (PanicMsg "bad MAC")) as H1
    by (vm_compute; reflexivity).
  pose proof (buffers_are_only_appended_to (bytes "bye") Toy.tenOf64 Toy.writer3 Toy.reader3)
    as (Hw & Hp & _).
  pose proof (buffers_are_only_appended_to (bytes "bye") Toy.message3 Toy.writer3 Toy.reader3)
    as (_ & _ & Hok).
  split; [exact Hw|]. split; [exact (Hp _ _ (panic_eta _ _ H1))|].
  exact (Hok _ _ Toy_got3).
Defined.

Lemma no_e_token_no_randomness_witness :
  h_messagePattern (wr_h Toy.writer3) = ["->s, se"]
  /\ ("e" ∉ tokensOf "s, se")
  /\ entropy (WriteMessage (bytes "bye") Toy.writer3).2 = entropy Toy.writer3
  /\ h_e (wr_h (WriteMessage (bytes "bye") Toy.writer3).2) = h_e (wr_h Toy.writer3).
Proof.
  assert (h_messagePattern (wr_h Toy.writer3) = ["->s, se"]) as H1 by (vm_compute; reflexivity).
  assert ("e" ∉ tokensOf "s, se") as H2.
  { intros Hin. repeat (apply elem_of_cons in Hin as [Hin|Hin]; [done|]).
    by apply elem_of_nil in Hin. }
  split; [exact H1|]. split; [exact H2|].
  exact (no_e_token_no_randomness (bytes "bye") Toy.writer3 "-"%char ">"%char "s, se" [] H1 H2).
Defined.

Lemma session_states_iff_last_step_witness :
  Toy.wrote3 = (Ok (returned Toy.wrote3.1), Toy.wrote3.2)
  /\ Toy.got3 = (Ok (returned Toy.got3.1), Toy.got3.2)
  /\ (is_Some (returned Toy.wrote3.1) <-> h_messagePattern (wr_h Toy.wrote3.2) = [])
  /\ (is_Some (returned Toy.got3.1) <-> length (h_messagePattern (rd_h Toy.reader3)) = 1).
Proof.
  pose proof (session_states_iff_last_step (bytes "bye") Toy.message3 Toy.writer3 Toy.reader3)
    as [Hw Hr].
  split; [exact Toy_wrote3|]. split; [exact Toy_got3|].
  split; [exact (proj1 (Hw _ _ Toy_wrote3))|exact (proj2 (Hr _ _ Toy_got3))].
Defined.

Lemma malformed_step_panics_witness :
  h_messagePattern (wr_h (wr_with_steps ["-"] Toy.writer3)) = ["-"]
  /\ String.length "-" < 2
  /\ WriteMessage [] (wr_with_steps ["-"] Toy.writer3)
     = (Panic SliceBoundsOutOfRange, wr_with_steps ["-"] Toy.writer3)
  /\ h_messagePattern (rd_h (rd_with_steps ["->"] Toy.reader3)) = ["->"]
  /\ String.length "->" = 2
  /\ ReadMessage Toy.message3 (rd_with_steps ["->"] Toy.reader3)
     = (Panic (PanicMsg "pattern not allowed"), rd_with_steps ["->"] Toy.reader3).
Proof.
  assert (String.length "-" < 2) as H1 by (simpl; lia).
  pose proof (malformed_step_panics [] Toy.message3 (wr_with_steps ["-"] Toy.writer3)
                (rd_with_steps ["->"] Toy.reader3) "-" []) as (Hw & _ & _ & _).
  pose proof (malformed_step_panics [] Toy.message3 (wr_with_steps ["-"] Toy.writer3)
                (rd_with_steps ["->"] Toy.reader3) "->" []) as (_ & _ & _ & Hr).
  split; [reflexivity|]. split; [exact H1|]. split; [exact (Hw eq_refl H1)|].
  split; [reflexivity|]. split; [reflexivity|]. exact (Hr eq_refl eq_refl).
Defined.

Lemma spare_capacity_is_never_read_when_long_enough_witness :
  h_messagePattern (rd_h Toy.reader3) = ["->s, se"]
  /\ sum_list (tokenLen <$> tokensOf "s, se")
     <= len {| visible := visible Toy.message3; spare := repeat xff 40 |}
  /\ ReadMessage {| visible := visible Toy.message3; spare := repeat xff 40 |} Toy.reader3
     = ReadMessage (full (visible Toy.message3)) Toy.reader3.
Proof.
  assert (h_messagePattern (rd_h Toy.reader3) = ["->s, se"]) as H1 by (vm_compute; reflexivity).
  assert (sum_list (tokenLen <$> tokensOf "s, se")
          <= len {| visible := visible Toy.message3; spare := repeat xff 40 |}) as H2
    by (vm_compute; lia).
  split; [exact H1|]. split; [exact H2|].
  exact (spare_capacity_is_never_read_when_long_enough
           {| visible := visible Toy.message3; spare := repeat xff 40 |} Toy.reader3
           "-"%char ">"%char "s, se" [] H1 H2).
Defined.

Lemma Toy_third_call : callSteps 1 (wr_h Toy.writer3) (wr_h Toy.wrote3.2).
Proof.
  eapply callSteps_S; [|apply callSteps_O].
  exact (callStep_write (wr_h Toy.writer3) (wr_h Toy.wrote3.2) (bytes "bye") [] []
           (returned Toy.wrote3.1) Toy.wrote3.2 Toy_wrote3 eq_refl).
Qed.

Lemma n_calls_consume_n_steps_witness :
  callSteps 1 (wr_h Toy.writer3) (wr_h Toy.wrote3.2)
  /\ h_messagePattern (wr_h Toy.wrote3.2) = drop 1 (h_messagePattern (wr_h Toy.writer3))
  /\ 1 <= length (h_messagePattern (wr_h Toy.writer3))
  /\ h_initiator (wr_h Toy.wrote3.2) = h_initiator (wr_h Toy.writer3)
  /\ h_s (wr_h Toy.wrote3.2) = h_s (wr_h Toy.writer3).
Proof.
  split; [exact Toy_third_call|].
  exact (n_calls_consume_n_steps 1 _ _ Toy_third_call).
Defined.

Lemma tokens_joined_by_comma_space_parse_back_witness :
  ["e"; "ee"; "s"; "es"] <> []
  /\ Forall (fun t => hasByte "," t = false /\ strings.Trim t " " = t) ["e"; "ee"; "s"; "es"]
  /\ tokensOf "e, ee, s, es" = ["e"; "ee"; "s"; "es"]
  /\ tokensOf "e,ee,s,es" = ["e"; "ee"; "s"; "es"].
Proof.
  assert (["e"; "ee"; "s"; "es"] <> []) as H1 by done.
  assert (Forall (fun t => hasByte "," t = false /\ strings.Trim t " " = t)
            ["e"; "ee"; "s"; "es"]) as H2 by (repeat constructor).
  split; [exact H1|]. split; [exact H2|].
  exact (tokens_joined_by_comma_space_parse_back ["e"; "ee"; "s"; "es"] H1 H2).
Defined.

Lemma ephemeral_key_reaches_the_reader_witness :
  h_messagePattern (wr_h Toy.writer2) = ["<-e, ee, s, es"; "->s, se"]
  /\ h_messagePattern Toy_i1 = ["<-e, ee, s, es"; "->s, se"]
  /\ tokensOf "e, ee, s, es" = ["e"; "ee"; "s"; "es"]
  /\ ("e" ∉ ["ee"; "s"; "es"])
  /\ messageBuffer Toy.writer2 = []
  /\ take 32 (messageBuffer (WriteMessage [] Toy.writer2).2)
     = publicKey (h_e (wr_h (WriteMessage [] Toy.writer2).2))
  /\ publicKey (h_re (rd_h (ReadMessage
                              {| visible := messageBuffer (WriteMessage [] Toy.writer2).2;
                                 spare := [] |}
                              {| rd_h := Toy_i1; payloadBuffer := [] |}).2))
     = publicKey (h_e (wr_h (WriteMessage [] Toy.writer2).2)).
Proof.
  assert (h_messagePattern (wr_h Toy.writer2) = ["<-e, ee, s, es"; "->s, se"]) as H1
    by (vm_compute; reflexivity).
  assert (h_messagePattern Toy_i1 = ["<-e, ee, s, es"; "->s, se"]) as H2
    by (vm_compute; reflexivity).
  assert (tokensOf "e, ee, s, es" = ["e"; "ee"; "s"; "es"]) as H3 by reflexivity.
  assert ("e" ∉ ["ee"; "s"; "es"]) as H4.
  { intros Hin. repeat (apply elem_of_cons in Hin as [Hin|Hin]; [done|]).
    by apply elem_of_nil in Hin. }
  split; [exact H1|]. split; [exact H2|]. split; [exact H3|]. split; [exact H4|].
  split; [reflexivity|].
  exact (ephemeral_key_reaches_the_reader [] Toy.writer2
           {| rd_h := Toy_i1; payloadBuffer := [] |}
           "<"%char "-"%char "<"%char "-"%char "e, ee, s, es" ["->s, se"] ["->s, se"]
           ["ee"; "s"; "es"] [] H1 H2 H3 H4 eq_refl).
Defined.

Lemma message_length_after_Initialize_witness :
  Initialize patterns "XX" true (bytes "prologue") (Some (Toy.keyOf 5)) None None None
  = Ok Toy_i0
  /\ callSteps 0 Toy_i0 Toy_i0
  /\ h_messagePattern Toy_i0 = ["->e"; "<-e, ee, s, es"; "->s, se"]
  /\ Forall (fun pattern => validToken pattern = true) (tokensOf "e")
  /\ exists c w' out,
      WriteMessage (bytes "hello")
        {| wr_h := Toy_i0; messageBuffer := []; entropy := [11%N] |} = (Ok c, w')
      /\ messageBuffer w' = [] ++ out
      /\ length out = sum_list (tokenLen <$> tokensOf "e") + (5 + 16).
Proof.
  assert (Initialize (P := Toy.prims) patterns "XX" true (bytes "prologue")
            (Some (Toy.keyOf 5)) None None None = Ok Toy_i0) as Hinit
    by (apply Toy_started; vm_compute; reflexivity).
  assert (h_messagePattern Toy_i0 = ["->e"; "<-e, ee, s, es"; "->s, se"]) as Hmp
    by (vm_compute; reflexivity).
  assert (Forall (fun pattern => validToken pattern = true) (tokensOf "e")) as Hvalid
    by (repeat constructor).
  split; [exact Hinit|]. split; [apply callSteps_O|]. split; [exact Hmp|].
  split; [exact Hvalid|].
  exact (message_length_after_Initialize patterns "XX" true (bytes "prologue")
           (Some (Toy.keyOf 5)) None None None Toy_i0 0 Toy_i0 (bytes "hello") [] [11%N]
           "-"%char ">"%char "e" ["<-e, ee, s, es"; "->s, se"]
           Hinit (callSteps_O Toy_i0) Hmp Hvalid).
Defined.

Lemma Toy_linked1 : linkedWR Toy_links1 Toy.r1 Toy_i1.
Proof.
  unfold linkedWR.
  assert (h_initiator Toy.r1 = false) as -> by (vm_compute; reflexivity).
  unfold linked.
  split; [vm_compute; reflexivity|]. split; [vm_compute; reflexivity|].
  split; [change (h_strobeState Toy_i1 = h_strobeState Toy.r1); vm_compute; reflexivity|].
  split; [apply Toy_tag16_macLen; vm_compute; reflexivity|].
  split; [apply Toy_tag16_macLen; vm_compute; reflexivity|].
  split; [intros _; change (Toy_realKey (h_s Toy_i1)); vm_compute; reflexivity|].
  split; [intros _; change (Toy_realKey (h_s Toy.r1)); vm_compute; reflexivity|].
  split; [intros _; split;
          [change (Toy_realKey (h_e Toy_i1)); vm_compute; reflexivity
          |vm_compute; reflexivity]|].
  split; [intros [=]|]. split; intros [=].
Qed.

Lemma message_is_understood_witness :
  linkedWR Toy_links1 Toy.r1 Toy_i1
  /\ h_messagePattern Toy.r1 = ["<-e, ee, s, es"; "->s, se"]
  /\ h_messagePattern Toy_i1 = ["<-e, ee, s, es"; "->s, se"]
  /\ stepLinks (h_initiator Toy.r1) Toy_links1 (tokensOf "e, ee, s, es") = Some Toy_links2
  /\ Forall (apart (sw_buffer Toy_shared)) (sw_payload Toy_shared)
  /\ exists cw sw' out cr r',
      WriteMessageShared Toy_grow Toy_shared = (Ok cw, sw')
      /\ visible (sw_buffer sw') = bytes "hi" ++ out
      /\ ReadMessage {| visible := out; spare := [] |} {| rd_h := Toy_i1; payloadBuffer := [] |}
         = (Ok cr, r')
      /\ payloadBuffer r' = bytes "hi"
      /\ linkedKeysWR Toy_links2 (sw_h sw') (rd_h r')
      /\ linkedWR Toy_links2 (sw_h sw') (rd_h r')
      /\ h_messagePattern (sw_h sw') = ["->s, se"]
      /\ h_messagePattern (rd_h r') = ["->s, se"]
      /\ cw = None /\ cr = None.
Proof.
  assert (h_messagePattern Toy.r1 = ["<-e, ee, s, es"; "->s, se"]) as H1
    by (vm_compute; reflexivity).
  assert (h_messagePattern Toy_i1 = ["<-e, ee, s, es"; "->s, se"]) as H2
    by (vm_compute; reflexivity).
  assert (stepLinks (h_initiator Toy.r1) Toy_links1 (tokensOf "e, ee, s, es")
          = Some Toy_links2) as H3 by (vm_compute; reflexivity).
  assert (Forall (apart (sw_buffer Toy_shared)) (sw_payload Toy_shared)) as H4
    by (repeat constructor).
  split; [exact Toy_linked1|]. split; [exact H1|]. split; [exact H2|]. split; [exact H3|].
  split; [exact H4|].
  destruct (message_is_understood Toy_grow (sw_payload Toy_shared) Toy_links1 Toy_links2
              Toy.r1 Toy_i1
              "<"%char "-"%char "<"%char "-"%char "e, ee, s, es" ["->s, se"] ["->s, se"]
              (sw_buffer Toy_shared) [22%N] [] [] Toy_linked1 H1 H2 H3 H4)
    as (cw & sw' & out & cr & r' & HW & Hout & HR & Hpay & Hkeys & Hlink & Hmw & Hmr
        & Hcw & Hcr & _).
  exists cw, sw', out, cr, r'.
  split; [exact HW|]. split; [exact Hout|]. split; [exact HR|]. split; [exact Hpay|].
  split; [exact Hkeys|]. split; [by apply Hlink|]. split; [exact Hmw|]. split; [exact Hmr|].
  split; [by apply Hcw|by apply Hcr].
Defined.

Lemma XX_exchange_converges_witness :
  realKey (Toy.keyOf 5) /\ realKey (Toy.keyOf 77)
  /\ exists hi0 hr0 hi1 hr1 hi2 hr2 hi3 hr3 c1 c2 c1' c2',
    Initialize patterns "XX" true (bytes "prologue") (Some (Toy.keyOf 5)) None None None
    = Ok hi0
    /\ Initialize patterns "XX" false (bytes "prologue") (Some (Toy.keyOf 77)) None None None
       = Ok hr0
    /\ round Toy_grow (bytes "hello") (replicate 64 x00) [11%N] hi0 hr0 hi1 hr1 None None
    /\ round Toy_grow [] [] [22%N] hr1 hi1 hr2 hi2 None None
    /\ round Toy_grow (bytes "bye") (replicate 8 x00) [] hi2 hr2 hi3 hr3
         (Some (c1, c2)) (Some (c1', c2'))
    /\ peer c1 c1' /\ peer c2 c2'
    /\ h_messagePattern hi3 = [] /\ h_messagePattern hr3 = []
    /\ publicKey (h_rs hr3) = publicKey (Toy.keyOf 5)
    /\ publicKey (h_rs hi3) = publicKey (Toy.keyOf 77).
Proof.
  split; [exact (Toy_keyOf_real 5)|]. split; [exact (Toy_keyOf_real 77)|].
  exact (XX_exchange_converges (P := Toy.prims) Toy_grow (bytes "prologue")
           (Toy.keyOf 5) (Toy.keyOf 77) None None None None None None
           (bytes "hello") [] (bytes "bye") (replicate 64 x00) [] (replicate 8 x00)
           [11%N] [22%N] []
           (Toy_keyOf_real 5) (Toy_keyOf_real 77)).
Defined.

Lemma payload_apart_is_sealed_as_given_witness :
  Forall (apart (sw_buffer Toy_shared)) (sw_payload Toy_shared)
  /\ (WriteMessageShared Toy_grow Toy_shared).1
     = (WriteMessage (payloadOf Toy_shared) (erase Toy_shared)).1
  /\ erase (WriteMessageShared Toy_grow Toy_shared).2
     = (WriteMessage (payloadOf Toy_shared) (erase Toy_shared)).2
  /\ payloadOf Toy_shared = bytes "hi".
Proof.
  assert (Forall (apart (sw_buffer Toy_shared)) (sw_payload Toy_shared)) as H1
    by (repeat constructor).
  split; [exact H1|].
  split; [exact (proj1 (payload_apart_is_sealed_as_given Toy_grow Toy_shared H1))|].
  split; [exact (proj2 (payload_apart_is_sealed_as_given Toy_grow Toy_shared H1))|].
  vm_compute; reflexivity.
Defined.

Lemma payload_in_spare_capacity_is_overwritten_witness :
  h_messagePattern (sw_h Toy_aliased) = ["->e"; "<-e, ee, s, es"; "->s, se"]
  /\ tokensOf "e" = ["e"]
  /\ sw_payload Toy_aliased = At <$> seq (len (sw_buffer Toy_aliased)) 14
  /\ 14 <= length (spare (sw_buffer Toy_aliased))
  /\ dhLen <= length (spare (sw_buffer Toy_aliased))
  /\ payloadOf Toy_aliased = bytes "attack at dawn"
  /\ take 14 (vec_to_list (publicKey (GenerateKeypair (sw_entropy Toy_aliased)).1)
              ++ drop dhLen (spare (sw_buffer Toy_aliased)))
     = replicate 14 "Q"%byte
  /\ (WriteMessageShared Toy_grow Toy_aliased).1
     = (WriteMessage (replicate 14 "Q"%byte) (erase Toy_aliased)).1
  /\ erase (WriteMessageShared Toy_grow Toy_aliased).2
     = (WriteMessage (replicate 14 "Q"%byte) (erase Toy_aliased)).2.
Proof.
  assert (h_messagePattern (sw_h Toy_aliased) = ["->e"; "<-e, ee, s, es"; "->s, se"]) as H1
    by (vm_compute; reflexivity).
  assert (tokensOf "e" = ["e"]) as H2 by (vm_compute; reflexivity).
  assert (sw_payload Toy_aliased = At <$> seq (len (sw_buffer Toy_aliased)) 14) as H3
    by (vm_compute; reflexivity).
  assert (14 <= length (spare (sw_buffer Toy_aliased))) as H4 by (vm_compute; lia).
  assert (dhLen <= length (spare (sw_buffer Toy_aliased))) as H5 by (vm_compute; lia).
  assert (take 14 (vec_to_list (publicKey (GenerateKeypair (sw_entropy Toy_aliased)).1)
                   ++ drop dhLen (spare (sw_buffer Toy_aliased)))
          = replicate 14 "Q"%byte) as H6 by (vm_compute; reflexivity).
  assert (take 14 (spare (sw_buffer Toy_aliased)) = bytes "attack at dawn") as H7
    by (vm_compute; reflexivity).
  pose proof (payload_in_spare_capacity_is_overwritten Toy_grow Toy_aliased
                "-"%char ">"%char "e" ["<-e, ee, s, es"; "->s, se"] [] 14
                H1 H2 H3 H4 H5 (or_introl eq_refl)) as (Hgiven & Hres & Hstate).
  rewrite H6 in Hres, Hstate. rewrite H7 in Hgiven.
  split; [exact H1|]. split; [exact H2|]. split; [exact H3|]. split; [exact H4|].
  split; [exact H5|]. split; [exact Hgiven|]. split; [exact H6|].
  split; [exact Hres|exact Hstate].
Defined.
